(** * Soccer Math: a shallow embedding of the game session

    The repository holds two versions of one React component:
    - the charge-and-release version (spacebar hold, power bar, Bezier ball
      flight), modelled in [Module Charge];
    - the click version ([src/components/SoccerMathGame.tsx], option buttons,
      CSS-transition ball flight), modelled in [Module Click].

    Both share the question generator, the round constants and the state
    variables.  React state is a record; every callback the component
    schedules ([setTimeout], [requestAnimationFrame]) is kept in an explicit
    list together with the values its closure captured; [Math.random] reads
    from a finite tape of pre-drawn numbers.

    What both versions render and play is modelled beside the session: the
    clock ([formatTime]), the game-over overlay, the power bar and the target
    highlight, and the audio functions ([Module Sound], over the elements of
    [audioRefs.current]; [gameConfig.audio] is a parameter). *)

From Stdlib Require Import Ascii String DecimalString DecimalZ DecimalN DecimalPos.
From Stdlib Require Import ZArith QArith Qround Qminmax List Bool Lia Lqa Permutation.
Import ListNotations.

Open Scope Z_scope.

(** ** Constants *)

Definition QUESTION_COUNT : Z := 10.
Definition ANIMATION_DURATION : Z := 800. (* ms *)

(** ** The random source *)

(** [Math.random()] returns a number [r] with [0 <= r < 1].  A draw carries
    its value together with the (boolean, hence computable) range check. *)
Definition in_unit (r : Q) : bool := Qle_bool 0 r && negb (Qle_bool 1 r).

Record draw : Type := mkDraw { dval : Q; dval_unit : in_unit dval = true }.

(** A computation that consumes draws from the tape; [None] when the tape is
    exhausted before the computation is over. *)
Definition Rand (A : Type) : Type := list draw -> option (A * list draw).

Definition ret {A} (a : A) : Rand A := fun tape => Some (a, tape).

Definition bind {A B} (m : Rand A) (k : A -> Rand B) : Rand B :=
  fun tape =>
    match m tape with
    | Some (a, tape') => k a tape'
    | None => None
    end.

Notation "x <- m ;; k" := (bind m (fun x => k))
  (at level 61, m at next level, right associativity).

Definition Math_random : Rand draw :=
  fun tape =>
    match tape with
    | [] => None
    | d :: tape' => Some (d, tape')
    end.

(** [Math.floor(Math.random() * n) + 1].  The product is taken exactly; the
    engine rounds it to a double before [Math.floor], so on some draws the
    code's value is one more than this one.  Both lie between 1 and [n], and
    that range is all the theorems below use. *)
Definition random_upto (n : Z) (d : draw) : Z :=
  Qfloor (dval d * inject_Z n) + 1.

(** ** Questions *)

Record Question : Type := mkQuestion {
  num1 : Z;
  num2 : Z;
  answer : Z;
  options : list Z
}.

(** A JavaScript [Set<number>] keeps insertion order and ignores a value that
    it already holds; [Array.from] lists it in that order. *)
Definition Set_has (x : Z) (s : list Z) : bool := existsb (Z.eqb x) s.

Definition Set_add (x : Z) (s : list Z) : list Z :=
  if Set_has x s then s else s ++ [x].

(** [while (options.size < 3) { wrong = ...; if (wrong !== answer) options.add(wrong) }]
    Every iteration reads one draw, so the loop is structural on the tape. *)
Fixpoint fill_options (ans : Z) (opts : list Z) (tape : list draw)
  : option (list Z * list draw) :=
  if (length opts <? 3)%nat then
    match tape with
    | [] => None
    | d :: tape' =>
        let wrong := random_upto 20 d in
        fill_options ans (if wrong =? ans then opts else Set_add wrong opts) tape'
    end
  else Some (opts, tape).

Definition Qltb (a b : Q) : bool := negb (Qle_bool b a).

(** The comparator [() => Math.random() - 0.5]. *)
Definition random_compare (d : draw) : Q := dval d - (1 # 2).

(** [Array.prototype.sort] with that comparator.  With a comparator that is
    not consistent the order of the result and the number of comparator calls
    are implementation-defined.  The model is a linear insertion sort (the
    new element is put before the first element the comparator ranks it
    under); an engine may read more draws and order the three options
    differently on the same draws.  The theorems below use one fact only,
    which holds for every engine: the result is a permutation of the
    input. *)
Fixpoint sort_insert (x : Z) (sorted : list Z) : Rand (list Z) :=
  match sorted with
  | [] => ret [x]
  | y :: rest =>
      d <- Math_random ;;
      if Qltb (random_compare d) 0
      then ret (x :: y :: rest)
      else (r <- sort_insert x rest ;; ret (y :: r))
  end.

Fixpoint sort_random_from (sorted todo : list Z) : Rand (list Z) :=
  match todo with
  | [] => ret sorted
  | x :: todo' => s <- sort_insert x sorted ;; sort_random_from s todo'
  end.

Definition sort_random (l : list Z) : Rand (list Z) := sort_random_from [] l.

(** The part of [generateQuestion] that builds the question (the same text in
    both versions of the component). *)
Definition newQuestion : Rand Question :=
  d1 <- Math_random ;;
  d2 <- Math_random ;;
  let n1 := random_upto 10 d1 in
  let n2 := random_upto 10 d2 in
  let ans := n1 + n2 in
  opts <- fill_options ans (Set_add ans []) ;;
  shuffled <- sort_random opts ;;
  ret (mkQuestion n1 n2 ans shuffled).

(** ** Session state *)

Inductive GameState : Type := menu | playing | finished.

Inductive Feedback : Type := correct | incorrect.

(** A position in percent of the field. *)
Record Pos : Type := mkPos { pos_x : Q; pos_y : Q }.

(** The callbacks the component hands to [setTimeout] and
    [requestAnimationFrame].  A callback is a closure: it carries the values of
    [currentQuestion] and [questionIndex] of the render that created it. *)
Inductive Callback : Type :=
| KickStart (selectedAnswer : Z) (index : nat)
            (q : option Question) (qi : Z)
| AnimateBall (startTime : Q) (selectedAnswer : Z) (index : nat)
              (q : option Question) (qi : Z)
| KickLanded (selectedAnswer : Z) (q : option Question) (qi : Z)
| NextQuestion (qi : Z).

Inductive Pending : Type :=
| Timeout (ms : Z) (cb : Callback)
| AnimationFrame (cb : Callback).

Definition callback_of (p : Pending) : Callback :=
  match p with
  | Timeout _ cb => cb
  | AnimationFrame cb => cb
  end.

(** The [useState] variables and refs of the component (the click version
    has no kicker frame and no charge fields and leaves them alone), the DOM
    position last written to the ball, the scheduled callbacks in scheduling
    order, and the random tape.  Audio and the confetti burst are left out:
    no state variable depends on them. *)
Record State : Type := mkState {
  gameState : GameState;
  score : Z;
  questionIndex : Z;
  currentQuestion : option Question;
  ballPosition : Pos;
  isKicking : bool;
  kickerFrame : Z;
  feedback : option Feedback;
  showKicker : bool;
  kickPower : Z;               (* kickPowerRef.current *)
  activeTargetIndex : nat;
  isCharging : bool;
  chargeInterval : bool;       (* chargeIntervalRef.current !== null *)
  ballStyle : option Pos;      (* ballRef.current.style left/top, as written
                                  by animateBall and the layout effect while
                                  a kick is under way; React's own writes on
                                  a re-render with isKicking false are not
                                  tracked *)
  showSidebar : bool;
  isPaused : bool;
  showHelp : bool;
  elapsedSeconds : Z;
  pending : list Pending;
  tape : list draw
}.

Definition setGameState (v : GameState) (s : State) : State :=
  mkState v (score s) (questionIndex s) (currentQuestion s) (ballPosition s)
    (isKicking s) (kickerFrame s) (feedback s) (showKicker s) (kickPower s)
    (activeTargetIndex s) (isCharging s) (chargeInterval s) (ballStyle s)
    (showSidebar s) (isPaused s) (showHelp s) (elapsedSeconds s) (pending s)
    (tape s).

Definition setScore (v : Z) (s : State) : State :=
  mkState (gameState s) v (questionIndex s) (currentQuestion s)
    (ballPosition s) (isKicking s) (kickerFrame s) (feedback s) (showKicker s)
    (kickPower s) (activeTargetIndex s) (isCharging s) (chargeInterval s)
    (ballStyle s) (showSidebar s) (isPaused s) (showHelp s) (elapsedSeconds s)
    (pending s) (tape s).

Definition setQuestionIndex (v : Z) (s : State) : State :=
  mkState (gameState s) (score s) v (currentQuestion s) (ballPosition s)
    (isKicking s) (kickerFrame s) (feedback s) (showKicker s) (kickPower s)
    (activeTargetIndex s) (isCharging s) (chargeInterval s) (ballStyle s)
    (showSidebar s) (isPaused s) (showHelp s) (elapsedSeconds s) (pending s)
    (tape s).

Definition setCurrentQuestion (v : option Question) (s : State) : State :=
  mkState (gameState s) (score s) (questionIndex s) v (ballPosition s)
    (isKicking s) (kickerFrame s) (feedback s) (showKicker s) (kickPower s)
    (activeTargetIndex s) (isCharging s) (chargeInterval s) (ballStyle s)
    (showSidebar s) (isPaused s) (showHelp s) (elapsedSeconds s) (pending s)
    (tape s).

Definition setBallPosition (v : Pos) (s : State) : State :=
  mkState (gameState s) (score s) (questionIndex s) (currentQuestion s) v
    (isKicking s) (kickerFrame s) (feedback s) (showKicker s) (kickPower s)
    (activeTargetIndex s) (isCharging s) (chargeInterval s) (ballStyle s)
    (showSidebar s) (isPaused s) (showHelp s) (elapsedSeconds s) (pending s)
    (tape s).

Definition setIsKicking (v : bool) (s : State) : State :=
  mkState (gameState s) (score s) (questionIndex s) (currentQuestion s)
    (ballPosition s) v (kickerFrame s) (feedback s) (showKicker s)
    (kickPower s) (activeTargetIndex s) (isCharging s) (chargeInterval s)
    (ballStyle s) (showSidebar s) (isPaused s) (showHelp s) (elapsedSeconds s)
    (pending s) (tape s).

Definition setKickerFrame (v : Z) (s : State) : State :=
  mkState (gameState s) (score s) (questionIndex s) (currentQuestion s)
    (ballPosition s) (isKicking s) v (feedback s) (showKicker s) (kickPower s)
    (activeTargetIndex s) (isCharging s) (chargeInterval s) (ballStyle s)
    (showSidebar s) (isPaused s) (showHelp s) (elapsedSeconds s) (pending s)
    (tape s).

Definition setFeedback (v : option Feedback) (s : State) : State :=
  mkState (gameState s) (score s) (questionIndex s) (currentQuestion s)
    (ballPosition s) (isKicking s) (kickerFrame s) v (showKicker s)
    (kickPower s) (activeTargetIndex s) (isCharging s) (chargeInterval s)
    (ballStyle s) (showSidebar s) (isPaused s) (showHelp s) (elapsedSeconds s)
    (pending s) (tape s).

Definition setShowKicker (v : bool) (s : State) : State :=
  mkState (gameState s) (score s) (questionIndex s) (currentQuestion s)
    (ballPosition s) (isKicking s) (kickerFrame s) (feedback s) v
    (kickPower s) (activeTargetIndex s) (isCharging s) (chargeInterval s)
    (ballStyle s) (showSidebar s) (isPaused s) (showHelp s) (elapsedSeconds s)
    (pending s) (tape s).

Definition setKickPower (v : Z) (s : State) : State :=
  mkState (gameState s) (score s) (questionIndex s) (currentQuestion s)
    (ballPosition s) (isKicking s) (kickerFrame s) (feedback s) (showKicker s)
    v (activeTargetIndex s) (isCharging s) (chargeInterval s) (ballStyle s)
    (showSidebar s) (isPaused s) (showHelp s) (elapsedSeconds s) (pending s)
    (tape s).

Definition setActiveTargetIndex (v : nat) (s : State) : State :=
  mkState (gameState s) (score s) (questionIndex s) (currentQuestion s)
    (ballPosition s) (isKicking s) (kickerFrame s) (feedback s) (showKicker s)
    (kickPower s) v (isCharging s) (chargeInterval s) (ballStyle s)
    (showSidebar s) (isPaused s) (showHelp s) (elapsedSeconds s) (pending s)
    (tape s).

Definition setIsCharging (v : bool) (s : State) : State :=
  mkState (gameState s) (score s) (questionIndex s) (currentQuestion s)
    (ballPosition s) (isKicking s) (kickerFrame s) (feedback s) (showKicker s)
    (kickPower s) (activeTargetIndex s) v (chargeInterval s) (ballStyle s)
    (showSidebar s) (isPaused s) (showHelp s) (elapsedSeconds s) (pending s)
    (tape s).

Definition setChargeInterval (v : bool) (s : State) : State :=
  mkState (gameState s) (score s) (questionIndex s) (currentQuestion s)
    (ballPosition s) (isKicking s) (kickerFrame s) (feedback s) (showKicker s)
    (kickPower s) (activeTargetIndex s) (isCharging s) v (ballStyle s)
    (showSidebar s) (isPaused s) (showHelp s) (elapsedSeconds s) (pending s)
    (tape s).

Definition setBallStyle (v : option Pos) (s : State) : State :=
  mkState (gameState s) (score s) (questionIndex s) (currentQuestion s)
    (ballPosition s) (isKicking s) (kickerFrame s) (feedback s) (showKicker s)
    (kickPower s) (activeTargetIndex s) (isCharging s) (chargeInterval s) v
    (showSidebar s) (isPaused s) (showHelp s) (elapsedSeconds s) (pending s)
    (tape s).

Definition setShowSidebar (v : bool) (s : State) : State :=
  mkState (gameState s) (score s) (questionIndex s) (currentQuestion s)
    (ballPosition s) (isKicking s) (kickerFrame s) (feedback s) (showKicker s)
    (kickPower s) (activeTargetIndex s) (isCharging s) (chargeInterval s)
    (ballStyle s) v (isPaused s) (showHelp s) (elapsedSeconds s) (pending s)
    (tape s).

Definition setIsPaused (v : bool) (s : State) : State :=
  mkState (gameState s) (score s) (questionIndex s) (currentQuestion s)
    (ballPosition s) (isKicking s) (kickerFrame s) (feedback s) (showKicker s)
    (kickPower s) (activeTargetIndex s) (isCharging s) (chargeInterval s)
    (ballStyle s) (showSidebar s) v (showHelp s) (elapsedSeconds s)
    (pending s) (tape s).

Definition setShowHelp (v : bool) (s : State) : State :=
  mkState (gameState s) (score s) (questionIndex s) (currentQuestion s)
    (ballPosition s) (isKicking s) (kickerFrame s) (feedback s) (showKicker s)
    (kickPower s) (activeTargetIndex s) (isCharging s) (chargeInterval s)
    (ballStyle s) (showSidebar s) (isPaused s) v (elapsedSeconds s)
    (pending s) (tape s).

Definition setElapsedSeconds (v : Z) (s : State) : State :=
  mkState (gameState s) (score s) (questionIndex s) (currentQuestion s)
    (ballPosition s) (isKicking s) (kickerFrame s) (feedback s) (showKicker s)
    (kickPower s) (activeTargetIndex s) (isCharging s) (chargeInterval s)
    (ballStyle s) (showSidebar s) (isPaused s) (showHelp s) v (pending s)
    (tape s).

Definition setPending (v : list Pending) (s : State) : State :=
  mkState (gameState s) (score s) (questionIndex s) (currentQuestion s)
    (ballPosition s) (isKicking s) (kickerFrame s) (feedback s) (showKicker s)
    (kickPower s) (activeTargetIndex s) (isCharging s) (chargeInterval s)
    (ballStyle s) (showSidebar s) (isPaused s) (showHelp s) (elapsedSeconds s)
    v (tape s).

Definition setTape (v : list draw) (s : State) : State :=
  mkState (gameState s) (score s) (questionIndex s) (currentQuestion s)
    (ballPosition s) (isKicking s) (kickerFrame s) (feedback s) (showKicker s)
    (kickPower s) (activeTargetIndex s) (isCharging s) (chargeInterval s)
    (ballStyle s) (showSidebar s) (isPaused s) (showHelp s) (elapsedSeconds s)
    (pending s) v.

Notation "s |> f" := (f s) (at level 45, left associativity, only parsing).

Definition is_playing (g : GameState) : bool :=
  match g with playing => true | _ => false end.

Definition is_menu (g : GameState) : bool :=
  match g with menu => true | _ => false end.

Definition is_finished (g : GameState) : bool :=
  match g with finished => true | _ => false end.

Definition setTimeout (ms : Z) (cb : Callback) (s : State) : State :=
  setPending (pending s ++ [Timeout ms cb]) s.

Definition requestAnimationFrame (cb : Callback) (s : State) : State :=
  setPending (pending s ++ [AnimationFrame cb]) s.

Fixpoint remove_nth {A} (k : nat) (l : list A) : list A :=
  match l, k with
  | [], _ => []
  | _ :: l', O => l'
  | a :: l', S k' => a :: remove_nth k' l'
  end.

(** The state before the mount effect runs: the [useState] initial values. *)
Definition initialState (ball : Pos) (t : list draw) : State :=
  mkState menu 0 0 None ball false 1 None true 0 0%nat false false None
    false false false 0 [] t.

(** Shared handlers (the same text in both versions). *)

Definition togglePause (s : State) : State :=
  let next := negb (isPaused s) in
  s |> setShowSidebar next |> setIsPaused next.

Definition openHelp (s : State) : State :=
  s |> setShowHelp true |> setIsPaused true |> setShowSidebar true.

(** The one-second interval exists only while the round is running. *)
Definition timerTick (s : State) : State :=
  if isPaused s || negb (is_playing (gameState s)) then s
  else setElapsedSeconds (elapsedSeconds s + 1) s.

(** The 1500 ms callback scheduled after the feedback is shown; [qi] is the
    question index its closure captured. *)
Definition afterFeedback (generateQuestion : State -> option State)
           (qi : Z) (s : State) : option State :=
  if qi <? QUESTION_COUNT - 1 then
    generateQuestion (setQuestionIndex (questionIndex s + 1) s)
  else
    Some (s |> setGameState finished |> setIsPaused true).

(** The scoring step shared by [finishKick] and the click version's timeout:
    [selectedAnswer === currentQuestion?.answer] on the captured question. *)
Definition isCorrect (selectedAnswer : Z) (q : option Question) : bool :=
  match q with
  | Some q => selectedAnswer =? answer q
  | None => false
  end.

Definition resolveKick (selectedAnswer : Z) (q : option Question) (qi : Z)
           (s : State) : State :=
  (if isCorrect selectedAnswer q
   then s |> setScore (score s + 1) |> setFeedback (Some correct)
   else s |> setFeedback (Some incorrect))
  |> setTimeout 1500 (NextQuestion qi).

(** ** The charge-and-release version *)

Module Charge.

(** [startPos], also the resting [ballPosition]. *)
Definition startPos : Pos := mkPos (inject_Z 12) (inject_Z 58).

Definition GOAL_POSITIONS : list Pos :=
  [ mkPos (inject_Z 40) (inject_Z 50);    (* Close *)
    mkPos (inject_Z 65) (inject_Z 50);    (* Mid *)
    mkPos (inject_Z 90) (inject_Z 50) ].  (* Far *)

Inductive Event : Type :=
| KeyDown (space repeat : bool)   (* keydown; [space]: e.code === 'Space' *)
| KeyUp (space : bool)
| ChargeTick                      (* the 40 ms charge interval fires *)
| Second                          (* the one-second interval fires *)
| TogglePause
| OpenHelp
| CloseHelp
| ResetRound
| Fire (k : nat) (now : Q).       (* the k-th scheduled callback runs *)

Definition generateQuestion (s : State) : option State :=
  match newQuestion (tape s) with
  | Some (q, tape') =>
      Some (s |> setTape tape'
              |> setCurrentQuestion (Some q)
              |> setBallPosition startPos
              |> setFeedback None
              |> setIsKicking false
              |> setKickerFrame 1
              |> setShowKicker true)
  | None => None
  end.

(** Mount effect: [generateQuestion(); setShowHelp(true); setIsPaused(true)]. *)
Definition mount (t : list draw) : option State :=
  match generateQuestion (initialState startPos t) with
  | Some s => Some (s |> setShowHelp true |> setIsPaused true)
  | None => None
  end.

(** [if (power > 66) 2 else if (power > 33) 1 else 0], written out in both
    the charge interval and [handleKeyUp]. *)
Definition targetIndexOf (power : Z) : nat :=
  if 66 <? power then 2%nat else if 33 <? power then 1%nat else 0%nat.

(** The layout effect on [isKicking, ballPosition]: once [isKicking] is set
    the ball element, when it is in the DOM, is pinned to [ballPosition]. *)
Definition layoutEffect (s : State) : State :=
  match currentQuestion s with
  | Some _ => if isKicking s then setBallStyle (Some (ballPosition s)) s else s
  | None => s
  end.

Definition handleAnswer (selectedAnswer : Z) (index : nat) (s : State) : State :=
  if isKicking s || isPaused s || negb (is_playing (gameState s)) then s
  else
    s |> setIsKicking true
      |> layoutEffect
      |> setKickerFrame 2
      |> setTimeout 100
           (KickStart selectedAnswer index (currentQuestion s) (questionIndex s)).

Definition handleKeyDown (space repeat : bool) (s : State) : State :=
  if space && negb repeat && negb (isKicking s) && negb (isPaused s)
     && is_playing (gameState s)
  then
    s |> setIsCharging true
      |> setKickPower 0
      |> setActiveTargetIndex 0%nat
      |> setChargeInterval true
  else s.

(** One run of the charge interval's callback. *)
Definition chargeStep (power : Z) : Z :=
  if power <? 100 then power + 4 else 100.

Definition chargeTick (s : State) : State :=
  if chargeInterval s then
    let currentPower := chargeStep (kickPower s) in
    s |> setKickPower currentPower
      |> setActiveTargetIndex (targetIndexOf currentPower)
  else s.

Definition handleKeyUp (space : bool) (s : State) : State :=
  if space && negb (isKicking s) && negb (isPaused s)
     && is_playing (gameState s)
  then
    let s1 := s |> setIsCharging false |> setChargeInterval false in
    let power := kickPower s1 in
    let targetIndex := targetIndexOf power in
    let s2 :=
      match currentQuestion s1 with
      | Some q =>
          match nth_error (options q) targetIndex with
          | Some opt => handleAnswer opt targetIndex s1
          | None => s1
          end
      | None => s1
      end in
    setKickPower 0 s2
  else s.

(** [GOAL_POSITIONS[index % GOAL_POSITIONS.length]] *)
Definition goalTarget (index : nat) : Pos :=
  nth (index mod length GOAL_POSITIONS) GOAL_POSITIONS startPos.

Definition controlPos (target : Pos) : Pos :=
  mkPos ((pos_x startPos + pos_x target) / inject_Z 2) (inject_Z 10).

(** [Math.min(elapsed / ANIMATION_DURATION, 1)] *)
Definition progressAt (startTime currentTime : Q) : Q :=
  Qmin ((currentTime - startTime) / inject_Z ANIMATION_DURATION) 1.

Definition Math_pow2 (a : Q) : Q := a ^ 2.

(** One coordinate of the ball at progress [t], as [animateBall] writes it. *)
Definition ballCoord (t p0 c p1 : Q) : Q :=
  Math_pow2 (1 - t) * p0 + inject_Z 2 * (1 - t) * t * c + Math_pow2 t * p1.

Definition ballAt (target : Pos) (t : Q) : Pos :=
  mkPos (ballCoord t (pos_x startPos) (pos_x (controlPos target)) (pos_x target))
        (ballCoord t (pos_y startPos) (pos_y (controlPos target)) (pos_y target)).

Definition finishKick := resolveKick.

(** One animation frame of the ball flight started at [startTime]. *)
Definition animateBall (startTime : Q) (selectedAnswer : Z) (index : nat)
           (q : option Question) (qi : Z) (currentTime : Q) (s : State) : State :=
  let target := goalTarget index in
  let progress := progressAt startTime currentTime in
  let s1 :=
    match currentQuestion s with   (* the ball is in the DOM *)
    | Some _ => setBallStyle (Some (ballAt target progress)) s
    | None => s
    end in
  if Qltb progress 1
  then requestAnimationFrame (AnimateBall startTime selectedAnswer index q qi) s1
  else finishKick selectedAnswer q qi s1.

(** [startBallAnimation]: [startTime = performance.now()], first frame requested. *)
Definition startBallAnimation (now : Q) (selectedAnswer : Z) (index : nat)
           (q : option Question) (qi : Z) (s : State) : State :=
  requestAnimationFrame (AnimateBall now selectedAnswer index q qi) s.

Definition runCallback (cb : Callback) (now : Q) (s : State) : option State :=
  match cb with
  | KickStart sel index q qi =>
      Some (s |> setKickerFrame 3 |> startBallAnimation now sel index q qi)
  | AnimateBall startTime sel index q qi =>
      Some (animateBall startTime sel index q qi now s)
  | NextQuestion qi => afterFeedback generateQuestion qi s
  | KickLanded _ _ _ => Some s     (* never scheduled by this version *)
  end.

Definition fire (k : nat) (now : Q) (s : State) : option State :=
  match nth_error (pending s) k with
  | Some p => runCallback (callback_of p) now (setPending (remove_nth k (pending s)) s)
  | None => Some s
  end.

Definition startGame (s : State) : option State :=
  match generateQuestion
          (s |> setGameState playing |> setScore 0 |> setQuestionIndex 0
             |> setElapsedSeconds 0) with
  | Some s' => Some (s' |> setIsPaused false |> setShowHelp false)
  | None => None
  end.

Definition closeHelp (s : State) : option State :=
  let s1 := setShowHelp false s in
  match (if is_menu (gameState s) then startGame s1
         else Some (setIsPaused false s1)) with
  | Some s2 => Some (setShowSidebar false s2)
  | None => None
  end.

Definition resetRound (s : State) : option State :=
  match generateQuestion
          (s |> setGameState playing |> setScore 0 |> setQuestionIndex 0
             |> setElapsedSeconds 0 |> setFeedback None |> setIsKicking false
             |> setKickerFrame 1 |> setShowKicker true
             |> setBallPosition startPos) with
  | Some s' =>
      Some (s' |> setIsPaused false |> setShowSidebar false |> setKickPower 0)
  | None => None
  end.

(** One event of the session.  A control that is not rendered cannot be
    clicked; an interval that does not exist cannot fire. *)
Definition step (s : State) (e : Event) : option State :=
  match e with
  | KeyDown space repeat => Some (handleKeyDown space repeat s)
  | KeyUp space => Some (handleKeyUp space s)
  | ChargeTick => Some (chargeTick s)
  | Second => Some (timerTick s)
  | TogglePause => Some (togglePause s)
  | OpenHelp => Some (openHelp s)
  | CloseHelp => if showHelp s then closeHelp s else Some s
  | ResetRound =>
      if showSidebar s || is_finished (gameState s) then resetRound s
      else Some s
  | Fire k now => fire k now s
  end.

Fixpoint run (s : State) (es : list Event) : option State :=
  match es with
  | [] => Some s
  | e :: es' =>
      match step s e with
      | Some s' => run s' es'
      | None => None
      end
  end.

End Charge.

(** ** The click version ([src/components/SoccerMathGame.tsx]) *)

Module Click.

Definition restPos : Pos := mkPos (inject_Z 20) (inject_Z 50).

Inductive Event : Type :=
| ClickOption (idx : nat)         (* click on the idx-th option button *)
| Second
| TogglePause
| OpenHelp
| CloseHelp
| ResetRound
| Fire (k : nat).                 (* the k-th scheduled timeout runs *)

Definition generateQuestion (s : State) : option State :=
  match newQuestion (tape s) with
  | Some (q, tape') =>
      Some (s |> setTape tape'
              |> setCurrentQuestion (Some q)
              |> setBallPosition restPos
              |> setFeedback None
              |> setIsKicking false
              |> setShowKicker true)
  | None => None
  end.

Definition mount (t : list draw) : option State :=
  match generateQuestion (initialState restPos t) with
  | Some s => Some (s |> setShowHelp true |> setIsPaused true)
  | None => None
  end.

Definition handleAnswer (selectedAnswer : Z) (index : nat) (s : State) : State :=
  if isKicking s || isPaused s || negb (is_playing (gameState s)) then s
  else
    let targetX := inject_Z 90 in
    let targetY := inject_Z (25 + Z.of_nat index * 25) in
    s |> setIsKicking true
      |> setBallPosition (mkPos targetX targetY)
      |> setTimeout ANIMATION_DURATION
           (KickLanded selectedAnswer (currentQuestion s) (questionIndex s)).

(** The option buttons are rendered from [currentQuestion.options] and are
    disabled while [isKicking || isPaused]. *)
Definition clickOption (idx : nat) (s : State) : State :=
  match currentQuestion s with
  | Some q =>
      match nth_error (options q) idx with
      | Some opt =>
          if isKicking s || isPaused s then s else handleAnswer opt idx s
      | None => s
      end
  | None => s
  end.

Definition runCallback (cb : Callback) (s : State) : option State :=
  match cb with
  | KickLanded sel q qi => Some (resolveKick sel q qi s)
  | NextQuestion qi => afterFeedback generateQuestion qi s
  | KickStart _ _ _ _ => Some s          (* never scheduled by this version *)
  | AnimateBall _ _ _ _ _ => Some s      (* never scheduled by this version *)
  end.

Definition fire (k : nat) (s : State) : option State :=
  match nth_error (pending s) k with
  | Some p => runCallback (callback_of p) (setPending (remove_nth k (pending s)) s)
  | None => Some s
  end.

Definition startGame (s : State) : option State :=
  match generateQuestion
          (s |> setGameState playing |> setScore 0 |> setQuestionIndex 0
             |> setElapsedSeconds 0) with
  | Some s' => Some (s' |> setIsPaused false |> setShowHelp false)
  | None => None
  end.

Definition closeHelp (s : State) : option State :=
  let s1 := setShowHelp false s in
  match (if is_menu (gameState s) then startGame s1
         else Some (setIsPaused false s1)) with
  | Some s2 => Some (setShowSidebar false s2)
  | None => None
  end.

Definition resetRound (s : State) : option State :=
  match generateQuestion
          (s |> setGameState playing |> setScore 0 |> setQuestionIndex 0
             |> setElapsedSeconds 0 |> setFeedback None |> setIsKicking false
             |> setShowKicker true |> setBallPosition restPos) with
  | Some s' => Some (s' |> setIsPaused false |> setShowSidebar false)
  | None => None
  end.

Definition step (s : State) (e : Event) : option State :=
  match e with
  | ClickOption idx => Some (clickOption idx s)
  | Second => Some (timerTick s)
  | TogglePause => Some (togglePause s)
  | OpenHelp => Some (openHelp s)
  | CloseHelp => if showHelp s then closeHelp s else Some s
  | ResetRound =>
      if showSidebar s || is_finished (gameState s) then resetRound s
      else Some s
  | Fire k => fire k s
  end.

Fixpoint run (s : State) (es : list Event) : option State :=
  match es with
  | [] => Some s
  | e :: es' =>
      match step s e with
      | Some s' => run s' es'
      | None => None
      end
  end.

End Click.

(** ** What both versions render and play *)

(** *** The clock *)

(** [String(n)] for an integer [n]. *)
Definition String_of (n : Z) : string := NilZero.string_of_int (Z.to_int n).

(** [str.padStart(targetLength, pad)] for a one-character [pad]. *)
Definition padStart (targetLength : nat) (pad : ascii) (str : string) : string :=
  (string_of_list_ascii (repeat pad (targetLength - String.length str))
   ++ str)%string.

Definition formatTime (s : Z) : string :=
  let m := s / 60 in          (* Math.floor(s / 60) *)
  let sec := Z.rem s 60 in    (* s % 60 *)
  (padStart 2 "0" (String_of m) ++ ":" ++ padStart 2 "0" (String_of sec))%string.

(** *** The game-over overlay *)

Inductive Headline : Type := YOU_WIN | GAME_OVER.

(** [score > QUESTION_COUNT / 2 ? "YOU WIN!" : "GAME OVER"] *)
Definition headline (score : Z) : Headline :=
  if Qltb (inject_Z QUESTION_COUNT / inject_Z 2) (inject_Z score)
  then YOU_WIN else GAME_OVER.

(** Star [i] is yellow: [score >= (QUESTION_COUNT/3)*i].  The product is a
    double; for [i] = 1, 2 it lies strictly between the same integers as the
    rational, and for [i] = 3 it is exactly 10, so the comparison with an
    integer score is the rational one. *)
Definition starLit (score i : Z) : bool :=
  Qle_bool ((inject_Z QUESTION_COUNT / inject_Z 3) * inject_Z i) (inject_Z score).

(** [[1, 2, 3].map(i => ...)] *)
Definition stars (score : Z) : list bool := map (starLit score) [1; 2; 3].

(** *** The power bar and the target highlight (charge version) *)

Inductive BarClass : Type := bg_green_400 | bg_yellow_400 | bg_red_500.

(** The class the charge interval gives the bar fill at [currentPower]. *)
Definition powerBarClass (currentPower : Z) : BarClass :=
  if 66 <? currentPower then bg_red_500
  else if 33 <? currentPower then bg_yellow_400
  else bg_green_400.

(** [isTargeted] of the goal target [idx]. *)
Definition isTargeted (idx : nat) (s : State) : bool :=
  if isCharging s then (idx =? activeTargetIndex s)%nat else false.

(** *** Audio *)

Module Sound.

(** An [HTMLAudioElement], as far as the component reads and writes it. *)
Record Audio : Type := mkAudio {
  src : string;
  loop : bool;
  paused : bool;
  currentTime : Q
}.

(** [audioRefs.current], a record from cue names to elements. *)
Definition Refs : Type := string -> option Audio.

(** [gameConfig.audio], imported from a module that is not part of the
    sources: a parameter of every function that reads it. *)
Definition Config : Type := string -> option string.

(** [useRef({})] *)
Definition no_refs : Refs := fun _ => None.

(** [audioRefs.current[name] = a] *)
Definition assign (name : string) (a : Audio) (refs : Refs) : Refs :=
  fun n => if String.eqb n name then Some a else refs n.

(** [new Audio(src)] *)
Definition new_Audio (source : string) : Audio := mkAudio source false true 0.

(** [if (src)]: a missing or empty source is falsy. *)
Definition truthy (source : option string) : option string :=
  match source with
  | Some EmptyString => None
  | _ => source
  end.

(** [audio.play()]: the browser may reject the promise (autoplay policy), the
    error is logged and the element stays paused; [allowed] is its answer. *)
Definition play (allowed : bool) (a : Audio) : Audio :=
  if allowed then mkAudio (src a) (loop a) false (currentTime a) else a.

(** [audio.pause()] *)
Definition pause (a : Audio) : Audio :=
  mkAudio (src a) (loop a) true (currentTime a).

(** [isMuted] is the value the closure of [playAudio] captured. *)
Definition playAudio (config : Config) (isMuted allowed : bool)
           (name : string) (loop : bool) (refs : Refs) : Refs :=
  if isMuted then refs
  else
    let refs1 :=
      match refs name with
      | Some _ => refs
      | None =>
          match truthy (config name) with
          | Some source =>
              let a := new_Audio source in
              assign name (mkAudio (src a) loop (paused a) (currentTime a)) refs
          | None => refs
          end
      end in
    match refs1 name with
    | Some a => if paused a then assign name (play allowed a) refs1 else refs1
    | None => refs1
    end.

Definition pauseAudio (name : string) (refs : Refs) : Refs :=
  match refs name with
  | Some a => assign name (pause a) refs
  | None => refs
  end.

(** [Object.values(audioRefs.current).forEach(...)] *)
Definition stopAllAudio (refs : Refs) : Refs :=
  fun n =>
    match refs n with
    | Some a => Some (mkAudio (src a) (loop a) true 0)
    | None => None
    end.

(** [toggleMute] of a render with [isMuted] and [isPaused]; [m] is the value
    React hands to the updater.  The result is the new [isMuted] and the
    elements.  The button that calls it is rendered inside the sidebar, that
    is while [isPaused] is true. *)
Definition toggleMute (config : Config) (allowed isMuted isPaused : bool)
           (m : bool) (refs : Refs) : bool * Refs :=
  let next := negb m in
  (next,
   if next then stopAllAudio refs
   else if negb isPaused
        then playAudio config isMuted allowed "background" true refs
        else refs).

(** The effect on [[isPaused, isMuted]] (background music management). *)
Definition musicEffect (config : Config) (allowed isPaused isMuted : bool)
           (refs : Refs) : Refs :=
  if negb isPaused && negb isMuted
  then playAudio config isMuted allowed "background" true refs
  else pauseAudio "background" refs.

End Sound.

(** ** Vocabulary of the properties *)

(** *** Questions *)

(** The invariants of a question: the sum, the operand range, three distinct
    options, the answer among them once, two distractors apart from the answer
    and from each other. *)
Definition question_invariant (q : Question) : Prop :=
  answer q = num1 q + num2 q /\
  1 <= num1 q <= 10 /\ 1 <= num2 q <= 10 /\
  length (options q) = 3%nat /\ NoDup (options q) /\
  count_occ Z.eq_dec (options q) (answer q) = 1%nat /\
  exists w1 w2,
    Permutation [answer q; w1; w2] (options q) /\
    w1 <> answer q /\ w2 <> answer q /\ w1 <> w2.

(** What the option set looks like on every pass through the loop: the answer
    first, then distinct wrong values between 1 and 20. *)
Definition options_inv (ans : Z) (opts : list Z) : Prop :=
  exists wrongs,
    opts = ans :: wrongs /\ NoDup (ans :: wrongs) /\
    Forall (fun w => 1 <= w <= 20) wrongs /\ (length opts <= 3)%nat.

(** The number of further distinct wrong values the tape offers, given the
    values already seen. *)
Fixpoint fresh_values (ans : Z) (seen : list Z) (t : list draw) : nat :=
  match t with
  | [] => 0
  | d :: t' =>
      let w := random_upto 20 d in
      if (w =? ans) || Set_has w seen then fresh_values ans seen t'
      else S (fresh_values ans (seen ++ [w]) t')
  end.

(** *** Input, charge and flight *)

(** A state in which the keyboard handlers take input. *)
Definition accepting (s : State) : Prop :=
  isKicking s = false /\ isPaused s = false /\ gameState s = playing.

(** The power after [n] runs of the charge interval. *)
Definition hold_ticks (n : nat) (s : State) : State :=
  Nat.iter n Charge.chargeTick s.

(** The specification's words for the ball flight: progress clamped to
    [0, 1], and the standard quadratic Bezier formula. *)
Definition clamp01 (x : Q) : Q := Qmax 0 (Qmin x 1).

Definition quadratic_bezier (t p0 c p1 : Q) : Q :=
  ((1 - t) * (1 - t) * p0 + inject_Z 2 * (1 - t) * t * c + t * t * p1)%Q.

(** *** Kicks and rounds *)

(** The outcome of a resolved kick on question [q], seen from the state [s]
    in which the selection was made. *)
Definition kick_outcome (s : State) (q : Question) (sel : Z) (s2 : State) : Prop :=
  (sel = answer q -> score s2 = score s + 1 /\ feedback s2 = Some correct) /\
  (sel <> answer q -> score s2 = score s /\ feedback s2 = Some incorrect) /\
  pending s2 = pending s ++ [Timeout 1500 (NextQuestion (questionIndex s))].

(** What the 1500 ms callback does when [run] fires it in [s2]. *)
Definition after_delay (s : State) (run : State -> option State) (s2 : State) : Prop :=
  (questionIndex s < QUESTION_COUNT - 1 ->
   forall q' t', newQuestion (tape s) = Some (q', t') ->
     exists s3, run s2 = Some s3 /\
                questionIndex s3 = questionIndex s + 1 /\
                currentQuestion s3 = Some q' /\
                gameState s3 = playing /\ pending s3 = pending s) /\
  (QUESTION_COUNT - 1 <= questionIndex s ->
     exists s3, run s2 = Some s3 /\
                gameState s3 = finished /\
                questionIndex s3 = questionIndex s /\ score s3 = score s2).

(** The fields of the round that a kick in progress leaves alone. *)
Definition same_round (s b : State) : Prop :=
  questionIndex b = questionIndex s /\ tape b = tape s /\
  gameState b = gameState s /\ pending b = pending s /\ score b = score s.

(** The round as a restart leaves it, with [q] the question it generated. *)
Definition restarted (q : Question) (s' : State) : Prop :=
  score s' = 0 /\ questionIndex s' = 0 /\ elapsedSeconds s' = 0 /\
  currentQuestion s' = Some q /\ gameState s' = playing /\
  isPaused s' = false /\ isKicking s' = false.

(** Kick callbacks that have been scheduled and have not yet resolved. *)
Definition is_kick (p : Pending) : bool :=
  match callback_of p with
  | KickStart _ _ _ _ | AnimateBall _ _ _ _ _ | KickLanded _ _ _ => true
  | NextQuestion _ => false
  end.

Definition is_animation (p : Pending) : bool :=
  match p with
  | AnimationFrame (AnimateBall _ _ _ _ _) => true
  | _ => false
  end.

Definition kicks_in_flight (s : State) : nat :=
  length (filter is_kick (pending s)).

Definition animations_in_flight (s : State) : nat :=
  length (filter is_animation (pending s)).

(** *** Orderly executions *)

(** The question index a scheduled callback captured. *)
Definition captured_index (p : Pending) : Z :=
  match callback_of p with
  | KickStart _ _ _ qi => qi
  | AnimateBall _ _ _ _ qi => qi
  | KickLanded _ _ qi => qi
  | NextQuestion qi => qi
  end.

(** The question a scheduled kick callback captured. *)
Definition captured_question (p : Pending) : option (option Question) :=
  match callback_of p with
  | KickStart _ _ q _ => Some q
  | AnimateBall _ _ _ q _ => Some q
  | KickLanded _ q _ => Some q
  | NextQuestion _ => None
  end.

(** The stages of a round in which no callback has leaked: idle, one kick
    under way (on the question and index now on display), feedback shown and
    the delay running, round over. *)
Definition orderly (s : State) : Prop :=
  0 <= score s /\ 0 <= questionIndex s <= QUESTION_COUNT - 1 /\
  ((pending s = [] /\ gameState s <> finished /\ score s <= questionIndex s)
   \/ (exists p, pending s = [p] /\ is_kick p = true /\
                 captured_question p = Some (currentQuestion s) /\
                 captured_index p = questionIndex s /\
                 isKicking s = true /\ gameState s = playing /\
                 score s <= questionIndex s)
   \/ (pending s = [Timeout 1500 (NextQuestion (questionIndex s))] /\
       isKicking s = true /\ gameState s = playing /\
       score s <= questionIndex s + 1)
   \/ (pending s = [] /\ gameState s = finished /\
       score s <= questionIndex s + 1)).

(** The state variables [orderly] reads. *)
Definition core (s : State)
  : Z * Z * list Pending * GameState * bool * option Question :=
  (score s, questionIndex s, pending s, gameState s, isKicking s,
   currentQuestion s).

(** A trace in which the round is never reset while a callback is pending. *)
Fixpoint charge_quiet (s : State) (es : list Charge.Event) : Prop :=
  match es with
  | [] => True
  | e :: es' =>
      (e = Charge.ResetRound -> pending s = []) /\
      match Charge.step s e with
      | Some s' => charge_quiet s' es'
      | None => True
      end
  end.

Fixpoint click_quiet (s : State) (es : list Click.Event) : Prop :=
  match es with
  | [] => True
  | e :: es' =>
      (e = Click.ResetRound -> pending s = []) /\
      match Click.step s e with
      | Some s' => click_quiet s' es'
      | None => True
      end
  end.

(** ** Worked executions *)

(** The draw [k / 1000]; a [k] outside [0, 999] reads as the draw [0]. *)
Definition permille (k : Z) : draw :=
  match bool_dec (in_unit (k # 1000)) true with
  | left H => mkDraw (k # 1000) H
  | right _ => mkDraw 0 eq_refl
  end.

(** Draws that make the question 3 + 4 with the options shown as
    [7; 12; 3]: operands, a rejected wrong value (7), the wrong values 12 and
    3, three comparator draws that leave the order alone. *)
Definition sample_tape : list draw :=
  map permille [250; 350; 300; 550; 100; 600; 700; 800].

(** Tape for [n] such questions. *)
Definition tape_for (n : nat) : list draw := concat (repeat sample_tape n).

Definition sample_question : Question := mkQuestion 3 4 7 [7; 12; 3].

(** A clock reading in milliseconds. *)
Definition ms (z : Z) : Q := inject_Z z.

(** The charge version after mount and "PLAY BALL!", with tape for a long
    session. *)
Definition session_start : option State :=
  match Charge.mount (tape_for 14) with
  | Some s => Charge.step s Charge.CloseHelp
  | None => None
  end.

Definition session (es : list Charge.Event) : option State :=
  match session_start with
  | Some s => Charge.run s es
  | None => None
  end.

Definition click_session (es : list Click.Event) : option State :=
  match Click.mount (tape_for 14) with
  | Some s => Click.run s (Click.CloseHelp :: es)
  | None => None
  end.

(** The state of the charge version when the first question is up. *)
Definition start_state : State :=
  match session_start with
  | Some s => s
  | None => initialState Charge.startPos []
  end.

(** The same state with the spacebar held for ten charge ticks. *)
Definition charged_state : State :=
  hold_ticks 10 (Charge.handleKeyDown true false start_state).

(** What an observer reads off a session. *)
Definition phase_and_score (r : option State) : option (GameState * Z) :=
  option_map (fun s => (gameState s, score s)) r.

Definition pause_and_power (r : option State) : option (bool * Z) :=
  option_map (fun s => (isPaused s, kickPower s)) r.

(** *** The charge version *)

Definition tap : list Charge.Event :=
  [Charge.KeyDown true false; Charge.KeyUp true].

(** One kick played to the end, started at clock reading [t]: a tap on the
    spacebar, the 100 ms wind-up, a frame in mid flight, the frame at 800 ms,
    the 1500 ms delay. *)
Definition kick_cycle (t : Z) : list Charge.Event :=
  tap ++ [Charge.Fire 0 (ms (t + 100)); Charge.Fire 0 (ms (t + 500));
          Charge.Fire 0 (ms (t + 900)); Charge.Fire 0 (ms (t + 2400))].

(** Ten kicks, one after the other. *)
Definition full_round_trace : list Charge.Event :=
  flat_map kick_cycle
    [0; 2500; 5000; 7500; 10000; 12500; 15000; 17500; 20000; 22500].

Definition finished_state : State :=
  match session full_round_trace with
  | Some s => s
  | None => start_state
  end.

(** The spacebar goes down, the pause button is clicked, the charge interval
    fires 18 times, the pause button is clicked again, the spacebar goes up. *)
Definition paused_hold_prefix : list Charge.Event :=
  [Charge.KeyDown true false; Charge.TogglePause].

Definition paused_hold_trace : list Charge.Event :=
  paused_hold_prefix ++ repeat Charge.ChargeTick 18 ++
  [Charge.TogglePause; Charge.KeyUp true].

(** A kick is started; while its ball is about to fly the round is paused and
    reset from the sidebar; a second kick is started at once. *)
Definition overlap_trace : list Charge.Event :=
  tap ++ [Charge.Fire 0 (ms 100); Charge.TogglePause; Charge.ResetRound] ++
  tap ++ [Charge.Fire 1 (ms 550)].

(** With two kicks under way: the older kick's delay ends (new question), a
    kick is started, the younger kick's delay ends (new question), a kick is
    started, and the two kicks land, 450 ms apart. *)
Definition stagger_cycle (t : Z) : list Charge.Event :=
  [Charge.Fire 0 (ms t)] ++ tap ++ [Charge.Fire 1 (ms (t + 200))] ++
  [Charge.Fire 0 (ms (t + 450))] ++ tap ++ [Charge.Fire 1 (ms (t + 650))] ++
  [Charge.Fire 0 (ms (t + 1000)); Charge.Fire 0 (ms (t + 1450))].

Definition overrun_trace : list Charge.Event :=
  overlap_trace ++ [Charge.Fire 0 (ms 900); Charge.Fire 0 (ms 1350)] ++
  flat_map stagger_cycle [2400; 4900; 7400; 9900; 12400] ++
  [Charge.Fire 0 (ms 14900); Charge.Fire 0 (ms 15350)].

(** *** The click version *)

Definition click_overlap_trace : list Click.Event :=
  [Click.ClickOption 0; Click.TogglePause; Click.ResetRound;
   Click.ClickOption 0].

Definition click_stagger_cycle : list Click.Event :=
  [Click.Fire 0; Click.ClickOption 0; Click.Fire 0; Click.ClickOption 0;
   Click.Fire 0; Click.Fire 0].

Definition click_overrun_trace : list Click.Event :=
  click_overlap_trace ++ [Click.Fire 0; Click.Fire 0] ++
  concat (repeat click_stagger_cycle 5) ++ [Click.Fire 0; Click.Fire 0].

(** Ten clicks on the first option, each played to the end. *)
Definition click_full_round_trace : list Click.Event :=
  concat (repeat [Click.ClickOption 0; Click.Fire 0; Click.Fire 0] 10).

(** *** State invariants of arbitrary executions *)

(** A kick callback resolves a well-formed question, and the value it carries
    is the option of that question at the index it carries. *)
Definition kick_wf (sel : Z) (index : nat) (q : option Question) : Prop :=
  exists q', q = Some q' /\ question_invariant q' /\
             nth_error (options q') index = Some sel.

Definition pending_wf (p : Pending) : Prop :=
  match callback_of p with
  | KickStart sel index q _ => kick_wf sel index q
  | AnimateBall _ sel index q _ => kick_wf sel index q
  | KickLanded sel q _ => exists index, kick_wf sel index q
  | NextQuestion _ => True
  end.

(** The state variables the invariant reads. *)
Record View : Type := mkView {
  v_score : Z;
  v_index : Z;
  v_elapsed : Z;
  v_power : Z;
  v_target : nat;
  v_question : option Question;
  v_pending : list Pending;
  v_sidebar : bool;
  v_paused : bool;
  v_frame : Z
}.

Definition view (s : State) : View :=
  mkView (score s) (questionIndex s) (elapsedSeconds s) (kickPower s)
         (activeTargetIndex s) (currentQuestion s) (pending s)
         (showSidebar s) (isPaused s) (kickerFrame s).

Definition sound_view (v : View) : Prop :=
  0 <= v_score v /\ 0 <= v_index v /\ 0 <= v_elapsed v /\
  (0 <= v_power v <= 100 /\ v_power v mod 4 = 0) /\
  (v_target v <= 2)%nat /\
  (exists q, v_question v = Some q /\ question_invariant q) /\
  Forall pending_wf (v_pending v) /\
  (v_sidebar v = true -> v_paused v = true) /\
  (1 <= v_frame v <= 3).

Definition sound (s : State) : Prop := sound_view (view s).

(** The states an execution reaches from mount, with any tape and any events. *)
Definition charge_reachable (s : State) : Prop :=
  exists t s0 es, Charge.mount t = Some s0 /\ Charge.run s0 es = Some s.

Definition click_reachable (s : State) : Prop :=
  exists t s0 es, Click.mount t = Some s0 /\ Click.run s0 es = Some s.

Definition reachable (s : State) : Prop :=
  charge_reachable s \/ click_reachable s.

(** The charge version right after mount, and at the end of the execution in
    which callbacks leak ([overrun_trace]). *)
Definition mounted_state : State :=
  match Charge.mount (tape_for 14) with
  | Some s => s
  | None => initialState Charge.startPos []
  end.

Definition overrun_state : State :=
  match session overrun_trace with
  | Some s => s
  | None => start_state
  end.

(** The same execution stopped while kick 12 is still in the air. *)
Definition midflight_state : State :=
  match session (firstn 59 overrun_trace) with
  | Some s => s
  | None => start_state
  end.

(** *** Accounting of a round *)

(** The variables a round is accounted in. *)
Definition ledger (s : State) : GameState * Z * Z * Z :=
  (gameState s, score s, questionIndex s, elapsedSeconds s).

(** The kinds of events, common to the two versions. *)
Inductive Kind : Type :=
| Input | Clock | Pause | Help | Close | Reset | Fired.

Definition charge_kind (e : Charge.Event) : Kind :=
  match e with
  | Charge.KeyDown _ _ | Charge.KeyUp _ | Charge.ChargeTick => Input
  | Charge.Second => Clock
  | Charge.TogglePause => Pause
  | Charge.OpenHelp => Help
  | Charge.CloseHelp => Close
  | Charge.ResetRound => Reset
  | Charge.Fire _ _ => Fired
  end.

Definition click_kind (e : Click.Event) : Kind :=
  match e with
  | Click.ClickOption _ => Input
  | Click.Second => Clock
  | Click.TogglePause => Pause
  | Click.OpenHelp => Help
  | Click.CloseHelp => Close
  | Click.ResetRound => Reset
  | Click.Fire _ => Fired
  end.

(** One event of kind [k] takes [s] to [s'], in either version. *)
Definition stepped (k : Kind) (s s' : State) : Prop :=
  (exists e, charge_kind e = k /\ Charge.step s e = Some s') \/
  (exists e, click_kind e = k /\ Click.step s e = Some s').

(** The moves of the ledger. *)
Inductive Move : Type :=
| Same | Tick | Start | Restart | Goal | Advance | Finish.

Definition moved (m : Move) (k : Kind) (s s' : State) : Prop :=
  match m with
  | Same => ledger s' = ledger s
  | Tick =>
      k = Clock /\ gameState s = playing /\ isPaused s = false /\
      ledger s' = (playing, score s, questionIndex s, elapsedSeconds s + 1)
  | Start =>
      k = Close /\ gameState s = menu /\ ledger s' = (playing, 0, 0, 0)
  | Restart =>
      k = Reset /\ ledger s' = (playing, 0, 0, 0)
  | Goal =>
      k = Fired /\
      ledger s' = (gameState s, score s + 1, questionIndex s, elapsedSeconds s)
  | Advance =>
      k = Fired /\
      ledger s' = (gameState s, score s, questionIndex s + 1, elapsedSeconds s)
  | Finish =>
      k = Fired /\
      ledger s' = (finished, score s, questionIndex s, elapsedSeconds s)
  end.

(** The state the charge session is in after the events [es]. *)
Definition state_after (es : list Charge.Event) : State :=
  match session es with
  | Some s => s
  | None => start_state
  end.

(** *** The clock face *)

(** The character of a decimal digit. *)
Definition digit (d : Z) : ascii := ascii_of_nat (48 + Z.to_nat d).

(** "MM:SS" *)
Definition clock_face (m sec : Z) : string :=
  String (digit (m / 10)) (String (digit (m mod 10))
    (String ":" (String (digit (sec / 10)) (String (digit (sec mod 10))
       EmptyString)))).






(** *** Sequences of audio calls *)




(** The mute button is part of the sidebar, which is rendered only while the
    round is paused: the round is paused, the mute button is clicked twice,
    and the music effect runs after each of the three renders.  Each click
    runs the [toggleMute] of the render it was made in, so [m] is that
    render's [isMuted]. *)
Definition mute_then_unmute (config : Sound.Config) (allowed : bool)
           (refs : Sound.Refs) : bool * Sound.Refs :=
  let r0 := Sound.musicEffect config allowed true false refs in
  let (m1, r1) := Sound.toggleMute config allowed false true false r0 in
  let r2 := Sound.musicEffect config allowed true m1 r1 in
  let (m2, r3) := Sound.toggleMute config allowed m1 true m1 r2 in
  (m2, Sound.musicEffect config allowed true m2 r3).

(** The round is paused and resumed; the music effect runs after each. *)
Definition pause_then_resume (config : Sound.Config) (allowed : bool)
           (refs : Sound.Refs) : Sound.Refs :=
  Sound.musicEffect config allowed false false
    (Sound.musicEffect config allowed true false refs).

(** A configuration with the two cues of the worked examples. *)
Definition sample_config : Sound.Config :=
  fun name =>
    if String.eqb name "background" then Some "/audio/background.mp3"%string
    else if String.eqb name "success" then Some "/audio/success.mp3"%string
    else None.

(** *** Aiming *)

(** The target a hold of [n] charge ticks aims at. *)
Definition aimed_target (n : nat) : nat :=
  if (n <=? 8)%nat then 0%nat else if (n <=? 16)%nat then 1%nat else 2%nat.

(** The state variables a hold of the spacebar leaves alone. *)
Definition bystanders (s : State)
  : bool * bool * GameState * option Question * list Pending * Z * bool :=
  (isKicking s, isPaused s, gameState s, currentQuestion s, pending s,
   questionIndex s, isCharging s).

(** *** Audio elements *)



(** The music element of the worked examples, playing at second 5. *)
Definition music_playing : Sound.Refs :=
  Sound.assign "background"
    (Sound.mkAudio "/audio/background.mp3" true false (inject_Z 5))
    Sound.no_refs.

(** The click version when the first question is up. *)
Definition click_start_state : State :=
  match click_session [] with
  | Some s => s
  | None => initialState Click.restPos []
  end.

(** *** The flight of a selection *)

(** The events of a flight, seen from the state in which the spacebar is
    released: the spacebar goes up, the 100 ms wind-up ends at clock reading
    [now], and the animation frames stamped [frames] run.  [k] is the place
    of the kick's callback among the scheduled ones. *)
Definition flight_events (k : nat) (now : Q) (frames : list Q)
  : list Charge.Event :=
  [Charge.KeyUp true; Charge.Fire k now] ++ map (Charge.Fire k) frames.

(** What a flight leaves alone until the ball lands. *)
Definition scoreboard (s : State)
  : option Question * Z * option Feedback * Z :=
  (currentQuestion s, score s, feedback s, questionIndex s).

(** * Properties *)

(** ** The random source and the question generator *)

Lemma draw_range (d : draw) : (0 <= dval d)%Q /\ (dval d < 1)%Q.
Proof.
  destruct d as [r H]; simpl.
  unfold in_unit in H. apply andb_true_iff in H as [H0 H1].
  split.
  - now apply Qle_bool_iff.
  - apply negb_true_iff in H1.
    destruct (Qlt_le_dec r 1) as [Hlt | Hle]; [exact Hlt |].
    apply Qle_bool_iff in Hle. congruence.
Qed.

Lemma random_upto_range (n : Z) (d : draw) :
  0 < n -> 1 <= random_upto n d <= n.
Proof.
  intros Hn. unfold random_upto.
  destruct (draw_range d) as [H0 H1].
  assert (Hn' : (inject_Z 0 < inject_Z n)%Q) by (rewrite <- Zlt_Qlt; exact Hn).
  assert (Hlo : 0 <= Qfloor (dval d * inject_Z n)).
  { change 0 with (Qfloor (inject_Z 0)) at 1. apply Qfloor_resp_le.
    apply Qmult_le_0_compat; [exact H0 | now apply Qlt_le_weak]. }
  assert (Hhi : Qfloor (dval d * inject_Z n) < n).
  { rewrite Zlt_Qlt.
    apply Qle_lt_trans with (dval d * inject_Z n)%Q; [apply Qfloor_le |].
    setoid_replace (inject_Z n) with (1 * inject_Z n)%Q at 2 by ring.
    apply Qmult_lt_compat_r; assumption. }
  lia.
Qed.

Lemma Set_has_In (x : Z) (s : list Z) : Set_has x s = true <-> In x s.
Proof.
  unfold Set_has. rewrite existsb_exists. split.
  - intros [y [Hy He]]. apply Z.eqb_eq in He. now subst.
  - intros H. exists x. split; [exact H | apply Z.eqb_refl].
Qed.

Lemma options_inv_init (ans : Z) : options_inv ans (Set_add ans []).
Proof.
  exists []. cbn. repeat split; try constructor; auto; try lia.
  constructor.
Qed.

Lemma options_inv_add (ans wrong : Z) (opts : list Z) :
  options_inv ans opts -> (length opts < 3)%nat ->
  1 <= wrong <= 20 -> wrong <> ans ->
  options_inv ans (Set_add wrong opts).
Proof.
  intros (wrongs & -> & Hnd & Hr & Hlen) Hlt Hw Hne.
  unfold Set_add. destruct (Set_has wrong (ans :: wrongs)) eqn:Hhas.
  - exists wrongs. repeat split; auto.
  - exists (wrongs ++ [wrong]). repeat split.
    + change ((ans :: wrongs) ++ [wrong]) with (ans :: (wrongs ++ [wrong])).
      apply NoDup_cons.
      * inversion Hnd; subst. rewrite in_app_iff. intros [H | [H | []]]; auto.
      * apply NoDup_app; [now inversion Hnd | repeat constructor; auto | ].
        intros a Ha [Heq | []]. subst a.
        assert (Set_has wrong (ans :: wrongs) = true)
          by (apply Set_has_In; now right).
        congruence.
    + apply Forall_app. split; [exact Hr | repeat constructor; lia].
    + rewrite length_app. cbn in *. lia.
Qed.

Lemma fill_options_eq (ans : Z) (opts : list Z) (t : list draw) :
  fill_options ans opts t =
  if (length opts <? 3)%nat then
    match t with
    | [] => None
    | d :: t' =>
        fill_options ans
          (if random_upto 20 d =? ans then opts
           else Set_add (random_upto 20 d) opts) t'
    end
  else Some (opts, t).
Proof. destruct t; reflexivity. Qed.

Lemma fill_options_spec (ans : Z) (t : list draw) :
  forall opts opts' t',
    options_inv ans opts ->
    fill_options ans opts t = Some (opts', t') ->
    options_inv ans opts' /\ length opts' = 3%nat.
Proof.
  induction t as [| d t IH]; intros opts opts' t' Hinv Hrun;
    rewrite fill_options_eq in Hrun;
    destruct (length opts <? 3)%nat eqn:Hlen.
  - discriminate.
  - inversion Hrun; subst. split; [exact Hinv |].
    apply Nat.ltb_ge in Hlen. destruct Hinv as (? & ? & ? & ? & ?). lia.
  - apply Nat.ltb_lt in Hlen.
    eapply IH; [| exact Hrun].
    destruct (random_upto 20 d =? ans) eqn:He; [exact Hinv |].
    apply Z.eqb_neq in He.
    apply options_inv_add; auto.
    apply random_upto_range; lia.
  - inversion Hrun; subst. split; [exact Hinv |].
    apply Nat.ltb_ge in Hlen. destruct Hinv as (? & ? & ? & ? & ?). lia.
Qed.

(** The comparator-driven sort only reorders. *)
Lemma sort_insert_perm (x : Z) (sorted : list Z) :
  forall t r t', sort_insert x sorted t = Some (r, t') ->
                 Permutation (x :: sorted) r.
Proof.
  induction sorted as [| y rest IH]; intros t r t' H; cbn in H.
  - inversion H; subst. apply Permutation_refl.
  - unfold bind, Math_random in H.
    destruct t as [| d t]; [discriminate |].
    destruct (Qltb (random_compare d) 0).
    + inversion H; subst. apply Permutation_refl.
    + fold (sort_insert x rest) in H.
      destruct (sort_insert x rest t) as [[r0 t0] |] eqn:Hr; [| discriminate].
      inversion H; subst.
      apply Permutation_trans with (y :: x :: rest); [apply perm_swap |].
      apply perm_skip. eapply IH; eauto.
Qed.

Lemma sort_random_from_perm (todo : list Z) :
  forall sorted t r t',
    sort_random_from sorted todo t = Some (r, t') ->
    Permutation (sorted ++ todo) r.
Proof.
  induction todo as [| x todo IH]; intros sorted t r t' H; cbn in H.
  - inversion H; subst. rewrite app_nil_r. apply Permutation_refl.
  - unfold bind in H.
    destruct (sort_insert x sorted t) as [[s0 t0] |] eqn:Hs; [| discriminate].
    apply sort_insert_perm in Hs. apply IH in H.
    eapply Permutation_trans; [| exact H].
    apply Permutation_trans with ((x :: sorted) ++ todo).
    + apply Permutation_sym. apply Permutation_middle.
    + apply Permutation_app_tail. exact Hs.
Qed.

Lemma sort_random_perm (l : list Z) (t : list draw) (r : list Z) (t' : list draw) :
  sort_random l t = Some (r, t') -> Permutation l r.
Proof. intros H. now apply sort_random_from_perm in H. Qed.

(** The shape of every generated question. *)
Lemma newQuestion_shape (t : list draw) (q : Question) (t' : list draw) :
  newQuestion t = Some (q, t') ->
  exists d1 d2 w1 w2,
    num1 q = random_upto 10 d1 /\ num2 q = random_upto 10 d2 /\
    answer q = num1 q + num2 q /\
    Permutation [answer q; w1; w2] (options q) /\
    NoDup [answer q; w1; w2] /\
    1 <= w1 <= 20 /\ 1 <= w2 <= 20.
Proof.
  unfold newQuestion, bind, Math_random. intros H.
  destruct t as [| d1 t]; [discriminate |].
  destruct t as [| d2 t]; [discriminate |].
  set (ans := random_upto 10 d1 + random_upto 10 d2) in *.
  destruct (fill_options ans (Set_add ans []) t) as [[opts t1] |] eqn:Hf;
    [| discriminate].
  destruct (sort_random opts t1) as [[sh t2] |] eqn:Hs; [| discriminate].
  inversion H; subst q t'; clear H. cbn.
  apply fill_options_spec in Hf; [| apply options_inv_init].
  destruct Hf as [(wrongs & -> & Hnd & Hr & _) Hlen].
  destruct wrongs as [| w1 [| w2 [| w3 ws]]]; cbn in Hlen; try discriminate.
  apply sort_random_perm in Hs.
  exists d1, d2, w1, w2. repeat split; auto.
  - now inversion Hr.
  - now inversion Hr.
  - inversion Hr as [| ? ? ? Hr']; inversion Hr'; subst; lia.
  - inversion Hr as [| ? ? ? Hr']; inversion Hr'; subst; lia.
Qed.

(** *** The generator returns on every tape that holds enough draws *)

Lemma fill_options_returns (ans : Z) (t u : list draw) :
  forall opts,
    (3 <= length opts + fresh_values ans opts t)%nat ->
    exists opts' t', fill_options ans opts (t ++ u) = Some (opts', t' ++ u).
Proof.
  induction t as [| d t IH]; intros opts Hn; rewrite fill_options_eq.
  - cbn in Hn. replace (length opts <? 3)%nat with false
      by (symmetry; apply Nat.ltb_ge; lia).
    exists opts, []. reflexivity.
  - destruct (length opts <? 3)%nat eqn:Hlen.
    + cbn [app]. cbn [fresh_values] in Hn.
      destruct (random_upto 20 d =? ans); cbn [orb] in Hn.
      * apply IH. exact Hn.
      * unfold Set_add.
        destruct (Set_has (random_upto 20 d) opts).
        -- apply IH. exact Hn.
        -- apply IH. rewrite length_app. cbn. lia.
    + exists opts, (d :: t). reflexivity.
Qed.

Lemma sort_random_returns (a b c : Z) (t : list draw) :
  (3 <= length t)%nat -> exists r t', sort_random [a; b; c] t = Some (r, t').
Proof.
  intros Hlen.
  destruct t as [| x [| y [| z t]]]; cbn in Hlen; try lia.
  unfold sort_random.
  repeat (cbn; unfold bind, Math_random, ret;
          match goal with
          | |- context [if ?b then _ else _] => destruct b
          end);
    cbn; eauto.
Qed.

(** The premise of the generator's theorems can be met: on the tape model,
    after the two operand draws, as soon as the draws that follow offer two
    distinct wrong values other than the answer the retry loop stops, and the
    model's shuffle needs at most three more draws. *)
Lemma newQuestion_returns (d1 d2 : draw) (t u : list draw) :
  let ans := random_upto 10 d1 + random_upto 10 d2 in
  (2 <= fresh_values ans [ans] t)%nat ->
  (3 <= length u)%nat ->
  exists q t', newQuestion (d1 :: d2 :: t ++ u) = Some (q, t').
Proof.
  intros ans Hfresh Hlen.
  destruct (fill_options_returns ans t u [ans]) as (opts & t1 & Hfill);
    [cbn; lia |].
  assert (Hshape : options_inv ans opts /\ length opts = 3%nat).
  { eapply fill_options_spec; [| exact Hfill].
    apply (options_inv_init ans). }
  destruct Hshape as [(wrongs & -> & _) Hl].
  destruct wrongs as [| w1 [| w2 [| w3 ws]]]; cbn in Hl; try discriminate.
  destruct (sort_random_returns ans w1 w2 (t1 ++ u)) as (r & t2 & Hs).
  { rewrite length_app. lia. }
  exists (mkQuestion (random_upto 10 d1) (random_upto 10 d2) ans r), t2.
  unfold newQuestion, bind, Math_random.
  fold ans. change (Set_add ans []) with [ans].
  rewrite Hfill, Hs. reflexivity.
Qed.

(** *** C1 and C10 *)

Lemma newQuestion_invariant (t : list draw) (q : Question) (t' : list draw) :
  newQuestion t = Some (q, t') -> question_invariant q.
Proof.
  intros H. apply newQuestion_shape in H.
  destruct H as (d1 & d2 & w1 & w2 & H1 & H2 & Hsum & Hperm & Hnd & Hw1 & Hw2).
  unfold question_invariant. repeat split; auto.
  - rewrite H1. apply random_upto_range; lia.
  - rewrite H1. apply random_upto_range; lia.
  - rewrite H2. apply random_upto_range; lia.
  - rewrite H2. apply random_upto_range; lia.
  - apply Permutation_length in Hperm. cbn in Hperm. lia.
  - eapply Permutation_NoDup; eauto.
  - rewrite <- (proj1 (Permutation_count_occ Z.eq_dec _ _) Hperm).
    inversion Hnd as [| ? ? Hnin Hnd']; subst.
    cbn. destruct (Z.eq_dec (answer q) (answer q)); [| congruence].
    destruct (Z.eq_dec w1 (answer q)); [subst; exfalso; apply Hnin; now left |].
    destruct (Z.eq_dec w2 (answer q));
      [subst; exfalso; apply Hnin; right; now left |].
    reflexivity.
  - exists w1, w2.
    inversion Hnd as [| ? ? Hnin Hnd']; subst.
    inversion Hnd' as [| ? ? Hnin' _]; subst.
    repeat split; auto.
    + intros ->. apply Hnin. now left.
    + intros ->. apply Hnin. right. now left.
    + intros ->. apply Hnin'. now left.
Qed.

Lemma generateQuestion_question (s s' : State) :
  Charge.generateQuestion s = Some s' \/ Click.generateQuestion s = Some s' ->
  exists q t', newQuestion (tape s) = Some (q, t') /\
               currentQuestion s' = Some q /\ tape s' = t'.
Proof.
  unfold Charge.generateQuestion, Click.generateQuestion.
  destruct (newQuestion (tape s)) as [[q t'] |];
    intros [H | H]; try discriminate;
    inversion H; subst; exists q, t'; auto.
Qed.

(** C1. Every question that [generateQuestion] stores (either version of the
    component) has [answer = num1 + num2], operands between 1 and 10, exactly
    three distinct options, the answer among them exactly once, and two
    distractors that differ from the answer and from each other. *)
Theorem generateQuestion_invariants (s s' : State) :
  Charge.generateQuestion s = Some s' \/ Click.generateQuestion s = Some s' ->
  exists q, currentQuestion s' = Some q /\ question_invariant q.
Proof.
  intros H. apply generateQuestion_question in H.
  destruct H as (q & t' & Hq & Hc & _).
  exists q. split; [exact Hc |]. eapply newQuestion_invariant; eauto.
Qed.

Lemma generateQuestion_invariants_witness :
  exists s',
    Charge.generateQuestion (initialState Charge.startPos sample_tape) = Some s' /\
    exists q, currentQuestion s' = Some q /\ question_invariant q.
Proof.
  eexists. split.
  - vm_compute. reflexivity.
  - apply (generateQuestion_invariants
             (initialState Charge.startPos sample_tape)).
    left. vm_compute. reflexivity.
Defined.

(** C10. Every option of a generated question lies between 1 and 20: the
    answer between 2 and 20, each distractor between 1 and 20. *)
Theorem generateQuestion_options_bounded (s s' : State) :
  Charge.generateQuestion s = Some s' \/ Click.generateQuestion s = Some s' ->
  exists q,
    currentQuestion s' = Some q /\
    2 <= answer q <= 20 /\
    Forall (fun v => 1 <= v <= 20) (options q).
Proof.
  intros H. apply generateQuestion_question in H.
  destruct H as (q & t' & Hq & Hc & _).
  exists q. split; [exact Hc |].
  apply newQuestion_shape in Hq.
  destruct Hq as (d1 & d2 & w1 & w2 & H1 & H2 & Hsum & Hperm & _ & Hw1 & Hw2).
  pose proof (random_upto_range 10 d1 ltac:(lia)) as R1.
  pose proof (random_upto_range 10 d2 ltac:(lia)) as R2.
  assert (Hans : 2 <= answer q <= 20) by lia.
  split; [exact Hans |].
  eapply Permutation_Forall; [exact Hperm |].
  repeat constructor; lia.
Qed.

Lemma generateQuestion_options_bounded_witness :
  exists s',
    Click.generateQuestion (initialState Click.restPos sample_tape) = Some s' /\
    exists q,
      currentQuestion s' = Some q /\
      2 <= answer q <= 20 /\
      Forall (fun v => 1 <= v <= 20) (options q).
Proof.
  eexists. split.
  - vm_compute. reflexivity.
  - apply (generateQuestion_options_bounded
             (initialState Click.restPos sample_tape)).
    right. vm_compute. reflexivity.
Defined.

(** ** The charge gesture *)

Lemma accepting_guard (s : State) :
  accepting s ->
  isKicking s || isPaused s || negb (is_playing (gameState s)) = false.
Proof. intros (-> & -> & ->). reflexivity. Qed.

Lemma layoutEffect_style (s : State) :
  exists b, Charge.layoutEffect s = setBallStyle b s.
Proof.
  unfold Charge.layoutEffect.
  destruct (currentQuestion s); [destruct (isKicking s) |];
    try (eexists; reflexivity);
    exists (ballStyle s); destruct s; reflexivity.
Qed.

Lemma targetIndexOf_cases (power : Z) :
  (power <= 33 -> Charge.targetIndexOf power = 0%nat) /\
  (34 <= power <= 66 -> Charge.targetIndexOf power = 1%nat) /\
  (66 < power -> Charge.targetIndexOf power = 2%nat).
Proof.
  unfold Charge.targetIndexOf.
  destruct (66 <? power) eqn:H66; destruct (33 <? power) eqn:H33;
    try apply Z.ltb_lt in H66; try apply Z.ltb_ge in H66;
    try apply Z.ltb_lt in H33; try apply Z.ltb_ge in H33;
    repeat split; intros; auto; lia.
Qed.

(** What a release does in a state that takes input and shows question [q]
    with an option at the tier of the held power. *)
Lemma handleKeyUp_kicks (s : State) (q : Question) (opt : Z) :
  accepting s ->
  currentQuestion s = Some q ->
  nth_error (options q) (Charge.targetIndexOf (kickPower s)) = Some opt ->
  pending (Charge.handleKeyUp true s) =
    pending s ++
    [Timeout 100 (KickStart opt (Charge.targetIndexOf (kickPower s))
                            (Some q) (questionIndex s))] /\
  isKicking (Charge.handleKeyUp true s) = true /\
  kickPower (Charge.handleKeyUp true s) = 0.
Proof.
  intros (Hk & Hp & Hg) Hq Hopt.
  unfold Charge.handleKeyUp. rewrite Hk, Hp, Hg. cbn.
  rewrite Hq, Hopt.
  unfold Charge.handleAnswer. cbn. rewrite Hk, Hp, Hg. cbn.
  destruct (layoutEffect_style
              (setIsKicking true
                 (setChargeInterval false (setIsCharging false s))))
    as (b & ->).
  cbn. rewrite Hq. auto.
Qed.

(** C2. The tier of a released power value is a function of the value alone:
    at most 33 gives index 0 (near), 34 to 66 gives index 1 (mid), above 66
    gives index 2 (far); the value kicked is the displayed option at that
    index. *)
Theorem release_maps_power_to_tier (s : State) (q : Question) (opt : Z) :
  accepting s ->
  currentQuestion s = Some q ->
  nth_error (options q) (Charge.targetIndexOf (kickPower s)) = Some opt ->
  let power := kickPower s in
  let tier := Charge.targetIndexOf power in
  (power <= 33 -> tier = 0%nat) /\
  (34 <= power <= 66 -> tier = 1%nat) /\
  (66 < power -> tier = 2%nat) /\
  pending (Charge.handleKeyUp true s) =
    pending s ++ [Timeout 100 (KickStart opt tier (Some q) (questionIndex s))].
Proof.
  intros Ha Hq Hopt power tier.
  destruct (targetIndexOf_cases power) as (H0 & H1 & H2).
  repeat split; auto.
  apply (handleKeyUp_kicks s q opt Ha Hq Hopt).
Qed.

Lemma release_maps_power_to_tier_witness :
  accepting charged_state /\
  kickPower charged_state = 40 /\
  pending (Charge.handleKeyUp true charged_state) =
    [Timeout 100 (KickStart 12 1 (Some sample_question) 0)].
Proof.
  split; [| split]; [vm_compute; auto | reflexivity |].
  apply (release_maps_power_to_tier charged_state sample_question 12);
    vm_compute; auto.
Defined.

Lemma hold_ticks_interval (n : nat) (s : State) :
  chargeInterval s = true -> chargeInterval (hold_ticks n s) = true.
Proof.
  intros H. induction n as [| n IH]; [exact H |].
  change (hold_ticks (S n) s) with (Charge.chargeTick (hold_ticks n s)).
  unfold Charge.chargeTick. rewrite IH. exact IH.
Qed.

Lemma hold_ticks_power (n : nat) (s : State) :
  chargeInterval s = true -> kickPower s = 0 ->
  kickPower (hold_ticks n s) = Z.min (4 * Z.of_nat n) 100.
Proof.
  intros Hi Hp. induction n as [| n IH].
  - cbn. rewrite Hp. reflexivity.
  - change (hold_ticks (S n) s) with (Charge.chargeTick (hold_ticks n s)).
    unfold Charge.chargeTick. rewrite (hold_ticks_interval n s Hi). cbn.
    rewrite IH. unfold Charge.chargeStep.
    destruct (Z.min (4 * Z.of_nat n) 100 <? 100) eqn:Hlt.
    + apply Z.ltb_lt in Hlt. lia.
    + apply Z.ltb_ge in Hlt. lia.
Qed.

(** C6. From the start of a hold, the power after any number of charge ticks
    lies in [0, 100], never decreases from one tick to the next, and stops at
    100; a release before the first tick carries power 0 and kicks the option
    at index 0 (the near tier). *)
Theorem charge_power_monotone_clamped (s : State) (n : nat) :
  accepting s ->
  let held := Charge.handleKeyDown true false s in
  let power k := kickPower (hold_ticks k held) in
  power 0%nat = 0 /\
  0 <= power n <= 100 /\
  power n <= power (S n) /\
  power n = Z.min (4 * Z.of_nat n) 100 /\
  Charge.targetIndexOf (power 0%nat) = 0%nat /\
  forall q opt,
    currentQuestion s = Some q -> nth_error (options q) 0 = Some opt ->
    pending (Charge.handleKeyUp true held) =
      pending s ++ [Timeout 100 (KickStart opt 0 (Some q) (questionIndex s))].
Proof.
  intros Ha held power.
  assert (Hheld : held = s |> setIsCharging true |> setKickPower 0
                           |> setActiveTargetIndex 0%nat
                           |> setChargeInterval true).
  { unfold held, Charge.handleKeyDown.
    destruct Ha as (-> & -> & ->). reflexivity. }
  assert (Hi : chargeInterval held = true) by (rewrite Hheld; reflexivity).
  assert (Hp : kickPower held = 0) by (rewrite Hheld; reflexivity).
  assert (Hpow : forall k, power k = Z.min (4 * Z.of_nat k) 100)
    by (intros k; apply hold_ticks_power; assumption).
  repeat split.
  - exact Hp.
  - rewrite Hpow. lia.
  - rewrite Hpow. lia.
  - rewrite !Hpow. lia.
  - apply Hpow.
  - unfold power. cbn. rewrite Hp. reflexivity.
  - intros q opt Hq Hopt.
    assert (Ha' : accepting held)
      by (rewrite Hheld; destruct Ha as (? & ? & ?); repeat split; assumption).
    destruct (handleKeyUp_kicks held q opt Ha') as (Hpend & _).
    + rewrite Hheld. exact Hq.
    + rewrite Hp. exact Hopt.
    + rewrite Hpend, Hp. rewrite Hheld. reflexivity.
Qed.

Lemma charge_power_monotone_clamped_witness :
  accepting start_state /\
  kickPower (hold_ticks 30 (Charge.handleKeyDown true false start_state)) = 100 /\
  pending (Charge.handleKeyUp true (Charge.handleKeyDown true false start_state)) =
    [Timeout 100 (KickStart 7 0 (Some sample_question) 0)].
Proof.
  assert (Ha : accepting start_state) by (vm_compute; auto).
  destruct (charge_power_monotone_clamped start_state 30 Ha)
    as (_ & _ & _ & Hmin & _ & Hrel).
  split; [exact Ha |]. split.
  - rewrite Hmin. reflexivity.
  - apply (Hrel sample_question 7); reflexivity.
Defined.

(** ** The ball flight *)

Lemma Math_pow2_square (a : Q) : (Charge.Math_pow2 a == a * a)%Q.
Proof. unfold Charge.Math_pow2. simpl. ring. Qed.

Lemma ballCoord_bezier (t p0 c p1 : Q) :
  (Charge.ballCoord t p0 c p1 == quadratic_bezier t p0 c p1)%Q.
Proof.
  unfold Charge.ballCoord, quadratic_bezier.
  rewrite !Math_pow2_square. reflexivity.
Qed.

(** The same point by de Casteljau's construction: interpolate start to
    control and control to target, then interpolate between the two. *)
Lemma ballCoord_de_casteljau (t p0 c p1 : Q) :
  (Charge.ballCoord t p0 c p1 ==
   (1 - t) * ((1 - t) * p0 + t * c) + t * ((1 - t) * c + t * p1))%Q.
Proof. rewrite ballCoord_bezier. unfold quadratic_bezier. ring. Qed.

Lemma bezier_at_0 (p0 c p1 : Q) : (quadratic_bezier 0 p0 c p1 == p0)%Q.
Proof. unfold quadratic_bezier. ring. Qed.

Lemma bezier_at_1 (t p0 c p1 : Q) :
  (t == 1)%Q -> (quadratic_bezier t p0 c p1 == p1)%Q.
Proof. intros Ht. unfold quadratic_bezier. rewrite Ht. ring. Qed.

Lemma duration_pos : (0 < inject_Z ANIMATION_DURATION)%Q.
Proof. reflexivity. Qed.

Lemma progress_running (startTime currentTime : Q) :
  (currentTime - startTime < inject_Z 800)%Q ->
  Qltb (Charge.progressAt startTime currentTime) 1 = true.
Proof.
  intros H. unfold Qltb, Charge.progressAt.
  apply negb_true_iff.
  destruct (Qle_bool 1 _) eqn:Hle; [| reflexivity].
  apply Qle_bool_iff in Hle. apply Q.min_glb_l in Hle.
  exfalso. apply (Qle_not_lt _ _ Hle).
  apply Qlt_shift_div_r; [exact duration_pos |].
  rewrite Qmult_1_l. exact H.
Qed.

Lemma progress_complete (startTime currentTime : Q) :
  (inject_Z 800 <= currentTime - startTime)%Q ->
  Qltb (Charge.progressAt startTime currentTime) 1 = false /\
  (Charge.progressAt startTime currentTime == 1)%Q.
Proof.
  intros H. unfold Qltb, Charge.progressAt.
  assert (H1 : (1 <= (currentTime - startTime) / inject_Z ANIMATION_DURATION)%Q).
  { apply Qle_shift_div_l; [exact duration_pos |].
    rewrite Qmult_1_l. exact H. }
  split.
  - apply negb_false_iff. apply Qle_bool_iff.
    apply Q.min_glb; [exact H1 | apply Qle_refl].
  - apply Q.min_r. exact H1.
Qed.

Lemma progress_clamped (startTime currentTime : Q) :
  (startTime <= currentTime)%Q ->
  (Charge.progressAt startTime currentTime ==
   clamp01 ((currentTime - startTime) / inject_Z 800))%Q /\
  (0 <= Charge.progressAt startTime currentTime)%Q /\
  (Charge.progressAt startTime currentTime <= 1)%Q.
Proof.
  intros H. unfold Charge.progressAt, clamp01.
  change (inject_Z ANIMATION_DURATION) with (inject_Z 800).
  assert (H0 : (0 <= (currentTime - startTime) / inject_Z 800)%Q).
  { apply Qle_shift_div_l; [reflexivity |].
    rewrite Qmult_0_l. unfold Qminus. rewrite <- Qle_minus_iff. exact H. }
  assert (Hm : (0 <= Qmin ((currentTime - startTime) / inject_Z 800) 1)%Q).
  { apply Q.min_glb; [exact H0 | discriminate]. }
  repeat split.
  - symmetry. apply Q.max_r. exact Hm.
  - exact Hm.
  - apply Q.le_min_r.
Qed.

(** The lower bound comes from the clock, not from the code: [Math.min]
    bounds the progress from above only. *)
Remark progress_before_start :
  (Charge.progressAt (ms 100) (ms 92) == - (1 # 100))%Q.
Proof. reflexivity. Qed.

Lemma goalTarget_tier (index : nat) :
  nth_error Charge.GOAL_POSITIONS (index mod 3) = Some (Charge.goalTarget index).
Proof.
  unfold Charge.goalTarget. change (length Charge.GOAL_POSITIONS) with 3%nat.
  pose proof (Nat.mod_upper_bound index 3 ltac:(lia)) as Hlt.
  destruct (index mod 3)%nat as [| [| [| k]]]; try reflexivity; lia.
Qed.

Lemma controlPos_elevated (index : nat) :
  let P1 := Charge.goalTarget index in
  (pos_y (Charge.controlPos P1) < pos_y Charge.startPos)%Q /\
  (pos_y (Charge.controlPos P1) < pos_y P1)%Q.
Proof.
  cbn zeta. unfold Charge.goalTarget.
  change (length Charge.GOAL_POSITIONS) with 3%nat.
  pose proof (Nat.mod_upper_bound index 3 ltac:(lia)) as Hlt.
  destruct (index mod 3)%nat as [| [| [| k]]]; try lia; split; reflexivity.
Qed.

(** One frame of the flight, as [animateBall] computes it.  [Math.min] bounds
    the progress from above only: it is the clamped value at a frame stamped
    at or after the start. *)
Lemma animateBall_frame
      (s : State) (shown : Question) (startTime currentTime : Q)
      (sel : Z) (index : nat) (q : option Question) (qi : Z) :
  currentQuestion s = Some shown ->
  let elapsed := (currentTime - startTime)%Q in
  let t := Charge.progressAt startTime currentTime in
  let P1 := Charge.goalTarget index in
  let s' := Charge.animateBall startTime sel index q qi currentTime s in
  ballStyle s' = Some (Charge.ballAt P1 t) /\
  ((elapsed < inject_Z 800)%Q ->
     pending s' =
       pending s ++ [AnimationFrame (AnimateBall startTime sel index q qi)] /\
     score s' = score s /\ feedback s' = feedback s /\
     currentQuestion s' = currentQuestion s /\
     questionIndex s' = questionIndex s) /\
  ((inject_Z 800 <= elapsed)%Q ->
     (pos_x (Charge.ballAt P1 t) == pos_x P1)%Q /\
     (pos_y (Charge.ballAt P1 t) == pos_y P1)%Q /\
     pending s' = pending s ++ [Timeout 1500 (NextQuestion qi)]).
Proof.
  intros Hq elapsed t P1 s'.
  assert (Hstyle : ballStyle s' = Some (Charge.ballAt P1 t)).
  { unfold s', Charge.animateBall. rewrite Hq.
    destruct (Qltb (Charge.progressAt startTime currentTime) 1).
    - reflexivity.
    - unfold Charge.finishKick, resolveKick.
      destruct (isCorrect sel q); reflexivity. }
  split; [exact Hstyle |].
  split.
  - intros Hrun. unfold s', Charge.animateBall. rewrite Hq.
    rewrite (progress_running _ _ Hrun).
    repeat split; try reflexivity. exact Hq.
  - intros Hdone.
    destruct (progress_complete _ _ Hdone) as (Hb & Ht).
    split; [| split].
    + cbn [Charge.ballAt pos_x]. rewrite ballCoord_bezier.
      apply bezier_at_1. exact Ht.
    + cbn [Charge.ballAt pos_y]. rewrite ballCoord_bezier.
      apply bezier_at_1. exact Ht.
    + unfold s', Charge.animateBall. rewrite Hq, Hb.
      unfold Charge.finishKick, resolveKick.
      destruct (isCorrect sel q); reflexivity.
Qed.

Lemma progress_is_min (startTime currentTime : Q) :
  (Charge.progressAt startTime currentTime ==
   Qmin ((currentTime - startTime) / inject_Z 800) 1)%Q /\
  (Charge.progressAt startTime currentTime <= 1)%Q.
Proof.
  unfold Charge.progressAt.
  change (inject_Z ANIMATION_DURATION) with (inject_Z 800).
  split; [reflexivity | apply Q.le_min_r].
Qed.

(** ** Resolving a kick *)

Lemma remove_nth_last {A} (l : list A) (x : A) :
  remove_nth (length l) (l ++ [x]) = l.
Proof. induction l as [| a l IH]; cbn; [reflexivity | now rewrite IH]. Qed.

Lemma nth_error_last {A} (l : list A) (x : A) :
  nth_error (l ++ [x]) (length l) = Some x.
Proof. induction l as [| a l IH]; cbn; [reflexivity | exact IH]. Qed.

Lemma charge_fire_last (s : State) (l : list Pending) (p : Pending) (now : Q) :
  pending s = l ++ [p] ->
  Charge.fire (length l) now s =
  Charge.runCallback (callback_of p) now (setPending l s).
Proof.
  intros H. unfold Charge.fire.
  rewrite H, nth_error_last, remove_nth_last. reflexivity.
Qed.

Lemma click_fire_last (s : State) (l : list Pending) (p : Pending) :
  pending s = l ++ [p] ->
  Click.fire (length l) s = Click.runCallback (callback_of p) (setPending l s).
Proof.
  intros H. unfold Click.fire.
  rewrite H, nth_error_last, remove_nth_last. reflexivity.
Qed.

(** *** The flight of a selection *)

Lemma charge_run_app (es1 es2 : list Charge.Event) (s : State) :
  Charge.run s (es1 ++ es2) =
  match Charge.run s es1 with
  | Some s' => Charge.run s' es2
  | None => None
  end.
Proof.
  revert s. induction es1 as [| e es1 IH]; intros s; [reflexivity |].
  cbn [app Charge.run]. destruct (Charge.step s e); [apply IH | reflexivity].
Qed.

Lemma scoreboard_fields (a b : State) :
  scoreboard a = scoreboard b ->
  currentQuestion a = currentQuestion b /\ score a = score b /\
  feedback a = feedback b /\ questionIndex a = questionIndex b.
Proof.
  unfold scoreboard. intros H.
  repeat split; congruence.
Qed.

Lemma scoreboard_charge_handleAnswer (sel : Z) (index : nat) (s : State) :
  scoreboard (Charge.handleAnswer sel index s) = scoreboard s.
Proof.
  unfold Charge.handleAnswer.
  destruct (isKicking s || isPaused s || negb (is_playing (gameState s)));
    [reflexivity |].
  destruct (layoutEffect_style (setIsKicking true s)) as (style & ->).
  reflexivity.
Qed.

Lemma scoreboard_charge_handleKeyUp (space : bool) (s : State) :
  scoreboard (Charge.handleKeyUp space s) = scoreboard s.
Proof.
  unfold Charge.handleKeyUp.
  destruct (space && negb (isKicking s) && negb (isPaused s)
            && is_playing (gameState s)); [| reflexivity].
  cbv zeta.
  destruct (currentQuestion _) as [q |]; [| reflexivity].
  destruct (nth_error _ _) as [opt |]; [| reflexivity].
  match goal with
  | |- scoreboard (setKickPower 0 (Charge.handleAnswer ?a ?i ?x)) = _ =>
      change (scoreboard (Charge.handleAnswer a i x) = scoreboard s);
      rewrite (scoreboard_charge_handleAnswer a i x)
  end.
  reflexivity.
Qed.

(** The frames before the landing: each one draws the ball and asks for the
    next frame of the same flight. *)
Lemma frames_running (l : list Pending) (shown : Question) (now : Q)
      (sel : Z) (index : nat) (q : option Question) (qi : Z)
      (frames : list Q) :
  Forall (fun u => (u - now < inject_Z 800)%Q) frames ->
  forall x,
    pending x = l ++ [AnimationFrame (AnimateBall now sel index q qi)] ->
    currentQuestion x = Some shown ->
    exists x',
      Charge.run x (map (Charge.Fire (length l)) frames) = Some x' /\
      pending x' = l ++ [AnimationFrame (AnimateBall now sel index q qi)] /\
      scoreboard x' = scoreboard x.
Proof.
  induction 1 as [| u frames Hu _ IH]; intros x Hp Hq.
  - exists x. repeat split; auto.
  - cbn [map Charge.run]. cbv beta iota delta [Charge.step].
    rewrite (charge_fire_last x l _ u Hp).
    cbn [callback_of Charge.runCallback].
    assert (Hq' : currentQuestion (setPending l x) = Some shown) by exact Hq.
    destruct (animateBall_frame (setPending l x) shown now u sel index q qi Hq')
      as (_ & Hrun & _).
    destruct (Hrun Hu) as (Hp1 & Hs1 & Hf1 & Hq1 & Hi1).
    set (x1 := Charge.animateBall now sel index q qi u (setPending l x)) in *.
    destruct (IH x1) as (x' & Hrun' & Hp' & Hsb').
    + exact Hp1.
    + rewrite Hq1. exact Hq'.
    + exists x'. split; [exact Hrun' |]. split; [exact Hp' |].
      rewrite Hsb'. unfold scoreboard. rewrite Hs1, Hf1, Hq1, Hi1.
      reflexivity.
Qed.

(** C8 (amended).  For every selection (an accepted release of the spacebar)
    the flight is the one of the chosen tier and lasts 800 ms.  After the
    wind-up has ended at clock reading [now] and any number of earlier frames
    have run, the frame stamped [currentTime] computes the progress
    t = min (elapsed / 800, 1) and writes the quadratic Bezier point
    (1-t)^2 P0 + 2(1-t)t C + t^2 P1 to the ball, where P0 is the start point,
    P1 the goal position of the tier, and C has the horizontal midpoint of P0
    and P1 as x and a y above both.  The progress is never above 1; it is
    elapsed / 800 clamped to [0, 1] when the frame is stamped at or after
    [now].  While elapsed < 800 the frame asks for the next frame of the same
    flight; at the first frame with elapsed >= 800 the ball is at P1 and
    [finishKick] runs. *)
Theorem ball_flight_is_quadratic_bezier
        (s : State) (shown : Question) (opt : Z)
        (now currentTime : Q) (earlier : list Q) :
  accepting s ->
  currentQuestion s = Some shown ->
  nth_error (options shown) (Charge.targetIndexOf (kickPower s)) = Some opt ->
  Forall (fun u => (u - now < inject_Z 800)%Q) earlier ->
  let tier := Charge.targetIndexOf (kickPower s) in
  let k := length (pending s) in
  let flight := AnimateBall now opt tier (Some shown) (questionIndex s) in
  let elapsed := (currentTime - now)%Q in
  let t := Charge.progressAt now currentTime in
  let P0 := Charge.startPos in
  let P1 := Charge.goalTarget tier in
  let C := Charge.controlPos P1 in
  exists s2 s3,
    Charge.run s (flight_events k now earlier) = Some s2 /\
    pending s2 = pending s ++ [AnimationFrame flight] /\
    Charge.step s2 (Charge.Fire k currentTime) = Some s3 /\
    ANIMATION_DURATION = 800 /\
    (t == Qmin (elapsed / inject_Z 800) 1)%Q /\ (t <= 1)%Q /\
    ((now <= currentTime)%Q ->
       (t == clamp01 (elapsed / inject_Z 800))%Q /\ (0 <= t)%Q) /\
    ballStyle s3 = Some (Charge.ballAt P1 t) /\
    (pos_x (Charge.ballAt P1 t) ==
       quadratic_bezier t (pos_x P0) (pos_x C) (pos_x P1))%Q /\
    (pos_y (Charge.ballAt P1 t) ==
       quadratic_bezier t (pos_y P0) (pos_y C) (pos_y P1))%Q /\
    (pos_x C == (pos_x P0 + pos_x P1) / inject_Z 2)%Q /\
    (pos_y C < pos_y P0)%Q /\ (pos_y C < pos_y P1)%Q /\
    nth_error Charge.GOAL_POSITIONS tier = Some P1 /\
    ((elapsed < inject_Z 800)%Q ->
       pending s3 = pending s ++ [AnimationFrame flight] /\
       score s3 = score s /\ feedback s3 = feedback s) /\
    ((inject_Z 800 <= elapsed)%Q ->
       (pos_x (Charge.ballAt P1 t) == pos_x P1)%Q /\
       (pos_y (Charge.ballAt P1 t) == pos_y P1)%Q /\
       pending s3 =
         pending s ++ [Timeout 1500 (NextQuestion (questionIndex s))]).
Proof.
  intros Ha Hq Hopt Hearlier tier k flight elapsed t P0 P1 C.
  destruct (handleKeyUp_kicks s shown opt Ha Hq Hopt) as (Hp1 & _ & _).
  pose proof (scoreboard_charge_handleKeyUp true s) as Hsb1.
  set (s1 := Charge.handleKeyUp true s) in *.
  (* the wind-up ends: [startBallAnimation] reads the clock *)
  set (sB := s1 |> setPending (pending s) |> setKickerFrame 3
                |> Charge.startBallAnimation now opt tier (Some shown)
                     (questionIndex s)).
  assert (HB : Charge.step s1 (Charge.Fire k now) = Some sB).
  { cbv beta iota delta [Charge.step]. unfold k.
    rewrite (charge_fire_last s1 (pending s) _ now Hp1). reflexivity. }
  assert (HpB : pending sB = pending s ++ [AnimationFrame flight])
    by reflexivity.
  assert (HsbB : scoreboard sB = scoreboard s) by (rewrite <- Hsb1; reflexivity).
  assert (HqB : currentQuestion sB = Some shown).
  { destruct (scoreboard_fields sB s HsbB) as (E & _). congruence. }
  destruct (frames_running (pending s) shown now opt tier (Some shown)
              (questionIndex s) earlier Hearlier sB HpB HqB)
    as (s2 & Hrun2 & Hp2 & Hsb2).
  assert (Hsb : scoreboard s2 = scoreboard s) by congruence.
  destruct (scoreboard_fields s2 s Hsb) as (Eq & Es & Ef & Ei).
  assert (Hq2 : currentQuestion (setPending (pending s) s2) = Some shown)
    by (change (currentQuestion s2 = Some shown); congruence).
  destruct (animateBall_frame (setPending (pending s) s2) shown now
              currentTime opt tier (Some shown) (questionIndex s) Hq2)
    as (Hstyle & Hrunning & Hdone).
  destruct (controlPos_elevated tier) as (He0 & He1).
  destruct (progress_is_min now currentTime) as (Hmin & Hle1).
  exists s2.
  exists (Charge.animateBall now opt tier (Some shown) (questionIndex s)
            currentTime (setPending (pending s) s2)).
  split.
  { unfold flight_events. rewrite charge_run_app.
    cbn [Charge.run]. cbv beta iota delta [Charge.step].
    fold s1. change (Charge.fire k now s1) with (Charge.step s1 (Charge.Fire k now)).
    rewrite HB. exact Hrun2. }
  split; [exact Hp2 |].
  split.
  { cbv beta iota delta [Charge.step]. unfold k.
    rewrite (charge_fire_last s2 (pending s) _ currentTime Hp2). reflexivity. }
  split; [reflexivity |].
  split; [exact Hmin |].
  split; [exact Hle1 |].
  split.
  { intros Hle.
    destruct (progress_clamped now currentTime Hle) as (Hc & H0 & _).
    split; assumption. }
  split; [exact Hstyle |].
  split; [apply ballCoord_bezier |].
  split; [apply ballCoord_bezier |].
  split; [reflexivity |].
  split; [exact He0 |].
  split; [exact He1 |].
  split.
  { unfold P1. rewrite <- goalTarget_tier.
    rewrite Nat.mod_small; [reflexivity |].
    unfold tier, Charge.targetIndexOf.
    destruct (66 <? kickPower s); [lia |].
    destruct (33 <? kickPower s); lia. }
  split.
  - intros Hlt. destruct (Hrunning Hlt) as (Hp3 & Hs3 & Hf3 & _ & _).
    split; [exact Hp3 |]. split.
    + rewrite Hs3. exact Es.
    + rewrite Hf3. exact Ef.
  - intros Hge. destruct (Hdone Hge) as (Hx & Hy & Hp3).
    split; [exact Hx |]. split; [exact Hy | exact Hp3].
Qed.

Lemma ball_flight_is_quadratic_bezier_witness :
  exists s2 s3,
    Charge.run start_state (flight_events 0 (ms 100) [ms 300; ms 500])
      = Some s2 /\
    Charge.step s2 (Charge.Fire 0 (ms 900)) = Some s3 /\
    ballStyle s3 =
      Some (Charge.ballAt (Charge.goalTarget 0)
                          (Charge.progressAt (ms 100) (ms 900))) /\
    (Charge.progressAt (ms 100) (ms 900) == 1)%Q /\
    pending s3 = [Timeout 1500 (NextQuestion 0)].
Proof.
  assert (Ha : accepting start_state) by (vm_compute; auto).
  assert (Hq : currentQuestion start_state = Some sample_question)
    by reflexivity.
  assert (Hopt : nth_error (options sample_question)
                   (Charge.targetIndexOf (kickPower start_state)) = Some 7)
    by reflexivity.
  assert (Hearlier : Forall (fun u => (u - ms 100 < inject_Z 800)%Q)
                            [ms 300; ms 500])
    by (repeat constructor).
  destruct (ball_flight_is_quadratic_bezier
              start_state sample_question 7 (ms 100) (ms 900)
              [ms 300; ms 500] Ha Hq Hopt Hearlier)
    as (s2 & s3 & Hrun & _ & Hstep & _ & _ & _ & _ & Hstyle & _ & _ & _ & _
        & _ & _ & _ & Hdone).
  exists s2, s3.
  split; [exact Hrun |]. split; [exact Hstep |]. split; [exact Hstyle |].
  split; [reflexivity |].
  apply Hdone. vm_compute. discriminate.
Defined.

(** The claim as written fails on a frame stamped before the flight's start
    time: after a tap whose wind-up ends at clock reading 100, the frame
    stamped 92 draws the ball at progress -1/100, behind the start point,
    while elapsed / 800 clamped to [0, 1] is 0. *)
Lemma ball_flight_progress_not_clamped :
  let s2 := state_after (tap ++ [Charge.Fire 0 (ms 100)]) in
  pending s2 =
    [AnimationFrame (AnimateBall (ms 100) 7 0 (Some sample_question) 0)] /\
  (exists s3,
     Charge.step s2 (Charge.Fire 0 (ms 92)) = Some s3 /\
     ballStyle s3 =
       Some (Charge.ballAt (Charge.goalTarget 0)
                           (Charge.progressAt (ms 100) (ms 92)))) /\
  (Charge.progressAt (ms 100) (ms 92) == - (1 # 100))%Q /\
  (clamp01 ((ms 92 - ms 100) / inject_Z 800) == 0)%Q /\
  ~ (Charge.progressAt (ms 100) (ms 92) ==
     clamp01 ((ms 92 - ms 100) / inject_Z 800))%Q /\
  ~ (0 <= Charge.progressAt (ms 100) (ms 92))%Q /\
  (pos_x (Charge.ballAt (Charge.goalTarget 0)
                        (Charge.progressAt (ms 100) (ms 92)))
   < pos_x Charge.startPos)%Q.
Proof.
  cbv zeta. split; [vm_compute; reflexivity |].
  split.
  { eexists. split; [vm_compute; reflexivity | vm_compute; reflexivity]. }
  split; [reflexivity |]. split; [reflexivity |].
  split; [vm_compute; discriminate |].
  split; [intros H; vm_compute in H; apply H; reflexivity |].
  vm_compute. reflexivity.
Qed.

Lemma resolveKick_outcome (s b : State) (q : Question) (sel : Z) :
  same_round s b ->
  kick_outcome s q sel (resolveKick sel (Some q) (questionIndex s) b).
Proof.
  intros (Hqi & Ht & Hg & Hp & Hs).
  unfold kick_outcome, resolveKick, isCorrect.
  destruct (sel =? answer q) eqn:He.
  - apply Z.eqb_eq in He. cbn. rewrite Hp, Hs.
    repeat split; auto; intros; congruence.
  - apply Z.eqb_neq in He. cbn. rewrite Hp.
    repeat split; auto; intros; congruence.
Qed.

Lemma resolveKick_round (s b : State) (q : option Question) (sel : Z) :
  same_round s b ->
  questionIndex (resolveKick sel q (questionIndex s) b) = questionIndex s /\
  tape (resolveKick sel q (questionIndex s) b) = tape s /\
  gameState (resolveKick sel q (questionIndex s) b) = gameState s.
Proof.
  intros (Hqi & Ht & Hg & Hp & Hs). unfold resolveKick.
  destruct (isCorrect sel q); cbn; auto.
Qed.

Lemma afterFeedback_charge (s s2 : State) (now : Q) :
  gameState s = playing ->
  questionIndex s2 = questionIndex s -> tape s2 = tape s ->
  gameState s2 = gameState s ->
  pending s2 = pending s ++ [Timeout 1500 (NextQuestion (questionIndex s))] ->
  after_delay s (Charge.fire (length (pending s)) now) s2.
Proof.
  intros Hplay Hqi Ht Hg Hp. unfold after_delay.
  rewrite (charge_fire_last s2 _ _ now Hp). cbn [callback_of Charge.runCallback].
  unfold afterFeedback. split.
  - intros Hlt q' t' Hnew.
    apply Z.ltb_lt in Hlt. rewrite Hlt.
    unfold Charge.generateQuestion. cbn. rewrite Ht, Hnew.
    eexists. split; [reflexivity |]. cbn. rewrite Hqi, Hg. auto.
  - intros Hge. apply Z.ltb_ge in Hge. rewrite Hge.
    eexists. split; [reflexivity |]. cbn. auto.
Qed.

Lemma afterFeedback_click (s s2 : State) :
  gameState s = playing ->
  questionIndex s2 = questionIndex s -> tape s2 = tape s ->
  gameState s2 = gameState s ->
  pending s2 = pending s ++ [Timeout 1500 (NextQuestion (questionIndex s))] ->
  after_delay s (Click.fire (length (pending s))) s2.
Proof.
  intros Hplay Hqi Ht Hg Hp. unfold after_delay.
  rewrite (click_fire_last s2 _ _ Hp). cbn [callback_of Click.runCallback].
  unfold afterFeedback. split.
  - intros Hlt q' t' Hnew.
    apply Z.ltb_lt in Hlt. rewrite Hlt.
    unfold Click.generateQuestion. cbn. rewrite Ht, Hnew.
    eexists. split; [reflexivity |]. cbn. rewrite Hqi, Hg. auto.
  - intros Hge. apply Z.ltb_ge in Hge. rewrite Hge.
    eexists. split; [reflexivity |]. cbn. auto.
Qed.

(** The charge version: selection, wind-up timeout at [t0], final animation
    frame at [t1]. *)
Lemma charge_kick_resolves (s : State) (q : Question) (sel : Z) (index : nat)
      (t0 t1 : Q) :
  accepting s -> currentQuestion s = Some q ->
  (inject_Z 800 <= t1 - t0)%Q ->
  exists s1 b,
    Charge.fire (length (pending s)) t0 (Charge.handleAnswer sel index s) = Some s1 /\
    Charge.fire (length (pending s)) t1 s1 =
      Some (resolveKick sel (Some q) (questionIndex s) b) /\
    same_round s b.
Proof.
  intros Ha Hq Hdone.
  unfold Charge.handleAnswer. rewrite (accepting_guard s Ha).
  destruct (layoutEffect_style (setIsKicking true s)) as (style & ->).
  eexists. eexists. split; [| split].
  - erewrite charge_fire_last by reflexivity.
    cbn [callback_of Charge.runCallback]. reflexivity.
  - erewrite charge_fire_last by reflexivity.
    cbn [callback_of Charge.runCallback].
    unfold Charge.animateBall.
    destruct (progress_complete t0 t1 Hdone) as (Hb & _). rewrite Hb.
    unfold Charge.finishKick. rewrite Hq. reflexivity.
  - cbn. rewrite Hq. repeat split; reflexivity.
Qed.

(** The click version: selection, then the 800 ms timeout. *)
Lemma click_kick_resolves (s : State) (q : Question) (sel : Z) (index : nat) :
  accepting s -> currentQuestion s = Some q ->
  exists b,
    pending (Click.handleAnswer sel index s) =
      pending s ++ [Timeout 800 (KickLanded sel (Some q) (questionIndex s))] /\
    Click.fire (length (pending s)) (Click.handleAnswer sel index s) =
      Some (resolveKick sel (Some q) (questionIndex s) b) /\
    same_round s b.
Proof.
  intros Ha Hq.
  unfold Click.handleAnswer. rewrite (accepting_guard s Ha).
  eexists. split; [| split].
  - cbn. rewrite Hq. reflexivity.
  - erewrite click_fire_last by reflexivity.
    cbn [callback_of Click.runCallback]. rewrite Hq. reflexivity.
  - cbn. repeat split; reflexivity.
Qed.

(** C3. A selection made on question [q] resolves when its animation
    completes (charge version: the frame at which 800 ms have elapsed; click
    version: the 800 ms timeout).  If the selected value is the answer, the
    score goes up by exactly 1 and the feedback is [correct]; otherwise the
    feedback is [incorrect] and the score stays.  For operands (3, 4) with
    options [7; 12; 3], selecting index 0 is correct and scores 1.  The
    resolution schedules a 1500 ms callback which, for a question index below
    9, increments the index and stores a new question, and for the last index
    sets the phase to [finished]. *)
Theorem kick_resolution_scores
        (s : State) (q : Question) (sel : Z) (index : nat) (t0 t1 t2 : Q) :
  accepting s ->
  currentQuestion s = Some q ->
  (inject_Z 800 <= t1 - t0)%Q ->
  let k := length (pending s) in
  (exists s1 s2,
     Charge.fire k t0 (Charge.handleAnswer sel index s) = Some s1 /\
     Charge.fire k t1 s1 = Some s2 /\
     kick_outcome s q sel s2 /\
     after_delay s (Charge.fire k t2) s2) /\
  (exists s2,
     Click.fire k (Click.handleAnswer sel index s) = Some s2 /\
     kick_outcome s q sel s2 /\
     after_delay s (Click.fire k) s2) /\
  (q = mkQuestion 3 4 (3 + 4) [7; 12; 3] ->
   nth_error (options q) 0 = Some sel ->
   answer q = 7 /\
   forall s2, kick_outcome s q sel s2 ->
              score s2 = score s + 1 /\ feedback s2 = Some correct).
Proof.
  intros Ha Hq Hdone k.
  assert (Hplay : gameState s = playing) by (destruct Ha as (_ & _ & H); exact H).
  split; [| split].
  - destruct (charge_kick_resolves s q sel index t0 t1 Ha Hq Hdone)
      as (s1 & b & H1 & H2 & Hb).
    exists s1, (resolveKick sel (Some q) (questionIndex s) b).
    pose proof (resolveKick_outcome s b q sel Hb) as Hout.
    destruct (resolveKick_round s b (Some q) sel Hb) as (Rq & Rt & Rg).
    split; [exact H1 |]. split; [exact H2 |]. split; [exact Hout |].
    apply afterFeedback_charge; auto. apply Hout.
  - destruct (click_kick_resolves s q sel index Ha Hq) as (b & _ & H2 & Hb).
    exists (resolveKick sel (Some q) (questionIndex s) b).
    pose proof (resolveKick_outcome s b q sel Hb) as Hout.
    destruct (resolveKick_round s b (Some q) sel Hb) as (Rq & Rt & Rg).
    split; [exact H2 |]. split; [exact Hout |].
    apply afterFeedback_click; auto. apply Hout.
  - intros -> Hsel. cbn in Hsel. inversion Hsel; subst sel.
    split; [reflexivity |].
    intros s2 (Hc & _). apply Hc. reflexivity.
Qed.

Lemma kick_resolution_scores_witness :
  accepting start_state /\
  exists s1 s2,
    Charge.fire 0 (ms 100) (Charge.handleAnswer 7 0 start_state) = Some s1 /\
    Charge.fire 0 (ms 900) s1 = Some s2 /\
    score s2 = 1 /\ feedback s2 = Some correct.
Proof.
  assert (Ha : accepting start_state) by (vm_compute; auto).
  assert (Hq : currentQuestion start_state = Some sample_question)
    by reflexivity.
  assert (Ht : (inject_Z 800 <= ms 900 - ms 100)%Q)
    by (vm_compute; discriminate).
  destruct (kick_resolution_scores start_state sample_question 7 0
              (ms 100) (ms 900) (ms 2400) Ha Hq Ht)
    as ((s1 & s2 & H1 & H2 & (Hc & _) & _) & _ & _).
  split; [exact Ha |].
  exists s1, s2. split; [exact H1 |]. split; [exact H2 |].
  apply Hc. reflexivity.
Defined.

(** ** Restart *)

Lemma charge_phase_kept (s s' : State) (e : Charge.Event) :
  gameState s = finished -> Charge.step s e = Some s' ->
  e <> Charge.ResetRound -> gameState s' = finished.
Proof.
  intros Hf Hstep Hne.
  destruct e; cbn in Hstep.
  - inversion Hstep; subst. unfold Charge.handleKeyDown.
    rewrite Hf, !andb_false_r. exact Hf.
  - inversion Hstep; subst. unfold Charge.handleKeyUp.
    rewrite Hf, !andb_false_r. exact Hf.
  - inversion Hstep; subst. unfold Charge.chargeTick.
    destruct (chargeInterval s); exact Hf.
  - inversion Hstep; subst. unfold timerTick.
    rewrite Hf, orb_true_r. exact Hf.
  - inversion Hstep; subst. exact Hf.
  - inversion Hstep; subst. exact Hf.
  - destruct (showHelp s); [| inversion Hstep; subst; exact Hf].
    unfold Charge.closeHelp in Hstep. rewrite Hf in Hstep. cbn in Hstep.
    inversion Hstep; subst. exact Hf.
  - congruence.
  - unfold Charge.fire in Hstep.
    destruct (nth_error (pending s) k) as [p |]; [| inversion Hstep; subst; exact Hf].
    destruct (callback_of p); cbn in Hstep.
    + inversion Hstep; subst. exact Hf.
    + inversion Hstep; subst. unfold Charge.animateBall.
      destruct (currentQuestion _); destruct (Qltb _ _); cbn;
        unfold Charge.finishKick, resolveKick;
        try destruct (isCorrect _ _); exact Hf.
    + inversion Hstep; subst. exact Hf.
    + unfold afterFeedback in Hstep.
      destruct (qi <? QUESTION_COUNT - 1).
      * unfold Charge.generateQuestion in Hstep.
        destruct (newQuestion _) as [[q' t'] |]; [| discriminate].
        inversion Hstep; subst. exact Hf.
      * inversion Hstep; subst. reflexivity.
Qed.

Lemma click_phase_kept (s s' : State) (e : Click.Event) :
  gameState s = finished -> Click.step s e = Some s' ->
  e <> Click.ResetRound -> gameState s' = finished.
Proof.
  intros Hf Hstep Hne.
  destruct e; cbn in Hstep.
  - inversion Hstep; subst. unfold Click.clickOption, Click.handleAnswer.
    rewrite Hf, orb_true_r.
    destruct (currentQuestion s); [| exact Hf].
    destruct (nth_error _ _); [| exact Hf].
    destruct (isKicking s || isPaused s); exact Hf.
  - inversion Hstep; subst. unfold timerTick.
    rewrite Hf, orb_true_r. exact Hf.
  - inversion Hstep; subst. exact Hf.
  - inversion Hstep; subst. exact Hf.
  - destruct (showHelp s); [| inversion Hstep; subst; exact Hf].
    unfold Click.closeHelp in Hstep. rewrite Hf in Hstep. cbn in Hstep.
    inversion Hstep; subst. exact Hf.
  - congruence.
  - unfold Click.fire in Hstep.
    destruct (nth_error (pending s) k) as [p |]; [| inversion Hstep; subst; exact Hf].
    destruct (callback_of p); cbn in Hstep.
    + inversion Hstep; subst. exact Hf.
    + inversion Hstep; subst. exact Hf.
    + inversion Hstep; subst. unfold resolveKick.
      destruct (isCorrect _ _); exact Hf.
    + unfold afterFeedback in Hstep.
      destruct (qi <? QUESTION_COUNT - 1).
      * unfold Click.generateQuestion in Hstep.
        destruct (newQuestion _) as [[q' t'] |]; [| discriminate].
        inversion Hstep; subst. exact Hf.
      * inversion Hstep; subst. reflexivity.
Qed.

(** C9. In the [finished] phase the restart control ("Play Again") sets the
    score, the question index and the elapsed seconds to 0, stores a newly
    generated question and sets the phase to [playing]; no other event leaves
    [finished]. *)
Theorem restart_from_finished (s : State) :
  gameState s = finished ->
  (forall q t', newQuestion (tape s) = Some (q, t') ->
     (exists s', Charge.step s Charge.ResetRound = Some s' /\ restarted q s') /\
     (exists s', Click.step s Click.ResetRound = Some s' /\ restarted q s')) /\
  (forall e s', Charge.step s e = Some s' -> gameState s' <> finished ->
                e = Charge.ResetRound) /\
  (forall e s', Click.step s e = Some s' -> gameState s' <> finished ->
                e = Click.ResetRound).
Proof.
  intros Hf. split; [| split].
  - intros q t' Hnew. split.
    + cbn. rewrite Hf, orb_true_r.
      unfold Charge.resetRound, Charge.generateQuestion. cbn. rewrite Hnew.
      eexists. split; [reflexivity |]. repeat split.
    + cbn. rewrite Hf, orb_true_r.
      unfold Click.resetRound, Click.generateQuestion. cbn. rewrite Hnew.
      eexists. split; [reflexivity |]. repeat split.
  - intros e s' Hstep Hne.
    destruct e; try reflexivity;
      exfalso; apply Hne;
      eapply charge_phase_kept; eauto; discriminate.
  - intros e s' Hstep Hne.
    destruct e; try reflexivity;
      exfalso; apply Hne;
      eapply click_phase_kept; eauto; discriminate.
Qed.

(** Ten kicks played one after the other, all on the right option, end the
    round with a score of 10 (both versions). *)
Lemma full_round_finishes :
  phase_and_score (session full_round_trace) = Some (finished, 10) /\
  option_map questionIndex (session full_round_trace) = Some 9 /\
  option_map pending (session full_round_trace) = Some [] /\
  phase_and_score (click_session click_full_round_trace) = Some (finished, 10).
Proof. vm_compute. auto. Qed.

Lemma restart_from_finished_witness :
  gameState finished_state = finished /\
  score finished_state = 10 /\
  exists s', Charge.step finished_state Charge.ResetRound = Some s' /\
             restarted sample_question s'.
Proof.
  assert (Hf : gameState finished_state = finished) by (vm_compute; reflexivity).
  split; [exact Hf |]. split; [vm_compute; reflexivity |].
  assert (Hnew : newQuestion (tape finished_state) =
                 Some (sample_question, skipn 8 (tape finished_state)))
    by (vm_compute; reflexivity).
  exact (proj1 (proj1 (restart_from_finished finished_state Hf) _ _ Hnew)).
Defined.

(** ** Where the code leaves the spec *)

(** C4. The charge interval is not suspended by a pause.  With the spacebar
    held, a click on the pause button leaves the interval running: the power
    goes from 0 to 72 while [isPaused] is true, and the release after the
    resume kicks at the far tier (index 2) although no tick fired while the
    round was running. *)
Theorem paused_hold_keeps_charging :
  pause_and_power (session paused_hold_prefix) = Some (true, 0) /\
  pause_and_power (session (paused_hold_prefix ++ [Charge.ChargeTick])) =
    Some (true, 4) /\
  pause_and_power
    (session (paused_hold_prefix ++ repeat Charge.ChargeTick 18)) =
    Some (true, 72) /\
  option_map pending (session paused_hold_trace) =
    Some [Timeout 100 (KickStart 3 2 (Some sample_question) 0)].
Proof. vm_compute. auto. Qed.

(** C5. Two kick animations in flight.  A kick is started; the round is
    paused and reset from the sidebar before the ball has landed; the reset
    clears [isKicking] and cancels nothing, so the next release starts a
    second kick while the first one is still animating.  The click version
    does the same with its two 800 ms timeouts. *)
Theorem two_kicks_in_flight :
  option_map animations_in_flight (session overlap_trace) = Some 2%nat /\
  option_map pending (session overlap_trace) =
    Some [AnimationFrame (AnimateBall (ms 100) 7 0 (Some sample_question) 0);
          AnimationFrame (AnimateBall (ms 550) 7 0 (Some sample_question) 0)] /\
  option_map pending (click_session click_overlap_trace) =
    Some [Timeout 800 (KickLanded 7 (Some sample_question) 0);
          Timeout 800 (KickLanded 7 (Some sample_question) 0)].
Proof. vm_compute. auto. Qed.

(** C7. A score above the question count.  After a reset with a kick in
    flight two kicks stay under way for the rest of the round; each landing
    scores, and the callbacks use the question index of the render that
    created them, so kicks 11 and 12 are played before the phase changes: the
    round ends in [finished] with a score of 12 (both versions). *)
Theorem score_exceeds_question_count :
  phase_and_score (session overrun_trace) = Some (finished, 12) /\
  phase_and_score (session (firstn 59 overrun_trace)) = Some (playing, 11) /\
  phase_and_score (click_session click_overrun_trace) = Some (finished, 12).
Proof. vm_compute. auto. Qed.

(** ** Orderly executions: what holds when no callback outlives a reset *)

Lemma orderly_core (s s' : State) :
  core s' = core s -> orderly s -> orderly s'.
Proof.
  unfold core, orderly. intros H. inversion H as [[Hs Hq Hp Hg Hk Hc]].
  rewrite Hs, Hq, Hp, Hg, Hk, Hc. auto.
Qed.

Lemma orderly_fresh_round (s : State) :
  score s = 0 -> questionIndex s = 0 -> pending s = [] ->
  gameState s <> finished -> orderly s.
Proof.
  intros Hs Hq Hp Hg. unfold orderly, QUESTION_COUNT.
  rewrite Hs, Hq. repeat split; try lia.
  left. repeat split; auto. lia.
Qed.

Lemma orderly_not_accepting (s : State) :
  orderly s -> pending s <> [] ->
  isKicking s || isPaused s || negb (is_playing (gameState s)) = true.
Proof.
  intros (_ & _ & [H | [H | [H | H]]]) Hne.
  - destruct H as (Hp & _). congruence.
  - destruct H as (p & _ & _ & _ & _ & Hk & _). rewrite Hk. reflexivity.
  - destruct H as (_ & Hk & _). rewrite Hk. reflexivity.
  - destruct H as (Hp & _). congruence.
Qed.

Lemma orderly_idle_kick (s : State) (cb : Callback) (ms : Z) :
  orderly s ->
  isKicking s || isPaused s || negb (is_playing (gameState s)) = false ->
  is_kick (Timeout ms cb) = true ->
  captured_question (Timeout ms cb) = Some (currentQuestion s) ->
  captured_index (Timeout ms cb) = questionIndex s ->
  forall s', core s' = (score s, questionIndex s, pending s ++ [Timeout ms cb],
                        gameState s, true, currentQuestion s) ->
             orderly s'.
Proof.
  intros Ho Hg Hkick Hcq Hcap s' Hcore.
  assert (Hp : pending s = []).
  { destruct (pending s) eqn:E; [reflexivity |].
    rewrite (orderly_not_accepting s Ho) in Hg; [discriminate |].
    rewrite E. discriminate. }
  apply orb_false_iff in Hg as [Hg Hplay].
  apply negb_false_iff in Hplay.
  assert (Hgs : gameState s = playing)
    by (destruct (gameState s); try discriminate; reflexivity).
  destruct Ho as (H0 & Hq & [H | [H | [H | H]]]).
  - destruct H as (_ & _ & Hle).
    unfold core in Hcore. inversion Hcore as [[Hs' Hq' Hp' Hg' Hk' Hc']].
    unfold orderly. rewrite Hs', Hq', Hp', Hg', Hk', Hc', Hp.
    repeat split; try lia.
    right. left. exists (Timeout ms cb). cbn [app]. repeat split; auto.
  - destruct H as (p & Hpp & _). rewrite Hp in Hpp. discriminate.
  - destruct H as (Hpp & _). rewrite Hp in Hpp. discriminate.
  - destruct H as (_ & Hfin & _). rewrite Hgs in Hfin. discriminate.
Qed.

Lemma charge_handleAnswer_orderly (s : State) (sel : Z) (index : nat) :
  orderly s -> orderly (Charge.handleAnswer sel index s).
Proof.
  intros Ho. unfold Charge.handleAnswer.
  destruct (isKicking s || isPaused s || negb (is_playing (gameState s))) eqn:Hg;
    [exact Ho |].
  destruct (layoutEffect_style (setIsKicking true s)) as (style & ->).
  apply (orderly_idle_kick s
           (KickStart sel index (currentQuestion s) (questionIndex s)) 100 Ho Hg);
    reflexivity.
Qed.

Lemma click_handleAnswer_orderly (s : State) (sel : Z) (index : nat) :
  orderly s -> orderly (Click.handleAnswer sel index s).
Proof.
  intros Ho. unfold Click.handleAnswer.
  destruct (isKicking s || isPaused s || negb (is_playing (gameState s))) eqn:Hg;
    [exact Ho |].
  apply (orderly_idle_kick s
           (KickLanded sel (currentQuestion s) (questionIndex s))
           ANIMATION_DURATION Ho Hg);
    reflexivity.
Qed.

Lemma charge_handleKeyUp_orderly (s : State) (space : bool) :
  orderly s -> orderly (Charge.handleKeyUp space s).
Proof.
  intros Ho. unfold Charge.handleKeyUp.
  destruct (space && negb (isKicking s) && negb (isPaused s)
            && is_playing (gameState s)); [| exact Ho].
  set (s1 := s |> setIsCharging false |> setChargeInterval false).
  assert (Ho1 : orderly s1) by (apply (orderly_core s); [reflexivity | exact Ho]).
  cbv zeta.
  destruct (currentQuestion s1) as [q |].
  - destruct (nth_error (options q) (Charge.targetIndexOf (kickPower s1)))
      as [opt |].
    + eapply orderly_core;
        [| apply (charge_handleAnswer_orderly s1 opt
                    (Charge.targetIndexOf (kickPower s1)) Ho1)].
      reflexivity.
    + eapply orderly_core; [| exact Ho1]. reflexivity.
  - eapply orderly_core; [| exact Ho1]. reflexivity.
Qed.

Lemma generateQuestion_fields (s s' : State) :
  Charge.generateQuestion s = Some s' \/ Click.generateQuestion s = Some s' ->
  score s' = score s /\ questionIndex s' = questionIndex s /\
  pending s' = pending s /\ gameState s' = gameState s /\
  isKicking s' = false.
Proof.
  unfold Charge.generateQuestion, Click.generateQuestion.
  destruct (newQuestion (tape s)) as [[q t'] |];
    intros [H | H]; try discriminate; inversion H; subst;
    repeat split; reflexivity.
Qed.

Lemma resolveKick_core (s : State) (sel : Z) (q : option Question) (qi : Z) :
  core (resolveKick sel q qi s) =
  (score s + (if isCorrect sel q then 1 else 0), questionIndex s,
   pending s ++ [Timeout 1500 (NextQuestion qi)], gameState s, isKicking s,
   currentQuestion s).
Proof.
  unfold resolveKick, core. destruct (isCorrect sel q); cbn.
  - reflexivity.
  - rewrite Z.add_0_r. reflexivity.
Qed.

(** The feedback stage, entered when the only kick under way resolves. *)
Lemma orderly_resolved (s1 s' : State) (sel : Z) (q : option Question) :
  0 <= score s1 <= questionIndex s1 ->
  0 <= questionIndex s1 <= QUESTION_COUNT - 1 ->
  pending s1 = [] -> isKicking s1 = true -> gameState s1 = playing ->
  core s' = core (resolveKick sel q (questionIndex s1) s1) ->
  orderly s'.
Proof.
  intros Hs Hq Hp Hk Hg Hcore.
  rewrite resolveKick_core, Hp, Hk, Hg in Hcore.
  unfold core in Hcore. inversion Hcore as [[Hs' Hq' Hp' Hg' Hk' Hc']].
  unfold orderly. rewrite Hs', Hq', Hp', Hg', Hk'.
  destruct (isCorrect sel q); repeat split; try lia;
    right; right; left; repeat split; auto; try congruence; lia.
Qed.

(** The 1500 ms callback, fired as the only pending one. *)
Lemma orderly_afterFeedback (gen : State -> option State) (s1 s' : State) :
  (forall a b, gen a = Some b ->
               score b = score a /\ questionIndex b = questionIndex a /\
               pending b = pending a /\ gameState b = gameState a /\
               isKicking b = false) ->
  0 <= score s1 <= questionIndex s1 + 1 ->
  0 <= questionIndex s1 <= QUESTION_COUNT - 1 ->
  pending s1 = [] -> gameState s1 = playing ->
  afterFeedback gen (questionIndex s1) s1 = Some s' ->
  orderly s'.
Proof.
  intros Hgen Hs Hq Hp Hg Hrun. unfold afterFeedback in Hrun.
  destruct (questionIndex s1 <? QUESTION_COUNT - 1) eqn:Hlt.
  - apply Z.ltb_lt in Hlt. apply Hgen in Hrun.
    destruct Hrun as (Hs' & Hq' & Hp' & Hg' & Hk'). cbn in Hs', Hq', Hp', Hg'.
    unfold orderly. rewrite Hs', Hq', Hp', Hg', Hp, Hg.
    repeat split; try lia. left. repeat split; [discriminate | lia].
  - apply Z.ltb_ge in Hlt. inversion Hrun; subst s'.
    unfold orderly. cbn. rewrite Hp. unfold QUESTION_COUNT in *.
    repeat split; try lia. right. right. right.
    repeat split. lia.
Qed.

Lemma nth_error_singleton {A} (p x : A) (k : nat) :
  nth_error [p] k = Some x -> k = 0%nat /\ x = p.
Proof.
  destruct k as [| k]; cbn.
  - intros H. inversion H. auto.
  - destruct k; discriminate.
Qed.

Lemma charge_fire_orderly (s s' : State) (k : nat) (now : Q) :
  orderly s -> Charge.fire k now s = Some s' -> orderly s'.
Proof.
  intros Ho Hfire. unfold Charge.fire in Hfire.
  destruct (nth_error (pending s) k) as [p |] eqn:Hnth;
    [| inversion Hfire; subst; exact Ho].
  destruct Ho as (H0 & Hq & [H | [H | [H | H]]]);
    pose proof Hq as Hq9; unfold QUESTION_COUNT in Hq9.
  - destruct H as (Hp & _). rewrite Hp in Hnth. destruct k; discriminate.
  - destruct H as (p0 & Hp & Hkick & Hcq & Hcap & Hk & Hg & Hle).
    rewrite Hp in Hnth. apply nth_error_singleton in Hnth as [-> ->].
    rewrite Hp in Hfire. cbn [remove_nth] in Hfire.
    unfold captured_index in Hcap. unfold is_kick in Hkick.
    unfold captured_question in Hcq.
    destruct (callback_of p0) as [sel idx q qi | st sel idx q qi | sel q qi | qi];
      cbn [Charge.runCallback] in Hfire; try discriminate.
    + inversion Hfire; subst s'. unfold orderly. cbn.
      repeat split; try lia. right. left.
      eexists. repeat split; auto.
    + inversion Hfire; subst s'. subst qi.
      unfold Charge.animateBall.
      set (s1 := match currentQuestion (setPending [] s) with
                 | Some _ => _
                 | None => _
                 end).
      assert (Hc1 : core s1 = (score s, questionIndex s, [], gameState s,
                                isKicking s, currentQuestion s))
        by (unfold s1, core; cbn [currentQuestion setPending];
            destruct (currentQuestion s) eqn:E; cbn; rewrite ?E; reflexivity).
      unfold core in Hc1. inversion Hc1 as [[Hs1 Hq1 Hp1 Hg1 Hk1 Hcq1]].
      destruct (Qltb (Charge.progressAt st now) 1).
      * unfold orderly. cbn. rewrite Hs1, Hq1, Hp1, Hg1, Hk1, Hcq1.
        repeat split; try lia. right. left.
        eexists. repeat split; auto.
      * unfold Charge.finishKick.
        apply (orderly_resolved s1 _ sel q); try congruence; lia.
    + inversion Hfire; subst s'. unfold orderly. cbn.
      repeat split; try lia. left. repeat split; try lia.
      rewrite Hg. discriminate.
  - destruct H as (Hp & Hk & Hg & Hle).
    rewrite Hp in Hnth. apply nth_error_singleton in Hnth as [-> ->].
    rewrite Hp in Hfire. cbn [remove_nth callback_of Charge.runCallback] in Hfire.
    apply (orderly_afterFeedback Charge.generateQuestion (setPending [] s));
      auto.
    intros a b Hab. apply generateQuestion_fields. now left.
  - destruct H as (Hp & _). rewrite Hp in Hnth. destruct k; discriminate.
Qed.

Lemma click_fire_orderly (s s' : State) (k : nat) :
  orderly s -> Click.fire k s = Some s' -> orderly s'.
Proof.
  intros Ho Hfire. unfold Click.fire in Hfire.
  destruct (nth_error (pending s) k) as [p |] eqn:Hnth;
    [| inversion Hfire; subst; exact Ho].
  destruct Ho as (H0 & Hq & [H | [H | [H | H]]]);
    pose proof Hq as Hq9; unfold QUESTION_COUNT in Hq9.
  - destruct H as (Hp & _). rewrite Hp in Hnth. destruct k; discriminate.
  - destruct H as (p0 & Hp & Hkick & Hcq & Hcap & Hk & Hg & Hle).
    rewrite Hp in Hnth. apply nth_error_singleton in Hnth as [-> ->].
    rewrite Hp in Hfire. cbn [remove_nth] in Hfire.
    unfold captured_index in Hcap. unfold is_kick in Hkick.
    unfold captured_question in Hcq.
    destruct (callback_of p0) as [sel idx q qi | st sel idx q qi | sel q qi | qi];
      cbn [Click.runCallback] in Hfire; try discriminate.
    + inversion Hfire; subst s'. unfold orderly. cbn.
      repeat split; try lia. left. repeat split; try lia.
      rewrite Hg. discriminate.
    + inversion Hfire; subst s'. unfold orderly. cbn.
      repeat split; try lia. left. repeat split; try lia.
      rewrite Hg. discriminate.
    + inversion Hfire; subst s'. subst qi.
      apply (orderly_resolved (setPending [] s) _ sel q); auto; cbn; lia.
  - destruct H as (Hp & Hk & Hg & Hle).
    rewrite Hp in Hnth. apply nth_error_singleton in Hnth as [-> ->].
    rewrite Hp in Hfire. cbn [remove_nth callback_of Click.runCallback] in Hfire.
    apply (orderly_afterFeedback Click.generateQuestion (setPending [] s));
      auto.
    intros a b Hab. apply generateQuestion_fields. now right.
  - destruct H as (Hp & _). rewrite Hp in Hnth. destruct k; discriminate.
Qed.

Lemma orderly_menu_idle (s : State) :
  orderly s -> gameState s = menu -> pending s = [].
Proof.
  intros (_ & _ & [H | [H | [H | H]]]) Hm.
  - apply H.
  - destruct H as (p & _ & _ & _ & _ & _ & Hg & _). congruence.
  - destruct H as (_ & _ & Hg & _). congruence.
  - apply H.
Qed.

(** The round fields after [resetRound] and [startGame]. *)
Lemma charge_resetRound_fields (s s' : State) :
  Charge.resetRound s = Some s' ->
  score s' = 0 /\ questionIndex s' = 0 /\ pending s' = pending s /\
  gameState s' = playing /\ isKicking s' = false.
Proof.
  unfold Charge.resetRound, Charge.generateQuestion.
  change (tape (s |> setGameState playing |> setScore 0 |> setQuestionIndex 0
                  |> setElapsedSeconds 0 |> setFeedback None
                  |> setIsKicking false |> setKickerFrame 1
                  |> setShowKicker true |> setBallPosition Charge.startPos))
    with (tape s).
  destruct (newQuestion (tape s)) as [[q t'] |]; [| discriminate].
  intros H. inversion H. subst s'. repeat split; reflexivity.
Qed.

Lemma click_resetRound_fields (s s' : State) :
  Click.resetRound s = Some s' ->
  score s' = 0 /\ questionIndex s' = 0 /\ pending s' = pending s /\
  gameState s' = playing /\ isKicking s' = false.
Proof.
  unfold Click.resetRound, Click.generateQuestion.
  change (tape (s |> setGameState playing |> setScore 0 |> setQuestionIndex 0
                  |> setElapsedSeconds 0 |> setFeedback None
                  |> setIsKicking false |> setShowKicker true
                  |> setBallPosition Click.restPos))
    with (tape s).
  destruct (newQuestion (tape s)) as [[q t'] |]; [| discriminate].
  intros H. inversion H. subst s'. repeat split; reflexivity.
Qed.

Lemma charge_startGame_fields (s s' : State) :
  Charge.startGame s = Some s' ->
  score s' = 0 /\ questionIndex s' = 0 /\ pending s' = pending s /\
  gameState s' = playing /\ isKicking s' = false.
Proof.
  unfold Charge.startGame, Charge.generateQuestion.
  change (tape (s |> setGameState playing |> setScore 0 |> setQuestionIndex 0
                  |> setElapsedSeconds 0))
    with (tape s).
  destruct (newQuestion (tape s)) as [[q t'] |]; [| discriminate].
  intros H. inversion H. subst s'. repeat split; reflexivity.
Qed.

Lemma click_startGame_fields (s s' : State) :
  Click.startGame s = Some s' ->
  score s' = 0 /\ questionIndex s' = 0 /\ pending s' = pending s /\
  gameState s' = playing /\ isKicking s' = false.
Proof.
  unfold Click.startGame, Click.generateQuestion.
  change (tape (s |> setGameState playing |> setScore 0 |> setQuestionIndex 0
                  |> setElapsedSeconds 0))
    with (tape s).
  destruct (newQuestion (tape s)) as [[q t'] |]; [| discriminate].
  intros H. inversion H. subst s'. repeat split; reflexivity.
Qed.

Lemma orderly_new_round (s s' : State) :
  orderly s -> pending s = [] ->
  score s' = 0 /\ questionIndex s' = 0 /\ pending s' = pending s /\
  gameState s' = playing /\ isKicking s' = false ->
  orderly s'.
Proof.
  intros _ Hp (Hs & Hq & Hp' & Hg & _).
  apply orderly_fresh_round; try congruence.
Qed.

Lemma charge_closeHelp_orderly (s s' : State) :
  orderly s -> Charge.closeHelp s = Some s' -> orderly s'.
Proof.
  intros Ho H. unfold Charge.closeHelp in H.
  destruct (is_menu (gameState s)) eqn:Hm.
  - assert (Hmenu : gameState s = menu)
      by (destruct (gameState s); try discriminate; reflexivity).
    destruct (Charge.startGame (setShowHelp false s)) as [s2 |] eqn:Hstart;
      [| discriminate].
    inversion H; subst s'.
    apply (orderly_core s2); [reflexivity |].
    apply (orderly_new_round (setShowHelp false s)).
    + apply (orderly_core s); [reflexivity | exact Ho].
    + apply (orderly_menu_idle s Ho Hmenu).
    + apply charge_startGame_fields. exact Hstart.
  - inversion H; subst s'. apply (orderly_core s); [reflexivity | exact Ho].
Qed.

Lemma click_closeHelp_orderly (s s' : State) :
  orderly s -> Click.closeHelp s = Some s' -> orderly s'.
Proof.
  intros Ho H. unfold Click.closeHelp in H.
  destruct (is_menu (gameState s)) eqn:Hm.
  - assert (Hmenu : gameState s = menu)
      by (destruct (gameState s); try discriminate; reflexivity).
    destruct (Click.startGame (setShowHelp false s)) as [s2 |] eqn:Hstart;
      [| discriminate].
    inversion H; subst s'.
    apply (orderly_core s2); [reflexivity |].
    apply (orderly_new_round (setShowHelp false s)).
    + apply (orderly_core s); [reflexivity | exact Ho].
    + apply (orderly_menu_idle s Ho Hmenu).
    + apply click_startGame_fields. exact Hstart.
  - inversion H; subst s'. apply (orderly_core s); [reflexivity | exact Ho].
Qed.

Lemma charge_step_orderly (s s' : State) (e : Charge.Event) :
  orderly s -> (e = Charge.ResetRound -> pending s = []) ->
  Charge.step s e = Some s' -> orderly s'.
Proof.
  intros Ho Hquiet Hstep.
  destruct e; cbv beta iota delta [Charge.step] in Hstep.
  - inversion Hstep; subst s'. apply (orderly_core s); [| exact Ho].
    unfold Charge.handleKeyDown.
    destruct (space && negb repeat && negb (isKicking s) && negb (isPaused s)
              && is_playing (gameState s)); reflexivity.
  - inversion Hstep; subst s'. now apply charge_handleKeyUp_orderly.
  - inversion Hstep; subst s'. apply (orderly_core s); [| exact Ho].
    unfold Charge.chargeTick. destruct (chargeInterval s); reflexivity.
  - inversion Hstep; subst s'. apply (orderly_core s); [| exact Ho].
    unfold timerTick.
    destruct (isPaused s || negb (is_playing (gameState s))); reflexivity.
  - inversion Hstep; subst s'. apply (orderly_core s); [reflexivity | exact Ho].
  - inversion Hstep; subst s'. apply (orderly_core s); [reflexivity | exact Ho].
  - destruct (showHelp s); [| inversion Hstep; subst; exact Ho].
    exact (charge_closeHelp_orderly s s' Ho Hstep).
  - destruct (showSidebar s || is_finished (gameState s));
      [| inversion Hstep; subst; exact Ho].
    apply (orderly_new_round s s' Ho (Hquiet eq_refl)).
    apply charge_resetRound_fields. exact Hstep.
  - exact (charge_fire_orderly s s' k now Ho Hstep).
Qed.

Lemma click_step_orderly (s s' : State) (e : Click.Event) :
  orderly s -> (e = Click.ResetRound -> pending s = []) ->
  Click.step s e = Some s' -> orderly s'.
Proof.
  intros Ho Hquiet Hstep.
  destruct e; cbv beta iota delta [Click.step] in Hstep.
  - inversion Hstep; subst s'. unfold Click.clickOption.
    destruct (currentQuestion s) as [q |]; [| exact Ho].
    destruct (nth_error (options q) idx) as [opt |]; [| exact Ho].
    destruct (isKicking s || isPaused s); [exact Ho |].
    now apply click_handleAnswer_orderly.
  - inversion Hstep; subst s'. apply (orderly_core s); [| exact Ho].
    unfold timerTick.
    destruct (isPaused s || negb (is_playing (gameState s))); reflexivity.
  - inversion Hstep; subst s'. apply (orderly_core s); [reflexivity | exact Ho].
  - inversion Hstep; subst s'. apply (orderly_core s); [reflexivity | exact Ho].
  - destruct (showHelp s); [| inversion Hstep; subst; exact Ho].
    exact (click_closeHelp_orderly s s' Ho Hstep).
  - destruct (showSidebar s || is_finished (gameState s));
      [| inversion Hstep; subst; exact Ho].
    apply (orderly_new_round s s' Ho (Hquiet eq_refl)).
    apply click_resetRound_fields. exact Hstep.
  - exact (click_fire_orderly s s' k Ho Hstep).
Qed.

Lemma mount_orderly (t : list draw) (s : State) :
  Charge.mount t = Some s \/ Click.mount t = Some s -> orderly s.
Proof.
  unfold Charge.mount, Click.mount. intros [H | H].
  - destruct (Charge.generateQuestion _) as [s1 |] eqn:Hgen; [| discriminate].
    inversion H; subst s.
    destruct (generateQuestion_fields _ s1 (or_introl Hgen))
      as (Hs1 & Hq1 & Hp1 & Hg1 & Hk1).
    apply (orderly_core s1); [reflexivity |].
    apply orderly_fresh_round; try assumption. rewrite Hg1. discriminate.
  - destruct (Click.generateQuestion _) as [s1 |] eqn:Hgen; [| discriminate].
    inversion H; subst s.
    destruct (generateQuestion_fields _ s1 (or_intror Hgen))
      as (Hs1 & Hq1 & Hp1 & Hg1 & Hk1).
    apply (orderly_core s1); [reflexivity |].
    apply orderly_fresh_round; try assumption. rewrite Hg1. discriminate.
Qed.

Lemma charge_run_orderly (es : list Charge.Event) :
  forall s s', orderly s -> charge_quiet s es ->
               Charge.run s es = Some s' -> orderly s'.
Proof.
  induction es as [| e es IH]; intros s s' Ho Hq Hrun; cbn in *.
  - inversion Hrun; subst. exact Ho.
  - destruct Hq as (Hreset & Hrest).
    destruct (Charge.step s e) as [s1 |] eqn:Hstep; [| discriminate].
    apply (IH s1); auto. eapply charge_step_orderly; eauto.
Qed.

Lemma click_run_orderly (es : list Click.Event) :
  forall s s', orderly s -> click_quiet s es ->
               Click.run s es = Some s' -> orderly s'.
Proof.
  induction es as [| e es IH]; intros s s' Ho Hq Hrun; cbn in *.
  - inversion Hrun; subst. exact Ho.
  - destruct Hq as (Hreset & Hrest).
    destruct (Click.step s e) as [s1 |] eqn:Hstep; [| discriminate].
    apply (IH s1); auto. eapply click_step_orderly; eauto.
Qed.

Lemma orderly_bounds (s : State) :
  orderly s ->
  (kicks_in_flight s <= 1)%nat /\ (animations_in_flight s <= 1)%nat /\
  0 <= score s <= QUESTION_COUNT /\
  score s <= questionIndex s + 1 /\
  forall p, In p (pending s) -> is_kick p = true ->
            captured_question p = Some (currentQuestion s) /\
            captured_index p = questionIndex s.
Proof.
  unfold kicks_in_flight, animations_in_flight, QUESTION_COUNT.
  intros (H0 & Hq & [H | [H | [H | H]]]); unfold QUESTION_COUNT in *.
  - destruct H as (Hp & _ & Hle). rewrite Hp. cbn.
    split; [lia |]. split; [lia |]. split; [lia |]. split; [lia |].
    intros p [].
  - destruct H as (p & Hp & _ & Hcq & Hci & _ & _ & Hle). rewrite Hp. cbn.
    split; [destruct (is_kick p); cbn; lia |].
    split; [destruct (is_animation p); cbn; lia |].
    split; [lia |]. split; [lia |].
    intros p' [<- | []] _. split; assumption.
  - destruct H as (Hp & _ & _ & Hle). rewrite Hp. cbn.
    split; [lia |]. split; [lia |]. split; [lia |]. split; [lia |].
    intros p' [<- | []] Hkick. discriminate.
  - destruct H as (Hp & _ & Hle). rewrite Hp. cbn.
    split; [lia |]. split; [lia |]. split; [lia |]. split; [lia |].
    intros p [].
Qed.

(** X10. In every execution from mount in which the round is never reset
    while a callback is pending, at most one kick is under way, it is resolved
    against the question and the index on display, and the score stays
    between 0 and the question count (either version). *)
Lemma quiet_rounds_are_orderly (t : list draw) (s0 s : State) :
  (exists es, Charge.mount t = Some s0 /\ charge_quiet s0 es /\
              Charge.run s0 es = Some s) \/
  (exists es, Click.mount t = Some s0 /\ click_quiet s0 es /\
              Click.run s0 es = Some s) ->
  (kicks_in_flight s <= 1)%nat /\ (animations_in_flight s <= 1)%nat /\
  0 <= score s <= QUESTION_COUNT /\
  score s <= questionIndex s + 1 /\
  forall p, In p (pending s) -> is_kick p = true ->
            captured_question p = Some (currentQuestion s) /\
            captured_index p = questionIndex s.
Proof.
  intros [(es & Hm & Hq & Hrun) | (es & Hm & Hq & Hrun)];
    apply orderly_bounds.
  - eapply charge_run_orderly; eauto. eapply mount_orderly; eauto.
  - eapply click_run_orderly; eauto. eapply mount_orderly; eauto.
Qed.

(** New input is dropped while a kick is under way, while the round is
    paused, and outside the [playing] phase. *)
Lemma blocked_input_ignored (s : State) :
  isKicking s = true \/ isPaused s = true \/ gameState s <> playing ->
  (forall sel index, Charge.handleAnswer sel index s = s) /\
  (forall repeat, Charge.handleKeyDown true repeat s = s) /\
  Charge.handleKeyUp true s = s /\
  (forall sel index, Click.handleAnswer sel index s = s) /\
  (forall idx, Click.clickOption idx s = s).
Proof.
  intros H.
  assert (Hg : isKicking s || isPaused s || negb (is_playing (gameState s)) = true).
  { destruct H as [-> | [-> | Hn]]; [reflexivity | apply orb_true_iff; left;
      apply orb_true_r |].
    destruct (gameState s); try congruence; cbn; apply orb_true_r. }
  assert (Hb : negb (isKicking s) && negb (isPaused s)
               && is_playing (gameState s) = false).
  { destruct (isKicking s), (isPaused s), (gameState s); cbn in *;
      try reflexivity; discriminate. }
  repeat split.
  - intros. unfold Charge.handleAnswer. now rewrite Hg.
  - intros. unfold Charge.handleKeyDown.
    destruct repeat; cbn [andb negb]; [reflexivity |]. now rewrite Hb.
  - unfold Charge.handleKeyUp. cbn [andb]. now rewrite Hb.
  - intros. unfold Click.handleAnswer. now rewrite Hg.
  - intros. unfold Click.clickOption, Click.handleAnswer. rewrite Hg.
    destruct (currentQuestion s); [| reflexivity].
    destruct (nth_error _ _); [| reflexivity].
    destruct (isKicking s || isPaused s); reflexivity.
Qed.

(** The ten-kick round played one kick at a time is such an execution. *)
Lemma full_round_is_quiet :
  exists s0,
    Charge.mount (tape_for 14) = Some s0 /\
    charge_quiet s0 (Charge.CloseHelp :: full_round_trace) /\
    Charge.run s0 (Charge.CloseHelp :: full_round_trace) = Some finished_state.
Proof.
  eexists. split; [vm_compute; reflexivity |]. split.
  - vm_compute. repeat split; discriminate.
  - vm_compute. reflexivity.
Qed.

Lemma quiet_rounds_are_orderly_witness :
  (kicks_in_flight finished_state <= 1)%nat /\
  (animations_in_flight finished_state <= 1)%nat /\
  0 <= score finished_state <= QUESTION_COUNT /\
  score finished_state <= questionIndex finished_state + 1 /\
  forall p, In p (pending finished_state) -> is_kick p = true ->
            captured_question p = Some (currentQuestion finished_state) /\
            captured_index p = questionIndex finished_state.
Proof.
  apply (quiet_rounds_are_orderly (tape_for 14) mounted_state finished_state).
  left. exists (Charge.CloseHelp :: full_round_trace).
  split; [vm_compute; reflexivity |]. split.
  - vm_compute. repeat split; discriminate.
  - vm_compute. reflexivity.
Defined.

(** ** Invariants of every execution *)

(** How each handler changes the variables the invariant reads. *)

Lemma view_togglePause (s : State) :
  view (togglePause s) =
  mkView (score s) (questionIndex s) (elapsedSeconds s) (kickPower s)
         (activeTargetIndex s) (currentQuestion s) (pending s)
         (negb (isPaused s)) (negb (isPaused s)) (kickerFrame s).
Proof. reflexivity. Qed.

Lemma view_openHelp (s : State) :
  view (openHelp s) =
  mkView (score s) (questionIndex s) (elapsedSeconds s) (kickPower s)
         (activeTargetIndex s) (currentQuestion s) (pending s)
         true true (kickerFrame s).
Proof. reflexivity. Qed.

Lemma view_timerTick (s : State) :
  view (timerTick s) = view s \/
  view (timerTick s) =
  mkView (score s) (questionIndex s) (elapsedSeconds s + 1) (kickPower s)
         (activeTargetIndex s) (currentQuestion s) (pending s)
         (showSidebar s) (isPaused s) (kickerFrame s).
Proof.
  unfold timerTick.
  destruct (isPaused s || negb (is_playing (gameState s))); auto.
Qed.

Lemma view_handleKeyDown (space repeat : bool) (s : State) :
  view (Charge.handleKeyDown space repeat s) = view s \/
  view (Charge.handleKeyDown space repeat s) =
  mkView (score s) (questionIndex s) (elapsedSeconds s) 0 0%nat
         (currentQuestion s) (pending s) (showSidebar s) (isPaused s)
         (kickerFrame s).
Proof.
  unfold Charge.handleKeyDown.
  destruct (space && negb repeat && negb (isKicking s) && negb (isPaused s)
            && is_playing (gameState s)); auto.
Qed.

Lemma view_chargeTick (s : State) :
  view (Charge.chargeTick s) = view s \/
  view (Charge.chargeTick s) =
  mkView (score s) (questionIndex s) (elapsedSeconds s)
         (Charge.chargeStep (kickPower s))
         (Charge.targetIndexOf (Charge.chargeStep (kickPower s)))
         (currentQuestion s) (pending s) (showSidebar s) (isPaused s)
         (kickerFrame s).
Proof.
  unfold Charge.chargeTick. destruct (chargeInterval s); auto.
Qed.

Lemma view_charge_handleAnswer (sel : Z) (index : nat) (s : State) :
  view (Charge.handleAnswer sel index s) = view s \/
  view (Charge.handleAnswer sel index s) =
  mkView (score s) (questionIndex s) (elapsedSeconds s) (kickPower s)
         (activeTargetIndex s) (currentQuestion s)
         (pending s ++ [Timeout 100 (KickStart sel index (currentQuestion s)
                                               (questionIndex s))])
         (showSidebar s) (isPaused s) 2.
Proof.
  unfold Charge.handleAnswer.
  destruct (isKicking s || isPaused s || negb (is_playing (gameState s)));
    [auto |].
  destruct (layoutEffect_style (setIsKicking true s)) as (style & ->).
  right. reflexivity.
Qed.

Lemma view_click_handleAnswer (sel : Z) (index : nat) (s : State) :
  view (Click.handleAnswer sel index s) = view s \/
  view (Click.handleAnswer sel index s) =
  mkView (score s) (questionIndex s) (elapsedSeconds s) (kickPower s)
         (activeTargetIndex s) (currentQuestion s)
         (pending s ++ [Timeout ANIMATION_DURATION
                          (KickLanded sel (currentQuestion s) (questionIndex s))])
         (showSidebar s) (isPaused s) (kickerFrame s).
Proof.
  unfold Click.handleAnswer.
  destruct (isKicking s || isPaused s || negb (is_playing (gameState s)));
    auto.
Qed.

Lemma view_resolveKick (sel : Z) (q : option Question) (qi : Z) (s : State) :
  view (resolveKick sel q qi s) =
  mkView (score s + (if isCorrect sel q then 1 else 0)) (questionIndex s)
         (elapsedSeconds s) (kickPower s) (activeTargetIndex s)
         (currentQuestion s)
         (pending s ++ [Timeout 1500 (NextQuestion qi)])
         (showSidebar s) (isPaused s) (kickerFrame s).
Proof.
  unfold resolveKick. destruct (isCorrect sel q); unfold view; cbn.
  - reflexivity.
  - rewrite Z.add_0_r. reflexivity.
Qed.

Lemma view_generateQuestion (s s' : State) :
  Charge.generateQuestion s = Some s' \/ Click.generateQuestion s = Some s' ->
  exists q frame,
    question_invariant q /\
    (frame = 1 \/ frame = kickerFrame s) /\
    view s' =
    mkView (score s) (questionIndex s) (elapsedSeconds s) (kickPower s)
           (activeTargetIndex s) (Some q) (pending s) (showSidebar s)
           (isPaused s) frame.
Proof.
  unfold Charge.generateQuestion, Click.generateQuestion.
  destruct (newQuestion (tape s)) as [[q t'] |] eqn:Hnew;
    intros [H | H]; try discriminate; inversion H; subst s'.
  - exists q, 1. split; [eapply newQuestion_invariant; eauto |].
    split; [now left | reflexivity].
  - exists q, (kickerFrame s). split; [eapply newQuestion_invariant; eauto |].
    split; [now right | reflexivity].
Qed.

Ltac view_simpl :=
  cbn [v_score v_index v_elapsed v_power v_target v_question v_pending
       v_sidebar v_paused v_frame].

Ltac view_simpl_in H :=
  cbn [v_score v_index v_elapsed v_power v_target v_question v_pending
       v_sidebar v_paused v_frame] in H.

Ltac open_sound H :=
  unfold sound, view, sound_view in H; view_simpl_in H;
  destruct H as (Hsc & Hqi & Hel & Hpw & Htg & Hq & Hpd & Hsb & Hfr).

Lemma sound_same_view (s s' : State) :
  view s' = view s -> sound s -> sound s'.
Proof. unfold sound. intros ->. auto. Qed.

Lemma remove_nth_Forall {A} (P : A -> Prop) (l : list A) :
  forall k, Forall P l -> Forall P (remove_nth k l).
Proof.
  induction l as [| a l IH]; intros k H; [destruct k; exact H |].
  inversion H; subst. destruct k; cbn; [assumption |].
  constructor; auto.
Qed.

Lemma nth_error_Forall {A} (P : A -> Prop) (l : list A) (k : nat) (x : A) :
  Forall P l -> nth_error l k = Some x -> P x.
Proof.
  intros H Hn. rewrite Forall_forall in H. apply H.
  eapply nth_error_In; eauto.
Qed.

Lemma chargeStep_range (p : Z) :
  0 <= p <= 100 /\ p mod 4 = 0 ->
  0 <= Charge.chargeStep p <= 100 /\ Charge.chargeStep p mod 4 = 0.
Proof.
  intros [Hr Hm]. unfold Charge.chargeStep.
  destruct (p <? 100) eqn:Hlt.
  - apply Z.ltb_lt in Hlt.
    assert (Hm' : (p + 4) mod 4 = 0)
      by (rewrite <- Zplus_mod_idemp_l, Hm; reflexivity).
    split; [| exact Hm'].
    assert (p <> 97 /\ p <> 98 /\ p <> 99)
      by (repeat split; intros ->; discriminate).
    lia.
  - split; [lia | reflexivity].
Qed.

Lemma targetIndexOf_le (p : Z) : (Charge.targetIndexOf p <= 2)%nat.
Proof.
  unfold Charge.targetIndexOf.
  destruct (66 <? p); [lia |]. destruct (33 <? p); lia.
Qed.

Lemma sound_togglePause (s : State) : sound s -> sound (togglePause s).
Proof.
  intros H. open_sound H. unfold sound. rewrite view_togglePause.
  unfold sound_view. view_simpl. repeat split; auto; lia.
Qed.

Lemma sound_openHelp (s : State) : sound s -> sound (openHelp s).
Proof.
  intros H. open_sound H. unfold sound. rewrite view_openHelp.
  unfold sound_view. view_simpl. repeat split; auto; lia.
Qed.

Lemma sound_timerTick (s : State) : sound s -> sound (timerTick s).
Proof.
  intros H. destruct (view_timerTick s) as [E | E];
    [exact (sound_same_view s _ E H) |].
  open_sound H. unfold sound. rewrite E.
  unfold sound_view. view_simpl. repeat split; auto; lia.
Qed.

Lemma sound_handleKeyDown (space repeat : bool) (s : State) :
  sound s -> sound (Charge.handleKeyDown space repeat s).
Proof.
  intros H. destruct (view_handleKeyDown space repeat s) as [E | E];
    [exact (sound_same_view s _ E H) |].
  open_sound H. unfold sound. rewrite E.
  unfold sound_view. view_simpl. repeat split; auto; lia.
Qed.

Lemma sound_chargeTick (s : State) : sound s -> sound (Charge.chargeTick s).
Proof.
  intros H. destruct (view_chargeTick s) as [E | E];
    [exact (sound_same_view s _ E H) |].
  open_sound H. unfold sound. rewrite E.
  unfold sound_view. view_simpl.
  pose proof (chargeStep_range (kickPower s) Hpw) as [Hr Hm].
  pose proof (targetIndexOf_le (Charge.chargeStep (kickPower s))).
  repeat split; auto; lia.
Qed.

Lemma sound_charge_handleAnswer (sel : Z) (index : nat) (s : State) :
  sound s -> kick_wf sel index (currentQuestion s) ->
  sound (Charge.handleAnswer sel index s).
Proof.
  intros H Hk. destruct (view_charge_handleAnswer sel index s) as [E | E];
    [exact (sound_same_view s _ E H) |].
  open_sound H. unfold sound. rewrite E.
  unfold sound_view. view_simpl. repeat split; auto; try lia.
  apply Forall_app. split; [exact Hpd |]. constructor; [exact Hk | constructor].
Qed.

Lemma sound_click_handleAnswer (sel : Z) (index : nat) (s : State) :
  sound s -> kick_wf sel index (currentQuestion s) ->
  sound (Click.handleAnswer sel index s).
Proof.
  intros H Hk. destruct (view_click_handleAnswer sel index s) as [E | E];
    [exact (sound_same_view s _ E H) |].
  open_sound H. unfold sound. rewrite E.
  unfold sound_view. view_simpl. repeat split; auto; try lia.
  apply Forall_app. split; [exact Hpd |].
  constructor; [exists index; exact Hk | constructor].
Qed.

Lemma sound_resolveKick (sel : Z) (q : option Question) (qi : Z) (s : State) :
  sound s -> sound (resolveKick sel q qi s).
Proof.
  intros H. open_sound H. unfold sound. rewrite view_resolveKick.
  unfold sound_view. view_simpl.
  repeat split; auto; try lia.
  - destruct (isCorrect sel q); lia.
  - apply Forall_app. split; [exact Hpd |]. constructor; [exact I | constructor].
Qed.

Lemma sound_generateQuestion (s s' : State) :
  sound s ->
  Charge.generateQuestion s = Some s' \/ Click.generateQuestion s = Some s' ->
  sound s'.
Proof.
  intros H Hgen.
  destruct (view_generateQuestion s s' Hgen) as (q & frame & Hinv & Hf & E).
  open_sound H. unfold sound. rewrite E.
  unfold sound_view. view_simpl. repeat split; auto; try lia.
  exists q. auto.
Qed.

Lemma sound_charge_handleKeyUp (space : bool) (s : State) :
  sound s -> sound (Charge.handleKeyUp space s).
Proof.
  intros H. unfold Charge.handleKeyUp.
  destruct (space && negb (isKicking s) && negb (isPaused s)
            && is_playing (gameState s)); [| exact H].
  set (s1 := s |> setIsCharging false |> setChargeInterval false).
  assert (H1 : sound s1) by (apply (sound_same_view s); [reflexivity | exact H]).
  cbv zeta.
  assert (Hzero : forall x, sound x -> sound (setKickPower 0 x)).
  { intros x Hx. open_sound Hx. unfold sound, view, sound_view. view_simpl.
    cbn [score questionIndex elapsedSeconds kickPower activeTargetIndex
         currentQuestion pending showSidebar isPaused kickerFrame setKickPower].
    repeat split; auto; lia. }
  apply Hzero.
  destruct (currentQuestion s1) as [q |] eqn:Hcq; [| exact H1].
  destruct (nth_error (options q) (Charge.targetIndexOf (kickPower s1)))
    as [opt |] eqn:Hopt; [| exact H1].
  apply sound_charge_handleAnswer; [exact H1 |].
  rewrite Hcq. exists q. split; [reflexivity |]. split; [| exact Hopt].
  pose proof H1 as H1'. open_sound H1'.
  destruct Hq as (q0 & Hq0 & Hinv). rewrite Hcq in Hq0.
  inversion Hq0; subst. exact Hinv.
Qed.

Lemma sound_click_clickOption (idx : nat) (s : State) :
  sound s -> sound (Click.clickOption idx s).
Proof.
  intros H. unfold Click.clickOption.
  destruct (currentQuestion s) as [q |] eqn:Hcq; [| exact H].
  destruct (nth_error (options q) idx) as [opt |] eqn:Hopt; [| exact H].
  destruct (isKicking s || isPaused s); [exact H |].
  apply sound_click_handleAnswer; [exact H |].
  rewrite Hcq. exists q. split; [reflexivity |]. split; [| exact Hopt].
  pose proof H as H'. open_sound H'.
  destruct Hq as (q0 & Hq0 & Hinv). rewrite Hcq in Hq0.
  inversion Hq0; subst. exact Hinv.
Qed.

Lemma sound_drop_pending (s : State) (k : nat) :
  sound s -> sound (setPending (remove_nth k (pending s)) s).
Proof.
  intros H. open_sound H. unfold sound, view, sound_view. view_simpl.
  cbn [score questionIndex elapsedSeconds kickPower activeTargetIndex
       currentQuestion pending showSidebar isPaused kickerFrame setPending].
  repeat split; auto; try lia. now apply remove_nth_Forall.
Qed.

Lemma sound_afterFeedback (gen : State -> option State) (qi : Z) (s s' : State) :
  (forall a b, sound a -> gen a = Some b -> sound b) ->
  sound s -> afterFeedback gen qi s = Some s' -> sound s'.
Proof.
  intros Hgen H Hrun. unfold afterFeedback in Hrun.
  destruct (qi <? QUESTION_COUNT - 1).
  - apply (Hgen _ _) in Hrun; [exact Hrun |].
    open_sound H. unfold sound, view, sound_view. view_simpl.
    cbn [score questionIndex elapsedSeconds kickPower activeTargetIndex
         currentQuestion pending showSidebar isPaused kickerFrame
         setQuestionIndex].
    repeat split; auto; lia.
  - inversion Hrun; subst s'.
    open_sound H. unfold sound, view, sound_view. view_simpl.
    cbn [score questionIndex elapsedSeconds kickPower activeTargetIndex
         currentQuestion pending showSidebar isPaused kickerFrame
         setGameState setIsPaused].
    repeat split; auto; lia.
Qed.

Lemma sound_charge_runCallback (p : Pending) (now : Q) (s s' : State) :
  sound s -> pending_wf p ->
  Charge.runCallback (callback_of p) now s = Some s' -> sound s'.
Proof.
  intros H Hp Hrun. unfold pending_wf in Hp.
  destruct (callback_of p) as [sel idx q qi | st sel idx q qi | sel q qi | qi];
    cbn [Charge.runCallback] in Hrun.
  - inversion Hrun; subst s'.
    open_sound H. unfold sound, view, sound_view. view_simpl.
    unfold Charge.startBallAnimation, requestAnimationFrame.
    cbn [score questionIndex elapsedSeconds kickPower activeTargetIndex
         currentQuestion pending showSidebar isPaused kickerFrame
         setKickerFrame setPending].
    repeat split; auto; try lia.
    apply Forall_app. split; [exact Hpd |]. constructor; [exact Hp | constructor].
  - inversion Hrun; subst s'. unfold Charge.animateBall.
    set (s1 := match currentQuestion s with Some _ => _ | None => _ end).
    assert (H1 : sound s1).
    { apply (sound_same_view s); [| exact H].
      unfold s1. destruct (currentQuestion s); reflexivity. }
    destruct (Qltb (Charge.progressAt st now) 1).
    + open_sound H1. unfold sound, view, sound_view. view_simpl.
      unfold requestAnimationFrame.
      cbn [score questionIndex elapsedSeconds kickPower activeTargetIndex
           currentQuestion pending showSidebar isPaused kickerFrame setPending].
      repeat split; auto; try lia.
      apply Forall_app. split; [exact Hpd |].
      constructor; [exact Hp | constructor].
    + apply sound_resolveKick. exact H1.
  - inversion Hrun; subst s'. exact H.
  - apply (sound_afterFeedback Charge.generateQuestion qi s s'); auto.
    intros a b Ha Hab. apply (sound_generateQuestion a b Ha). now left.
Qed.

Lemma sound_click_runCallback (p : Pending) (s s' : State) :
  sound s -> Click.runCallback (callback_of p) s = Some s' -> sound s'.
Proof.
  intros H Hrun.
  destruct (callback_of p) as [sel idx q qi | st sel idx q qi | sel q qi | qi];
    cbn [Click.runCallback] in Hrun.
  - inversion Hrun; subst s'. exact H.
  - inversion Hrun; subst s'. exact H.
  - inversion Hrun; subst s'. apply sound_resolveKick. exact H.
  - apply (sound_afterFeedback Click.generateQuestion qi s s'); auto.
    intros a b Ha Hab. apply (sound_generateQuestion a b Ha). now right.
Qed.

Lemma sound_charge_fire (k : nat) (now : Q) (s s' : State) :
  sound s -> Charge.fire k now s = Some s' -> sound s'.
Proof.
  intros H Hfire. unfold Charge.fire in Hfire.
  destruct (nth_error (pending s) k) as [p |] eqn:Hnth;
    [| inversion Hfire; subst; exact H].
  apply (sound_charge_runCallback p now _ s' (sound_drop_pending s k H));
    [| exact Hfire].
  pose proof H as H'. open_sound H'.
  exact (nth_error_Forall _ _ _ _ Hpd Hnth).
Qed.

Lemma sound_click_fire (k : nat) (s s' : State) :
  sound s -> Click.fire k s = Some s' -> sound s'.
Proof.
  intros H Hfire. unfold Click.fire in Hfire.
  destruct (nth_error (pending s) k) as [p |] eqn:Hnth;
    [| inversion Hfire; subst; exact H].
  exact (sound_click_runCallback p _ s' (sound_drop_pending s k H) Hfire).
Qed.

Lemma sound_by_view (s' : State) (v : View) :
  view s' = v -> sound_view v -> sound s'.
Proof. unfold sound. intros ->. auto. Qed.

Lemma view_charge_resetRound (s s' : State) :
  Charge.resetRound s = Some s' ->
  exists q, question_invariant q /\
    view s' = mkView 0 0 0 0 (activeTargetIndex s) (Some q) (pending s)
                     false false 1.
Proof.
  unfold Charge.resetRound, Charge.generateQuestion.
  change (tape (s |> setGameState playing |> setScore 0 |> setQuestionIndex 0
                  |> setElapsedSeconds 0 |> setFeedback None
                  |> setIsKicking false |> setKickerFrame 1
                  |> setShowKicker true |> setBallPosition Charge.startPos))
    with (tape s).
  destruct (newQuestion (tape s)) as [[q t'] |] eqn:Hnew; [| discriminate].
  intros H. inversion H. subst s'. exists q.
  split; [eapply newQuestion_invariant; eauto | reflexivity].
Qed.

Lemma view_click_resetRound (s s' : State) :
  Click.resetRound s = Some s' ->
  exists q, question_invariant q /\
    view s' = mkView 0 0 0 (kickPower s) (activeTargetIndex s) (Some q)
                     (pending s) false false (kickerFrame s).
Proof.
  unfold Click.resetRound, Click.generateQuestion.
  change (tape (s |> setGameState playing |> setScore 0 |> setQuestionIndex 0
                  |> setElapsedSeconds 0 |> setFeedback None
                  |> setIsKicking false |> setShowKicker true
                  |> setBallPosition Click.restPos))
    with (tape s).
  destruct (newQuestion (tape s)) as [[q t'] |] eqn:Hnew; [| discriminate].
  intros H. inversion H. subst s'. exists q.
  split; [eapply newQuestion_invariant; eauto | reflexivity].
Qed.

Lemma view_charge_startGame (s s' : State) :
  Charge.startGame s = Some s' ->
  exists q, question_invariant q /\
    view s' = mkView 0 0 0 (kickPower s) (activeTargetIndex s) (Some q)
                     (pending s) (showSidebar s) false 1.
Proof.
  unfold Charge.startGame, Charge.generateQuestion.
  change (tape (s |> setGameState playing |> setScore 0 |> setQuestionIndex 0
                  |> setElapsedSeconds 0))
    with (tape s).
  destruct (newQuestion (tape s)) as [[q t'] |] eqn:Hnew; [| discriminate].
  intros H. inversion H. subst s'. exists q.
  split; [eapply newQuestion_invariant; eauto | reflexivity].
Qed.

Lemma view_click_startGame (s s' : State) :
  Click.startGame s = Some s' ->
  exists q, question_invariant q /\
    view s' = mkView 0 0 0 (kickPower s) (activeTargetIndex s) (Some q)
                     (pending s) (showSidebar s) false (kickerFrame s).
Proof.
  unfold Click.startGame, Click.generateQuestion.
  change (tape (s |> setGameState playing |> setScore 0 |> setQuestionIndex 0
                  |> setElapsedSeconds 0))
    with (tape s).
  destruct (newQuestion (tape s)) as [[q t'] |] eqn:Hnew; [| discriminate].
  intros H. inversion H. subst s'. exists q.
  split; [eapply newQuestion_invariant; eauto | reflexivity].
Qed.

(** A new round: counters at zero, a well-formed question, whatever was
    pending still pending. *)
Lemma sound_new_round (s s' : State) (q : Question) (pw fr : Z) (sb pz : bool) :
  sound s -> question_invariant q ->
  (0 <= pw <= 100 /\ pw mod 4 = 0) -> 1 <= fr <= 3 ->
  (sb = true -> pz = true) ->
  view s' = mkView 0 0 0 pw (activeTargetIndex s) (Some q) (pending s)
                   sb pz fr ->
  sound s'.
Proof.
  intros H Hinv Hpw' Hfr' Hsb' E. open_sound H. unfold sound. rewrite E.
  unfold sound_view. view_simpl. repeat split; auto; try lia.
  exists q. auto.
Qed.

Lemma sound_charge_resetRound (s s' : State) :
  sound s -> Charge.resetRound s = Some s' -> sound s'.
Proof.
  intros H Hrun.
  destruct (view_charge_resetRound s s' Hrun) as (q & Hinv & E).
  apply (sound_new_round s s' q 0 1 false false H Hinv); auto; try lia.
  split; [lia | reflexivity].
Qed.

Lemma sound_click_resetRound (s s' : State) :
  sound s -> Click.resetRound s = Some s' -> sound s'.
Proof.
  intros H Hrun.
  destruct (view_click_resetRound s s' Hrun) as (q & Hinv & E).
  pose proof H as H'. open_sound H'.
  apply (sound_new_round s s' q (kickPower s) (kickerFrame s) false false
                         H Hinv); auto.
Qed.

Lemma sound_close_flags (s s' : State) :
  sound s ->
  view s' = mkView (score s) (questionIndex s) (elapsedSeconds s)
                   (kickPower s) (activeTargetIndex s) (currentQuestion s)
                   (pending s) false false (kickerFrame s) ->
  sound s'.
Proof.
  intros H E. open_sound H. unfold sound. rewrite E.
  unfold sound_view. view_simpl. repeat split; auto; try lia; discriminate.
Qed.

Lemma view_fields (a : State) (v : View) :
  view a = v ->
  score a = v_score v /\ questionIndex a = v_index v /\
  elapsedSeconds a = v_elapsed v /\ kickPower a = v_power v /\
  activeTargetIndex a = v_target v /\ currentQuestion a = v_question v /\
  pending a = v_pending v /\ showSidebar a = v_sidebar v /\
  isPaused a = v_paused v /\ kickerFrame a = v_frame v.
Proof. intros <-. repeat split. Qed.

Lemma sound_charge_closeHelp (s s' : State) :
  sound s -> Charge.closeHelp s = Some s' -> sound s'.
Proof.
  intros H Hrun. unfold Charge.closeHelp in Hrun.
  destruct (is_menu (gameState s)).
  - destruct (Charge.startGame (setShowHelp false s)) as [s1 |] eqn:Hstart;
      [| discriminate].
    inversion Hrun; subst s'.
    destruct (view_charge_startGame _ s1 Hstart) as (q & Hinv & E).
    pose proof H as H'. open_sound H'.
    apply (sound_new_round s _ q (kickPower s) 1 false false H Hinv);
      auto; try lia.
    apply view_fields in E. view_simpl_in E.
    destruct E as (E1 & E2 & E3 & E4 & E5 & E6 & E7 & E8 & E9 & E10).
    unfold view.
    cbn [score questionIndex elapsedSeconds kickPower activeTargetIndex
         currentQuestion pending showSidebar isPaused kickerFrame
         setShowSidebar].
    rewrite E1, E2, E3, E4, E5, E6, E7, E9, E10. reflexivity.
  - inversion Hrun; subst s'. apply (sound_close_flags s); [exact H |].
    reflexivity.
Qed.

Lemma sound_click_closeHelp (s s' : State) :
  sound s -> Click.closeHelp s = Some s' -> sound s'.
Proof.
  intros H Hrun. unfold Click.closeHelp in Hrun.
  destruct (is_menu (gameState s)).
  - destruct (Click.startGame (setShowHelp false s)) as [s1 |] eqn:Hstart;
      [| discriminate].
    inversion Hrun; subst s'.
    destruct (view_click_startGame _ s1 Hstart) as (q & Hinv & E).
    pose proof H as H'. open_sound H'.
    apply (sound_new_round s _ q (kickPower s) (kickerFrame s) false false
                           H Hinv); auto; try lia.
    apply view_fields in E. view_simpl_in E.
    destruct E as (E1 & E2 & E3 & E4 & E5 & E6 & E7 & E8 & E9 & E10).
    unfold view.
    cbn [score questionIndex elapsedSeconds kickPower activeTargetIndex
         currentQuestion pending showSidebar isPaused kickerFrame
         setShowSidebar].
    rewrite E1, E2, E3, E4, E5, E6, E7, E9, E10. reflexivity.
  - inversion Hrun; subst s'. apply (sound_close_flags s); [exact H |].
    reflexivity.
Qed.

Lemma sound_mount (t : list draw) (s : State) :
  Charge.mount t = Some s \/ Click.mount t = Some s -> sound s.
Proof.
  assert (Hview : forall s1 q,
             currentQuestion s1 = Some q -> question_invariant q ->
             view (s1 |> setShowHelp true |> setIsPaused true) =
             mkView (score s1) (questionIndex s1) (elapsedSeconds s1)
                    (kickPower s1) (activeTargetIndex s1) (Some q)
                    (pending s1) (showSidebar s1) true (kickerFrame s1))
    by (intros s1 q Hq _; unfold view; cbn; rewrite Hq; reflexivity).
  unfold Charge.mount, Click.mount, Charge.generateQuestion,
    Click.generateQuestion.
  change (tape (initialState Charge.startPos t)) with t.
  change (tape (initialState Click.restPos t)) with t.
  destruct (newQuestion t) as [[q t'] |] eqn:Hnew;
    intros [H | H]; try discriminate; inversion H; subst s;
    pose proof (newQuestion_invariant t q t' Hnew) as Hinv;
    (eapply sound_by_view; [reflexivity |]);
    unfold sound_view; view_simpl;
    repeat split; auto; try lia; try (constructor); try discriminate;
    exists q; auto.
Qed.

Lemma sound_charge_step (s s' : State) (e : Charge.Event) :
  sound s -> Charge.step s e = Some s' -> sound s'.
Proof.
  intros H Hstep.
  destruct e; cbv beta iota delta [Charge.step] in Hstep.
  - inversion Hstep; subst. now apply sound_handleKeyDown.
  - inversion Hstep; subst. now apply sound_charge_handleKeyUp.
  - inversion Hstep; subst. now apply sound_chargeTick.
  - inversion Hstep; subst. now apply sound_timerTick.
  - inversion Hstep; subst. now apply sound_togglePause.
  - inversion Hstep; subst. now apply sound_openHelp.
  - destruct (showHelp s); [| inversion Hstep; subst; exact H].
    exact (sound_charge_closeHelp s s' H Hstep).
  - destruct (showSidebar s || is_finished (gameState s));
      [| inversion Hstep; subst; exact H].
    exact (sound_charge_resetRound s s' H Hstep).
  - exact (sound_charge_fire k now s s' H Hstep).
Qed.

Lemma sound_click_step (s s' : State) (e : Click.Event) :
  sound s -> Click.step s e = Some s' -> sound s'.
Proof.
  intros H Hstep.
  destruct e; cbv beta iota delta [Click.step] in Hstep.
  - inversion Hstep; subst. now apply sound_click_clickOption.
  - inversion Hstep; subst. now apply sound_timerTick.
  - inversion Hstep; subst. now apply sound_togglePause.
  - inversion Hstep; subst. now apply sound_openHelp.
  - destruct (showHelp s); [| inversion Hstep; subst; exact H].
    exact (sound_click_closeHelp s s' H Hstep).
  - destruct (showSidebar s || is_finished (gameState s));
      [| inversion Hstep; subst; exact H].
    exact (sound_click_resetRound s s' H Hstep).
  - exact (sound_click_fire k s s' H Hstep).
Qed.

Lemma sound_charge_run (es : list Charge.Event) :
  forall s s', sound s -> Charge.run s es = Some s' -> sound s'.
Proof.
  induction es as [| e es IH]; intros s s' H Hrun; cbn in Hrun.
  - inversion Hrun; subst. exact H.
  - destruct (Charge.step s e) as [s1 |] eqn:Hstep; [| discriminate].
    apply (IH s1); [| exact Hrun]. eapply sound_charge_step; eauto.
Qed.

Lemma sound_click_run (es : list Click.Event) :
  forall s s', sound s -> Click.run s es = Some s' -> sound s'.
Proof.
  induction es as [| e es IH]; intros s s' H Hrun; cbn in Hrun.
  - inversion Hrun; subst. exact H.
  - destruct (Click.step s e) as [s1 |] eqn:Hstep; [| discriminate].
    apply (IH s1); [| exact Hrun]. eapply sound_click_step; eauto.
Qed.

(** Every state an execution reaches from mount, in either version. *)
Lemma reachable_sound (t : list draw) (s0 s : State) :
  (exists es, Charge.mount t = Some s0 /\ Charge.run s0 es = Some s) \/
  (exists es, Click.mount t = Some s0 /\ Click.run s0 es = Some s) ->
  sound s.
Proof.
  intros [(es & Hm & Hrun) | (es & Hm & Hrun)].
  - eapply sound_charge_run; [| exact Hrun]. eapply sound_mount; eauto.
  - eapply sound_click_run; [| exact Hrun]. eapply sound_mount; eauto.
Qed.

Lemma reachable_is_sound (s : State) : reachable s -> sound s.
Proof.
  intros [(t & s0 & es & Hm & Hrun) | (t & s0 & es & Hm & Hrun)];
    apply (reachable_sound t s0 s); [left | right]; exists es; auto.
Qed.

Lemma overrun_state_reachable : charge_reachable overrun_state.
Proof.
  exists (tape_for 14), mounted_state, (Charge.CloseHelp :: overrun_trace).
  split; vm_compute; reflexivity.
Qed.

Lemma midflight_state_reachable : charge_reachable midflight_state.
Proof.
  exists (tape_for 14), mounted_state,
    (Charge.CloseHelp :: firstn 59 overrun_trace).
  split; vm_compute; reflexivity.
Qed.

Lemma start_state_reachable : charge_reachable start_state.
Proof.
  exists (tape_for 14), mounted_state, [Charge.CloseHelp].
  split; vm_compute; reflexivity.
Qed.

(** X1. In every state an execution reaches from mount (either version, any
    events, leaked callbacks included) the score, the question index and the
    elapsed seconds are not negative. *)
Theorem counters_never_negative (s : State) :
  reachable s ->
  0 <= score s /\ 0 <= questionIndex s /\ 0 <= elapsedSeconds s.
Proof.
  intros H. apply reachable_is_sound in H. open_sound H. auto.
Qed.

Lemma counters_never_negative_witness :
  0 <= score overrun_state /\ 0 <= questionIndex overrun_state /\
  0 <= elapsedSeconds overrun_state.
Proof.
  apply (counters_never_negative overrun_state).
  left. exact overrun_state_reachable.
Defined.

(** X2. In every reachable state the power ref holds a multiple of 4 between
    0 and 100, and the highlighted target index is 0, 1 or 2. *)
Theorem power_always_in_range (s : State) :
  reachable s ->
  0 <= kickPower s <= 100 /\ kickPower s mod 4 = 0 /\
  (activeTargetIndex s <= 2)%nat.
Proof.
  intros H. apply reachable_is_sound in H. open_sound H.
  destruct Hpw. auto.
Qed.

Lemma power_always_in_range_witness :
  0 <= kickPower charged_state <= 100 /\ kickPower charged_state mod 4 = 0 /\
  (activeTargetIndex charged_state <= 2)%nat.
Proof.
  apply (power_always_in_range charged_state).
  left. exists (tape_for 14), mounted_state,
    (Charge.CloseHelp :: Charge.KeyDown true false
       :: repeat Charge.ChargeTick 10).
  split; vm_compute; reflexivity.
Defined.

(** X3. In every reachable state a question is on display, and it satisfies
    the generator's invariants (three distinct options, the answer among them
    once): the component never shows a stale or empty question. *)
Theorem question_always_displayed (s : State) :
  reachable s ->
  exists q, currentQuestion s = Some q /\ question_invariant q.
Proof.
  intros H. apply reachable_is_sound in H. open_sound H. exact Hq.
Qed.

Lemma question_always_displayed_witness :
  exists q, currentQuestion overrun_state = Some q /\ question_invariant q.
Proof.
  apply (question_always_displayed overrun_state).
  left. exact overrun_state_reachable.
Defined.

Lemma kick_wf_index (sel : Z) (index : nat) (q : option Question) :
  kick_wf sel index q ->
  (index < 3)%nat /\
  nth_error Charge.GOAL_POSITIONS index = Some (Charge.goalTarget index).
Proof.
  intros (q' & _ & Hinv & Hnth).
  assert (Hlt : (index < 3)%nat).
  { destruct Hinv as (_ & _ & _ & Hlen & _).
    rewrite <- Hlen. apply nth_error_Some. congruence. }
  split; [exact Hlt |].
  rewrite <- goalTarget_tier. rewrite Nat.mod_small by exact Hlt. reflexivity.
Qed.

(** X4. Every kick callback that is pending in a reachable state carries a
    well-formed question and the option of that question at the index it
    carries; so the index is below 3 and [GOAL_POSITIONS[index % 3]] never
    wraps around. *)
Theorem pending_kicks_well_formed (s : State) (p : Pending) :
  reachable s -> In p (pending s) ->
  match callback_of p with
  | KickStart sel index q _ | AnimateBall _ sel index q _ =>
      kick_wf sel index q /\ (index < 3)%nat /\
      nth_error Charge.GOAL_POSITIONS index = Some (Charge.goalTarget index)
  | KickLanded sel q _ => exists index, kick_wf sel index q /\ (index < 3)%nat
  | NextQuestion _ => True
  end.
Proof.
  intros H Hin. apply reachable_is_sound in H. open_sound H.
  rewrite Forall_forall in Hpd. specialize (Hpd p Hin).
  unfold pending_wf in Hpd.
  destruct (callback_of p) as [sel idx q qi | st sel idx q qi | sel q qi | qi].
  - split; [exact Hpd | now apply (kick_wf_index sel idx q)].
  - split; [exact Hpd | now apply (kick_wf_index sel idx q)].
  - destruct Hpd as (idx & Hk). exists idx. split; [exact Hk |].
    now apply (kick_wf_index sel idx q).
  - exact I.
Qed.

Lemma pending_kicks_well_formed_witness :
  kick_wf 7 0 (Some sample_question) /\ (0 < 3)%nat /\
  nth_error Charge.GOAL_POSITIONS 0 = Some (Charge.goalTarget 0).
Proof.
  apply (pending_kicks_well_formed midflight_state
           (AnimationFrame
              (AnimateBall (ms 13050) 7 0 (Some sample_question) 10))).
  - left. exact midflight_state_reachable.
  - vm_compute. left. reflexivity.
Defined.

(** X5. In every reachable state that accepts input, releasing the spacebar
    starts a kick: the option at the tier of the current power exists, so the
    [!== undefined] test of [handleKeyUp] never skips the kick. *)
Theorem accepted_release_always_kicks (s : State) :
  reachable s -> accepting s ->
  exists q opt,
    currentQuestion s = Some q /\
    nth_error (options q) (Charge.targetIndexOf (kickPower s)) = Some opt /\
    pending (Charge.handleKeyUp true s) =
      pending s ++
      [Timeout 100 (KickStart opt (Charge.targetIndexOf (kickPower s))
                              (Some q) (questionIndex s))] /\
    isKicking (Charge.handleKeyUp true s) = true.
Proof.
  intros H Hacc. apply reachable_is_sound in H. open_sound H.
  destruct Hq as (q & Hq & Hinv).
  assert (Hlen : length (options q) = 3%nat)
    by (destruct Hinv as (_ & _ & _ & Hlen & _); exact Hlen).
  destruct (nth_error (options q) (Charge.targetIndexOf (kickPower s)))
    as [opt |] eqn:Hopt.
  - exists q, opt. split; [exact Hq |]. split; [exact Hopt |].
    destruct (handleKeyUp_kicks s q opt Hacc Hq Hopt) as (Hp & Hk & _).
    split; [exact Hp | exact Hk].
  - apply nth_error_None in Hopt.
    pose proof (targetIndexOf_le (kickPower s)). lia.
Qed.

Lemma accepted_release_always_kicks_witness :
  exists q opt,
    currentQuestion charged_state = Some q /\
    nth_error (options q) (Charge.targetIndexOf (kickPower charged_state))
      = Some opt /\
    pending (Charge.handleKeyUp true charged_state) =
      pending charged_state ++
      [Timeout 100 (KickStart opt
                      (Charge.targetIndexOf (kickPower charged_state))
                      (Some q) (questionIndex charged_state))] /\
    isKicking (Charge.handleKeyUp true charged_state) = true.
Proof.
  apply (accepted_release_always_kicks charged_state).
  - left. exists (tape_for 14), mounted_state,
      (Charge.CloseHelp :: Charge.KeyDown true false
         :: repeat Charge.ChargeTick 10).
    split; vm_compute; reflexivity.
  - vm_compute. auto.
Defined.

(** X6. In every reachable state the sidebar is shown only while the game is
    paused, and the kicker sprite frame is 1, 2 or 3. *)
Theorem sidebar_only_while_paused (s : State) :
  reachable s ->
  (showSidebar s = true -> isPaused s = true) /\ 1 <= kickerFrame s <= 3.
Proof.
  intros H. apply reachable_is_sound in H. open_sound H. auto.
Qed.

Lemma sidebar_only_while_paused_witness :
  (showSidebar overrun_state = true -> isPaused overrun_state = true) /\
  1 <= kickerFrame overrun_state <= 3.
Proof.
  apply (sidebar_only_while_paused overrun_state).
  left. exact overrun_state_reachable.
Defined.

(** ** The ledger of a round *)

Lemma ledger_generateQuestion (s s' : State) :
  Charge.generateQuestion s = Some s' \/ Click.generateQuestion s = Some s' ->
  ledger s' = ledger s.
Proof.
  unfold Charge.generateQuestion, Click.generateQuestion.
  destruct (newQuestion (tape s)) as [[q t'] |];
    intros [H | H]; try discriminate; inversion H; reflexivity.
Qed.

Lemma ledger_charge_resetRound (s s' : State) :
  Charge.resetRound s = Some s' -> ledger s' = (playing, 0, 0, 0).
Proof.
  unfold Charge.resetRound, Charge.generateQuestion.
  change (tape (s |> setGameState playing |> setScore 0 |> setQuestionIndex 0
                  |> setElapsedSeconds 0 |> setFeedback None
                  |> setIsKicking false |> setKickerFrame 1
                  |> setShowKicker true |> setBallPosition Charge.startPos))
    with (tape s).
  destruct (newQuestion (tape s)) as [[q t'] |]; [| discriminate].
  intros H. inversion H. reflexivity.
Qed.

Lemma ledger_click_resetRound (s s' : State) :
  Click.resetRound s = Some s' -> ledger s' = (playing, 0, 0, 0).
Proof.
  unfold Click.resetRound, Click.generateQuestion.
  change (tape (s |> setGameState playing |> setScore 0 |> setQuestionIndex 0
                  |> setElapsedSeconds 0 |> setFeedback None
                  |> setIsKicking false |> setShowKicker true
                  |> setBallPosition Click.restPos))
    with (tape s).
  destruct (newQuestion (tape s)) as [[q t'] |]; [| discriminate].
  intros H. inversion H. reflexivity.
Qed.

Lemma ledger_charge_closeHelp (s s' : State) :
  Charge.closeHelp s = Some s' ->
  ledger s' = ledger s \/ (gameState s = menu /\ ledger s' = (playing, 0, 0, 0)).
Proof.
  unfold Charge.closeHelp, Charge.startGame, Charge.generateQuestion.
  destruct (gameState s) eqn:Hg; cbv beta iota delta [is_menu].
  - change (tape (setShowHelp false s |> setGameState playing |> setScore 0
                    |> setQuestionIndex 0 |> setElapsedSeconds 0))
      with (tape s).
    destruct (newQuestion (tape s)) as [[q t'] |]; [| discriminate].
    intros H. inversion H. right. split; reflexivity.
  - intros H. inversion H. left. unfold ledger. cbn. rewrite Hg. reflexivity.
  - intros H. inversion H. left. unfold ledger. cbn. rewrite Hg. reflexivity.
Qed.

Lemma ledger_click_closeHelp (s s' : State) :
  Click.closeHelp s = Some s' ->
  ledger s' = ledger s \/ (gameState s = menu /\ ledger s' = (playing, 0, 0, 0)).
Proof.
  unfold Click.closeHelp, Click.startGame, Click.generateQuestion.
  destruct (gameState s) eqn:Hg; cbv beta iota delta [is_menu].
  - change (tape (setShowHelp false s |> setGameState playing |> setScore 0
                    |> setQuestionIndex 0 |> setElapsedSeconds 0))
      with (tape s).
    destruct (newQuestion (tape s)) as [[q t'] |]; [| discriminate].
    intros H. inversion H. right. split; reflexivity.
  - intros H. inversion H. left. unfold ledger. cbn. rewrite Hg. reflexivity.
  - intros H. inversion H. left. unfold ledger. cbn. rewrite Hg. reflexivity.
Qed.

Lemma ledger_resolveKick (sel : Z) (q : option Question) (qi : Z) (s : State) :
  ledger (resolveKick sel q qi s) = ledger s \/
  ledger (resolveKick sel q qi s) =
    (gameState s, score s + 1, questionIndex s, elapsedSeconds s).
Proof.
  unfold resolveKick. destruct (isCorrect sel q); [right | left]; reflexivity.
Qed.

Lemma ledger_afterFeedback (gen : State -> option State) (qi : Z)
      (s s' : State) :
  (forall a b, gen a = Some b -> ledger b = ledger a) ->
  afterFeedback gen qi s = Some s' ->
  ledger s' =
    (gameState s, score s, questionIndex s + 1, elapsedSeconds s) \/
  ledger s' = (finished, score s, questionIndex s, elapsedSeconds s).
Proof.
  intros Hgen. unfold afterFeedback.
  destruct (qi <? QUESTION_COUNT - 1); intros H.
  - left. rewrite (Hgen _ _ H). reflexivity.
  - right. inversion H. reflexivity.
Qed.

Lemma ledger_charge_handleAnswer (sel : Z) (index : nat) (s : State) :
  ledger (Charge.handleAnswer sel index s) = ledger s.
Proof.
  unfold Charge.handleAnswer.
  destruct (isKicking s || isPaused s || negb (is_playing (gameState s)));
    [reflexivity |].
  destruct (layoutEffect_style (setIsKicking true s)) as (style & ->).
  reflexivity.
Qed.

Lemma ledger_charge_handleKeyUp (space : bool) (s : State) :
  ledger (Charge.handleKeyUp space s) = ledger s.
Proof.
  unfold Charge.handleKeyUp.
  destruct (space && negb (isKicking s) && negb (isPaused s)
            && is_playing (gameState s)); [| reflexivity].
  cbv zeta.
  destruct (currentQuestion _) as [q |]; [| reflexivity].
  destruct (nth_error _ _) as [opt |]; [| reflexivity].
  match goal with
  | |- ledger (setKickPower 0 (Charge.handleAnswer ?a ?i ?x)) = _ =>
      change (ledger (Charge.handleAnswer a i x) = ledger s);
      rewrite (ledger_charge_handleAnswer a i x)
  end.
  reflexivity.
Qed.

Lemma ledger_click_clickOption (idx : nat) (s : State) :
  ledger (Click.clickOption idx s) = ledger s.
Proof.
  unfold Click.clickOption.
  destruct (currentQuestion s) as [q |]; [| reflexivity].
  destruct (nth_error _ _) as [opt |]; [| reflexivity].
  destruct (isKicking s || isPaused s); [reflexivity |].
  unfold Click.handleAnswer.
  destruct (isKicking s || isPaused s || negb (is_playing (gameState s)));
    reflexivity.
Qed.

Lemma ledger_timerTick (s : State) :
  ledger (timerTick s) = ledger s \/
  (gameState s = playing /\ isPaused s = false /\
   ledger (timerTick s) =
     (playing, score s, questionIndex s, elapsedSeconds s + 1)).
Proof.
  unfold timerTick.
  destruct (isPaused s) eqn:Hp; [left; reflexivity |].
  destruct (gameState s) eqn:Hg; cbn [orb negb is_playing];
    [left; reflexivity | | left; reflexivity].
  right. split; [reflexivity |]. split; [reflexivity |].
  unfold ledger. cbn. rewrite Hg. reflexivity.
Qed.

Lemma ledger_charge_fire (k : nat) (now : Q) (s s' : State) :
  Charge.fire k now s = Some s' ->
  exists m, moved m Fired s s'.
Proof.
  unfold Charge.fire.
  destruct (nth_error (pending s) k) as [p |];
    [| intros H; inversion H; exists Same; reflexivity].
  destruct (callback_of p) as [sel idx q qi | st sel idx q qi | sel q qi | qi];
    cbv beta iota delta [Charge.runCallback]; intros H.
  - inversion H. exists Same. reflexivity.
  - inversion H. unfold Charge.animateBall. cbv zeta.
    destruct (Qltb _ _).
    + exists Same. destruct (currentQuestion _); reflexivity.
    + unfold Charge.finishKick.
      match goal with
      | |- context [resolveKick ?a ?b ?c ?x] =>
          destruct (ledger_resolveKick a b c x) as [E | E]
      end.
      * exists Same. cbn [moved]. rewrite E.
        destruct (currentQuestion _); reflexivity.
      * exists Goal. cbn [moved]. split; [reflexivity |]. rewrite E.
        destruct (currentQuestion _); reflexivity.
  - inversion H. exists Same. reflexivity.
  - destruct (ledger_afterFeedback Charge.generateQuestion qi _ s'
                (fun a b Hab => ledger_generateQuestion a b (or_introl Hab)) H)
      as [E | E].
    + exists Advance. split; [reflexivity | exact E].
    + exists Finish. split; [reflexivity | exact E].
Qed.

Lemma ledger_click_fire (k : nat) (s s' : State) :
  Click.fire k s = Some s' ->
  exists m, moved m Fired s s'.
Proof.
  unfold Click.fire.
  destruct (nth_error (pending s) k) as [p |];
    [| intros H; inversion H; exists Same; reflexivity].
  destruct (callback_of p) as [sel idx q qi | st sel idx q qi | sel q qi | qi];
    cbv beta iota delta [Click.runCallback]; intros H.
  - inversion H. exists Same. reflexivity.
  - inversion H. exists Same. reflexivity.
  - inversion H.
    match goal with
    | |- context [resolveKick ?a ?b ?c ?x] =>
        destruct (ledger_resolveKick a b c x) as [E | E]
    end.
    + exists Same. exact E.
    + exists Goal. split; [reflexivity | exact E].
  - destruct (ledger_afterFeedback Click.generateQuestion qi _ s'
                (fun a b Hab => ledger_generateQuestion a b (or_intror Hab)) H)
      as [E | E].
    + exists Advance. split; [reflexivity | exact E].
    + exists Finish. split; [reflexivity | exact E].
Qed.

Lemma stepped_moves (k : Kind) (s s' : State) :
  stepped k s s' -> exists m, moved m k s s'.
Proof.
  intros [(e & Hk & Hstep) | (e & Hk & Hstep)]; subst k.
  - destruct e; cbv beta iota delta [Charge.step] in Hstep;
      cbv beta iota delta [charge_kind].
    + inversion Hstep. exists Same. unfold moved, Charge.handleKeyDown.
      destruct (space && negb repeat && negb (isKicking s)
                && negb (isPaused s) && is_playing (gameState s));
        reflexivity.
    + inversion Hstep. exists Same. apply ledger_charge_handleKeyUp.
    + inversion Hstep. exists Same. unfold moved, Charge.chargeTick.
      destruct (chargeInterval s); reflexivity.
    + inversion Hstep.
      destruct (ledger_timerTick s) as [E | (Hg & Hp & E)].
      * exists Same. exact E.
      * exists Tick. repeat split; assumption.
    + inversion Hstep. exists Same. reflexivity.
    + inversion Hstep. exists Same. reflexivity.
    + destruct (showHelp s);
        [| inversion Hstep; exists Same; reflexivity].
      destruct (ledger_charge_closeHelp s s' Hstep) as [E | (Hg & E)].
      * exists Same. exact E.
      * exists Start. repeat split; assumption.
    + destruct (showSidebar s || is_finished (gameState s));
        [| inversion Hstep; exists Same; reflexivity].
      exists Restart. split; [reflexivity |].
      exact (ledger_charge_resetRound s s' Hstep).
    + exact (ledger_charge_fire k now s s' Hstep).
  - destruct e; cbv beta iota delta [Click.step] in Hstep;
      cbv beta iota delta [click_kind].
    + inversion Hstep. exists Same. apply ledger_click_clickOption.
    + inversion Hstep.
      destruct (ledger_timerTick s) as [E | (Hg & Hp & E)].
      * exists Same. exact E.
      * exists Tick. repeat split; assumption.
    + inversion Hstep. exists Same. reflexivity.
    + inversion Hstep. exists Same. reflexivity.
    + destruct (showHelp s);
        [| inversion Hstep; exists Same; reflexivity].
      destruct (ledger_click_closeHelp s s' Hstep) as [E | (Hg & E)].
      * exists Same. exact E.
      * exists Start. repeat split; assumption.
    + destruct (showSidebar s || is_finished (gameState s));
        [| inversion Hstep; exists Same; reflexivity].
      exists Restart. split; [reflexivity |].
      exact (ledger_click_resetRound s s' Hstep).
    + exact (ledger_click_fire k s s' Hstep).
Qed.

(** X7. Phases only move forward.  One event of either version leaves the
    phase alone, or starts a round (the help is closed on the menu, or the
    round is reset), or ends it (a scheduled callback runs); in particular no
    event brings the menu back. *)
Theorem phase_only_moves_forward (k : Kind) (s s' : State) :
  stepped k s s' ->
  (gameState s' = gameState s \/
   (gameState s' = playing /\
    (k = Reset \/ (k = Close /\ gameState s = menu))) \/
   (gameState s' = finished /\ k = Fired)) /\
  (gameState s' = menu -> gameState s = menu).
Proof.
  intros H. destruct (stepped_moves k s s' H) as (m & Hm).
  unfold ledger in Hm.
  destruct m; cbn [moved] in Hm; unfold ledger in Hm.
  - inversion Hm as [[Hg Hs Hq He]]. split; [left; reflexivity | congruence].
  - destruct Hm as (_ & Hg & _ & E). inversion E as [[Hg' Hs Hq He]].
    split; [left; congruence | congruence].
  - destruct Hm as (Hk & Hg & E). inversion E as [[Hg' Hs Hq He]].
    split; [right; left; auto | congruence].
  - destruct Hm as (Hk & E). inversion E as [[Hg' Hs Hq He]].
    split; [right; left; auto | congruence].
  - destruct Hm as (_ & E). inversion E as [[Hg' Hs Hq He]].
    split; [left; reflexivity | congruence].
  - destruct Hm as (_ & E). inversion E as [[Hg' Hs Hq He]].
    split; [left; reflexivity | congruence].
  - destruct Hm as (Hk & E). inversion E as [[Hg' Hs Hq He]].
    split; [right; right; auto | congruence].
Qed.

Lemma phase_only_moves_forward_witness :
  (gameState start_state = gameState mounted_state \/
   (gameState start_state = playing /\
    (Close = Reset \/ (Close = Close /\ gameState mounted_state = menu))) \/
   (gameState start_state = finished /\ Close = Fired)) /\
  (gameState start_state = menu -> gameState mounted_state = menu).
Proof.
  apply (phase_only_moves_forward Close mounted_state start_state).
  left. exists Charge.CloseHelp. split; vm_compute; reflexivity.
Defined.



(** X9. The clock advances by exactly one second, and only on the one-second
    interval of a round that is being played and is not paused; it returns to
    0 only when a round is started or reset.  Nothing else changes it. *)
Theorem clock_runs_only_while_playing (k : Kind) (s s' : State) :
  stepped k s s' ->
  elapsedSeconds s' = elapsedSeconds s \/
  (elapsedSeconds s' = elapsedSeconds s + 1 /\ k = Clock /\
   gameState s = playing /\ isPaused s = false) \/
  (elapsedSeconds s' = 0 /\ (k = Reset \/ (k = Close /\ gameState s = menu))).
Proof.
  intros H. destruct (stepped_moves k s s' H) as (m & Hm).
  destruct m; cbn [moved] in Hm; unfold ledger in Hm.
  - injection Hm as Hg Hs Hq He. auto.
  - destruct Hm as (Hk & Hg & Hp & E). injection E as Hg' Hs Hq He.
    right; left; auto.
  - destruct Hm as (Hk & Hg & E). injection E as Hg' Hs Hq He.
    right; right; auto.
  - destruct Hm as (Hk & E). injection E as Hg' Hs Hq He.
    right; right; auto.
  - destruct Hm as (Hk & E). injection E as Hg' Hs Hq He. auto.
  - destruct Hm as (Hk & E). injection E as Hg' Hs Hq He. auto.
  - destruct Hm as (Hk & E). injection E as Hg' Hs Hq He. auto.
Qed.

Lemma clock_runs_only_while_playing_witness :
  elapsedSeconds (timerTick start_state) = elapsedSeconds start_state \/
  (elapsedSeconds (timerTick start_state) = elapsedSeconds start_state + 1 /\
   Clock = Clock /\ gameState start_state = playing /\
   isPaused start_state = false) \/
  (elapsedSeconds (timerTick start_state) = 0 /\
   (Clock = Reset \/ (Clock = Close /\ gameState start_state = menu))).
Proof.
  apply (clock_runs_only_while_playing Clock start_state
           (timerTick start_state)).
  left. exists Charge.Second. split; reflexivity.
Defined.

(** ** The clock *)







Lemma two_digits (n : Z) :
  0 <= n < 100 ->
  padStart 2 "0" (String_of n) =
  String (digit (n / 10)) (String (digit (n mod 10)) EmptyString).
Proof.
  intros Hn.
  assert (H : forallb
                (fun k =>
                   String.eqb
                     (padStart 2 "0" (String_of (Z.of_nat k)))
                     (String (digit (Z.of_nat k / 10))
                        (String (digit (Z.of_nat k mod 10)) EmptyString)))
                (seq 0 100) = true) by (vm_compute; reflexivity).
  rewrite forallb_forall in H. specialize (H (Z.to_nat n)).
  rewrite Z2Nat.id in H by lia. apply String.eqb_eq. apply H.
  apply in_seq. lia.
Qed.

(** X12. Below one hundred minutes the clock reads "MM:SS": two digits of
    minutes, a colon, two digits of seconds, the seconds below 60. *)
Theorem formatTime_is_MM_SS (s : Z) :
  0 <= s < 6000 ->
  formatTime s = clock_face (s / 60) (s mod 60) /\
  String.length (formatTime s) = 5%nat /\
  0 <= s mod 60 < 60.
Proof.
  intros Hs.
  assert (E : formatTime s = clock_face (s / 60) (s mod 60)).
  { unfold formatTime. cbv zeta.
    rewrite Z.rem_mod_nonneg by lia.
    rewrite !two_digits.
    - reflexivity.
    - pose proof (Z.mod_pos_bound s 60). lia.
    - split; [apply Z.div_pos; lia | apply Z.div_lt_upper_bound; lia]. }
  split; [exact E |]. split.
  - rewrite E. reflexivity.
  - apply Z.mod_pos_bound. lia.
Qed.

Lemma formatTime_is_MM_SS_witness :
  formatTime 754 = clock_face (754 / 60) (754 mod 60) /\
  String.length (formatTime 754) = 5%nat /\
  0 <= 754 mod 60 < 60.
Proof. apply (formatTime_is_MM_SS 754). lia. Defined.



(** ** The game-over overlay *)

Lemma starLit_threshold (score i : Z) :
  starLit score i = (10 * i <=? 3 * score).
Proof.
  unfold starLit, QUESTION_COUNT.
  change (inject_Z 10 / inject_Z 3)%Q with (10 # 3)%Q.
  destruct (10 * i <=? 3 * score) eqn:H.
  - apply Z.leb_le in H. apply Qle_bool_iff.
    unfold Qle, Qmult, inject_Z. cbn [Qnum Qden Pos.mul]. lia.
  - apply Z.leb_gt in H.
    destruct (Qle_bool _ _) eqn:Hq; [| reflexivity].
    apply Qle_bool_iff in Hq.
    unfold Qle, Qmult, inject_Z in Hq. cbn [Qnum Qden Pos.mul] in Hq. lia.
Qed.

(** X14. The overlay in integer terms: the three stars are lit from scores
    4, 7 and 10, so the lit stars are a prefix of the row and three stars
    need a full score; the headline is "YOU WIN!" from score 6. *)
Theorem overlay_thresholds (score : Z) :
  stars score = [4 <=? score; 7 <=? score; 10 <=? score] /\
  (headline score = YOU_WIN <-> 6 <= score) /\
  (starLit score 3 = true -> starLit score 2 = true) /\
  (starLit score 2 = true -> starLit score 1 = true) /\
  (starLit score 2 = true -> headline score = YOU_WIN).
Proof.
  assert (Hh : headline score = YOU_WIN <-> 6 <= score).
  { unfold headline, Qltb, QUESTION_COUNT.
    destruct (Qle_bool _ _) eqn:Hq; cbn [negb].
    - apply Qle_bool_iff in Hq. revert Hq.
      change (inject_Z 10 / inject_Z 2)%Q with (10 # 2)%Q.
      unfold Qle, inject_Z. cbn [Qnum Qden]. intros Hq.
      split; [discriminate | lia].
    - split; [intros _ | reflexivity].
      destruct (Z_lt_le_dec score 6) as [Hlt | Hge]; [| exact Hge].
      assert (Hq' : Qle_bool (inject_Z score) (inject_Z 10 / inject_Z 2)%Q = true).
      { apply Qle_bool_iff. change (inject_Z 10 / inject_Z 2)%Q with (10 # 2)%Q.
        unfold Qle, inject_Z. cbn [Qnum Qden]. lia. }
      congruence. }
  assert (H1 : starLit score 1 = (4 <=? score)).
  { rewrite starLit_threshold.
    destruct (4 <=? score) eqn:H; [apply Z.leb_le in H; apply Z.leb_le; lia |].
    apply Z.leb_gt in H. apply Z.leb_gt. lia. }
  assert (H2 : starLit score 2 = (7 <=? score)).
  { rewrite starLit_threshold.
    destruct (7 <=? score) eqn:H; [apply Z.leb_le in H; apply Z.leb_le; lia |].
    apply Z.leb_gt in H. apply Z.leb_gt. lia. }
  assert (H3 : starLit score 3 = (10 <=? score)).
  { rewrite starLit_threshold.
    destruct (10 <=? score) eqn:H; [apply Z.leb_le in H; apply Z.leb_le; lia |].
    apply Z.leb_gt in H. apply Z.leb_gt. lia. }
  split; [unfold stars; cbn [map]; rewrite H1, H2, H3; reflexivity |].
  split; [exact Hh |].
  rewrite H1, H2, H3.
  repeat split; intros H; apply Z.leb_le in H;
    try (apply Z.leb_le; lia); apply Hh; lia.
Qed.

(** ** More on the ball flight *)

Lemma goalTarget_cases (index : nat) :
  Charge.goalTarget index = mkPos (inject_Z 40) (inject_Z 50) \/
  Charge.goalTarget index = mkPos (inject_Z 65) (inject_Z 50) \/
  Charge.goalTarget index = mkPos (inject_Z 90) (inject_Z 50).
Proof.
  unfold Charge.goalTarget. change (length Charge.GOAL_POSITIONS) with 3%nat.
  pose proof (Nat.mod_upper_bound index 3 ltac:(lia)) as Hlt.
  destruct (index mod 3)%nat as [| [| [| k]]]; auto. lia.
Qed.

Lemma goalTarget_x_range (index : nat) :
  (40 <= pos_x (Charge.goalTarget index) <= 90)%Q.
Proof.
  destruct (goalTarget_cases index) as [-> | [-> | ->]];
    split; compute; discriminate.
Qed.

Lemma ball_x_linear (target : Pos) (t : Q) :
  (pos_x (Charge.ballAt target t) ==
   inject_Z 12 + t * (pos_x target - inject_Z 12))%Q.
Proof.
  unfold Charge.ballAt, Charge.ballCoord, Charge.controlPos, Charge.Math_pow2,
    Charge.startPos.
  cbn [pos_x pos_y]. field.
Qed.

Lemma ball_y_profile (index : nat) (t : Q) :
  (pos_y (Charge.ballAt (Charge.goalTarget index) t) ==
   inject_Z 58 - inject_Z 96 * t + inject_Z 88 * t * t)%Q.
Proof.
  destruct (goalTarget_cases index) as [-> | [-> | ->]];
    unfold Charge.ballAt, Charge.ballCoord, Charge.controlPos,
      Charge.Math_pow2, Charge.startPos;
    cbn [pos_x pos_y]; ring.
Qed.

Lemma Qsquare_nonneg (a : Q) : (0 <= a * a)%Q.
Proof. nra. Qed.

Lemma progress_monotone (startTime t1 t2 : Q) :
  (t1 <= t2)%Q ->
  (Charge.progressAt startTime t1 <= Charge.progressAt startTime t2)%Q.
Proof.
  intros H. unfold Charge.progressAt.
  apply Q.min_le_compat_r.
  apply Qmult_le_compat_r; [lra | compute; discriminate].
Qed.

(** X15. The ball moves at constant horizontal speed and never moves back:
    its x coordinate is linear in the progress (the control point sits half
    way), and a later frame of the same flight never draws it further left. *)
Theorem ball_never_moves_back (index : nat) (startTime t1 t2 : Q) :
  (t1 <= t2)%Q ->
  let x t :=
    pos_x (Charge.ballAt (Charge.goalTarget index)
                         (Charge.progressAt startTime t)) in
  (x t1 == inject_Z 12 + Charge.progressAt startTime t1 *
                         (pos_x (Charge.goalTarget index) - inject_Z 12))%Q /\
  (x t1 <= x t2)%Q.
Proof.
  intros H x. unfold x. split; [apply ball_x_linear |].
  rewrite !ball_x_linear.
  pose proof (progress_monotone startTime t1 t2 H) as Hm.
  pose proof (goalTarget_x_range index) as [Hlo _].
  set (p1 := Charge.progressAt startTime t1) in *.
  set (p2 := Charge.progressAt startTime t2) in *.
  set (X := pos_x (Charge.goalTarget index)) in *.
  unfold inject_Z in *. nra.
Qed.

Lemma ball_never_moves_back_witness :
  (pos_x (Charge.ballAt (Charge.goalTarget 2)
            (Charge.progressAt (ms 100) (ms 500)))
   == inject_Z 12 + Charge.progressAt (ms 100) (ms 500) *
                    (pos_x (Charge.goalTarget 2) - inject_Z 12))%Q /\
  (pos_x (Charge.ballAt (Charge.goalTarget 2)
            (Charge.progressAt (ms 100) (ms 500)))
   <= pos_x (Charge.ballAt (Charge.goalTarget 2)
               (Charge.progressAt (ms 100) (ms 900))))%Q.
Proof.
  apply (ball_never_moves_back 2 (ms 100) (ms 500) (ms 900)).
  compute. discriminate.
Defined.

(** X16. At every frame at or after its start the ball is drawn inside the
    field: between the kicker (x = 12) and its target, and between the apex
    of the arc (y = 350/11, about 31.8) and the ground line (y = 58).  The
    height profile is the same for the three targets. *)
Theorem ball_stays_in_field (index : nat) (startTime currentTime : Q) :
  (startTime <= currentTime)%Q ->
  let p := Charge.ballAt (Charge.goalTarget index)
                         (Charge.progressAt startTime currentTime) in
  (inject_Z 12 <= pos_x p)%Q /\
  (pos_x p <= pos_x (Charge.goalTarget index))%Q /\
  (pos_x (Charge.goalTarget index) <= inject_Z 90)%Q /\
  ((350 # 11) <= pos_y p)%Q /\ (pos_y p <= inject_Z 58)%Q /\
  (pos_y p ==
   pos_y (Charge.ballAt (Charge.goalTarget 0)
                        (Charge.progressAt startTime currentTime)))%Q.
Proof.
  intros H p. unfold p.
  destruct (progress_clamped startTime currentTime H) as (_ & H0 & H1).
  pose proof (goalTarget_x_range index) as [Hlo Hhi].
  rewrite !ball_x_linear, !ball_y_profile.
  set (t := Charge.progressAt startTime currentTime) in *.
  set (X := pos_x (Charge.goalTarget index)) in *.
  pose proof (Qsquare_nonneg (t - (6 # 11))) as Hsq.
  unfold inject_Z in *.
  repeat split; try nra; lra.
Qed.

Lemma ball_stays_in_field_witness :
  let p := Charge.ballAt (Charge.goalTarget 1)
                         (Charge.progressAt (ms 100) (ms 500)) in
  (inject_Z 12 <= pos_x p)%Q /\
  (pos_x p <= pos_x (Charge.goalTarget 1))%Q /\
  (pos_x (Charge.goalTarget 1) <= inject_Z 90)%Q /\
  ((350 # 11) <= pos_y p)%Q /\ (pos_y p <= inject_Z 58)%Q /\
  (pos_y p ==
   pos_y (Charge.ballAt (Charge.goalTarget 0)
                        (Charge.progressAt (ms 100) (ms 500))))%Q.
Proof.
  apply (ball_stays_in_field 1 (ms 100) (ms 500)).
  compute. discriminate.
Defined.

(** ** Help, pause and aim *)

(** X17. Opening the help and closing it again during a round changes three
    flags and nothing else: the help and the sidebar are closed and the round
    runs, also when it was paused before the help was opened.  Two clicks on
    the pause button restore the pause flag and make the sidebar agree with
    it.  Both versions behave alike. *)
Theorem help_round_trip (s : State) :
  gameState s <> menu ->
  let s' := s |> setShowHelp false |> setIsPaused false
              |> setShowSidebar false in
  Charge.run s [Charge.OpenHelp; Charge.CloseHelp] = Some s' /\
  Click.run s [Click.OpenHelp; Click.CloseHelp] = Some s' /\
  togglePause (togglePause s)
    = (s |> setShowSidebar (isPaused s) |> setIsPaused (isPaused s)).
Proof.
  intros Hg s'.
  assert (Hm : is_menu (gameState s) = false)
    by (destruct (gameState s); [congruence | reflexivity | reflexivity]).
  split; [| split].
  - cbv beta iota delta [Charge.run Charge.step].
    change (showHelp (openHelp s)) with true. cbv iota.
    unfold Charge.closeHelp.
    change (gameState (openHelp s)) with (gameState s). rewrite Hm.
    reflexivity.
  - cbv beta iota delta [Click.run Click.step].
    change (showHelp (openHelp s)) with true. cbv iota.
    unfold Click.closeHelp.
    change (gameState (openHelp s)) with (gameState s). rewrite Hm.
    reflexivity.
  - unfold togglePause.
    change (isPaused (setIsPaused (negb (isPaused s))
                        (setShowSidebar (negb (isPaused s)) s)))
      with (negb (isPaused s)).
    rewrite negb_involutive. reflexivity.
Qed.

Lemma help_round_trip_witness :
  Charge.run start_state [Charge.OpenHelp; Charge.CloseHelp]
    = Some (start_state |> setShowHelp false |> setIsPaused false
                        |> setShowSidebar false).
Proof.
  apply (help_round_trip start_state). vm_compute. discriminate.
Defined.

Lemma chargeTick_bystanders (s : State) :
  bystanders (Charge.chargeTick s) = bystanders s.
Proof. unfold Charge.chargeTick. destruct (chargeInterval s); reflexivity. Qed.

Lemma hold_ticks_bystanders (n : nat) (s : State) :
  bystanders (hold_ticks n s) = bystanders s.
Proof.
  induction n as [| n IH]; [reflexivity |].
  change (hold_ticks (S n) s) with (Charge.chargeTick (hold_ticks n s)).
  rewrite chargeTick_bystanders. exact IH.
Qed.

Lemma hold_ticks_target (n : nat) (s : State) :
  chargeInterval s = true -> kickPower s = 0 -> activeTargetIndex s = 0%nat ->
  activeTargetIndex (hold_ticks n s)
    = Charge.targetIndexOf (kickPower (hold_ticks n s)).
Proof.
  intros Hi Hp Ha. destruct n as [| n].
  - cbn. rewrite Hp, Ha. reflexivity.
  - change (hold_ticks (S n) s) with (Charge.chargeTick (hold_ticks n s)).
    unfold Charge.chargeTick. rewrite (hold_ticks_interval n s Hi).
    reflexivity.
Qed.

Lemma aimed_target_power (n : nat) :
  Charge.targetIndexOf (Z.min (4 * Z.of_nat n) 100) = aimed_target n /\
  powerBarClass (Z.min (4 * Z.of_nat n) 100)
    = nth (aimed_target n) [bg_green_400; bg_yellow_400; bg_red_500]
          bg_green_400.
Proof.
  unfold Charge.targetIndexOf, powerBarClass, aimed_target.
  destruct (66 <? Z.min (4 * Z.of_nat n) 100) eqn:H66;
    destruct (33 <? Z.min (4 * Z.of_nat n) 100) eqn:H33;
    destruct (n <=? 8)%nat eqn:H8; destruct (n <=? 16)%nat eqn:H16;
    try (split; reflexivity); exfalso;
    rewrite ?Z.ltb_lt, ?Z.ltb_ge in *;
    rewrite ?Nat.leb_le, ?Nat.leb_gt in *; lia.
Qed.

(** X18. The length of the hold selects the target.  After [n] runs of the
    40 ms charge interval the highlighted target, the colour of the power bar
    and the target a release kicks at agree: the first for up to 8 ticks, the
    second for 9 to 16, the third from 17 on; exactly one target is
    highlighted, and the release kicks the option shown on it. *)
Theorem hold_time_selects_target (s : State) (n : nat) :
  reachable s -> accepting s ->
  let held := hold_ticks n (Charge.handleKeyDown true false s) in
  activeTargetIndex held = aimed_target n /\
  (forall idx, isTargeted idx held = true <-> idx = aimed_target n) /\
  powerBarClass (kickPower held)
    = nth (aimed_target n) [bg_green_400; bg_yellow_400; bg_red_500]
          bg_green_400 /\
  exists q opt,
    currentQuestion s = Some q /\
    nth_error (options q) (aimed_target n) = Some opt /\
    pending (Charge.handleKeyUp true held) =
      pending s ++ [Timeout 100 (KickStart opt (aimed_target n) (Some q)
                                           (questionIndex s))].
Proof.
  intros Hr Ha held.
  pose proof Ha as (Hk & Hp & Hg).
  assert (Hdown : Charge.handleKeyDown true false s =
                  (s |> setIsCharging true |> setKickPower 0
                     |> setActiveTargetIndex 0%nat |> setChargeInterval true)).
  { unfold Charge.handleKeyDown. rewrite Hk, Hp, Hg. reflexivity. }
  assert (Hb : bystanders held =
               (false, false, playing, currentQuestion s, pending s,
                questionIndex s, true)).
  { unfold held. rewrite hold_ticks_bystanders, Hdown.
    unfold bystanders. cbn. rewrite Hk, Hp, Hg. reflexivity. }
  unfold bystanders in Hb.
  injection Hb as Hbk Hbp Hbg Hbq Hbpd Hbqi Hbc.
  assert (Hpow : kickPower held = Z.min (4 * Z.of_nat n) 100).
  { unfold held. apply hold_ticks_power; rewrite Hdown; reflexivity. }
  assert (Htgt : activeTargetIndex held = aimed_target n).
  { unfold held. rewrite hold_ticks_target by (rewrite Hdown; reflexivity).
    fold held. rewrite Hpow. apply aimed_target_power. }
  split; [exact Htgt |]. split; [| split].
  - intros idx. unfold isTargeted. rewrite Hbc, Htgt. apply Nat.eqb_eq.
  - rewrite Hpow. apply aimed_target_power.
  - apply reachable_is_sound in Hr. open_sound Hr.
    destruct Hq as (q & Hq & Hinv).
    assert (Hlen : length (options q) = 3%nat)
      by (destruct Hinv as (_ & _ & _ & Hlen & _); exact Hlen).
    destruct (nth_error (options q) (aimed_target n)) as [opt |] eqn:Hopt.
    + exists q, opt. split; [exact Hq |]. split; [exact Hopt |].
      assert (Hacc : accepting held) by (repeat split; assumption).
      assert (Hq' : currentQuestion held = Some q) by congruence.
      assert (Hopt' : nth_error (options q)
                        (Charge.targetIndexOf (kickPower held)) = Some opt).
      { rewrite Hpow. rewrite (proj1 (aimed_target_power n)). exact Hopt. }
      destruct (handleKeyUp_kicks held q opt Hacc Hq' Hopt') as (Hpd' & _).
      rewrite Hpd', Hbpd, Hbqi, Hpow, (proj1 (aimed_target_power n)).
      reflexivity.
    + apply nth_error_None in Hopt. exfalso.
      assert (aimed_target n <= 2)%nat; [| lia].
      unfold aimed_target.
      destruct (n <=? 8)%nat; [lia |]. destruct (n <=? 16)%nat; lia.
Qed.

Lemma hold_time_selects_target_witness :
  activeTargetIndex charged_state = aimed_target 10 /\
  (forall idx, isTargeted idx charged_state = true <-> idx = aimed_target 10) /\
  powerBarClass (kickPower charged_state)
    = nth (aimed_target 10) [bg_green_400; bg_yellow_400; bg_red_500]
          bg_green_400 /\
  exists q opt,
    currentQuestion start_state = Some q /\
    nth_error (options q) (aimed_target 10) = Some opt /\
    pending (Charge.handleKeyUp true charged_state) =
      pending start_state ++
      [Timeout 100 (KickStart opt (aimed_target 10) (Some q)
                              (questionIndex start_state))].
Proof.
  apply (hold_time_selects_target start_state 10).
  - left. exact start_state_reachable.
  - vm_compute. auto.
Defined.

(** ** Audio *)

Lemma assign_same (name : string) (a : Sound.Audio) (refs : Sound.Refs) :
  Sound.assign name a refs name = Some a.
Proof. unfold Sound.assign. rewrite String.eqb_refl. reflexivity. Qed.

Lemma assign_other (name n : string) (a : Sound.Audio) (refs : Sound.Refs) :
  n <> name -> Sound.assign name a refs n = refs n.
Proof.
  intros H. unfold Sound.assign.
  destruct (String.eqb n name) eqn:E; [| reflexivity].
  apply String.eqb_eq in E. congruence.
Qed.

(** What [playAudio] does to the element of its own cue, and to the others. *)
Lemma playAudio_own (config : Sound.Config) (isMuted allowed : bool)
      (name : string) (loop : bool) (refs : Sound.Refs) :
  Sound.playAudio config isMuted allowed name loop refs name =
  if isMuted then refs name
  else
    match refs name with
    | Some a => Some (if Sound.paused a then Sound.play allowed a else a)
    | None =>
        match Sound.truthy (config name) with
        | Some source =>
            Some (Sound.play allowed (Sound.mkAudio source loop true 0))
        | None => None
        end
    end.
Proof.
  unfold Sound.playAudio. destruct isMuted; [reflexivity |].
  destruct (refs name) as [a |] eqn:Hr.
  - cbv zeta. rewrite Hr. destruct (Sound.paused a); [apply assign_same | exact Hr].
  - destruct (Sound.truthy (config name)) as [source |]; cbv zeta.
    + rewrite assign_same. cbn [Sound.paused Sound.new_Audio Sound.src Sound.currentTime].
      rewrite assign_same. reflexivity.
    + rewrite Hr. exact Hr.
Qed.


Lemma pauseAudio_at (name n : string) (refs : Sound.Refs) :
  Sound.pauseAudio name refs n =
  if String.eqb n name then option_map Sound.pause (refs name) else refs n.
Proof.
  unfold Sound.pauseAudio.
  destruct (String.eqb n name) eqn:E.
  - apply String.eqb_eq in E. subst n.
    destruct (refs name) as [a |] eqn:Hr; [apply assign_same | exact Hr].
  - apply String.eqb_neq in E.
    destruct (refs name) as [a |]; [apply assign_other; exact E | reflexivity].
Qed.








(** X21. Muting and unmuting restarts the music, pausing and resuming
    continues it.  The mute button exists only while the round is paused.
    With the music element constructed: after a pause, a mute and an unmute
    (each followed by the music effect) [isMuted] is false again and the
    music is paused at position 0, and the resume that follows starts it from
    there if the browser allows; a pause and a resume with no mute in between
    leave it at the position it had.  No click on the mute button starts a
    sound: while paused [toggleMute] calls [playAudio] in no case, and the
    [playAudio] of an unmute click would belong to the muted render. *)
Theorem music_round_trips (config : Sound.Config) (allowed : bool)
        (refs : Sound.Refs) (a : Sound.Audio) :
  refs "background"%string = Some a ->
  fst (mute_then_unmute config allowed refs) = false /\
  snd (mute_then_unmute config allowed refs) "background"%string
    = Some (Sound.mkAudio (Sound.src a) (Sound.loop a) true 0) /\
  Sound.musicEffect config allowed false false
    (snd (mute_then_unmute config allowed refs)) "background"%string
    = Some (Sound.mkAudio (Sound.src a) (Sound.loop a) (negb allowed) 0) /\
  pause_then_resume config allowed refs "background"%string
    = Some (Sound.mkAudio (Sound.src a) (Sound.loop a) (negb allowed)
                          (Sound.currentTime a)) /\
  (forall isMuted m,
     Sound.toggleMute config allowed isMuted true m refs
     = (negb m, if negb m then Sound.stopAllAudio refs else refs)) /\
  (forall isPaused,
     Sound.toggleMute config allowed true isPaused true refs = (false, refs)).
Proof.
  intros H.
  assert (E : snd (mute_then_unmute config allowed refs) "background"%string
              = Some (Sound.mkAudio (Sound.src a) (Sound.loop a) true 0)).
  { cbv beta iota zeta delta [mute_then_unmute Sound.toggleMute
                                Sound.musicEffect negb andb fst snd].
    rewrite !pauseAudio_at, !String.eqb_refl.
    unfold Sound.stopAllAudio.
    rewrite pauseAudio_at, String.eqb_refl, H. reflexivity. }
  split; [reflexivity |]. split; [exact E |]. split; [| split; [| split]].
  - cbv beta iota zeta delta [Sound.musicEffect negb andb].
    rewrite playAudio_own, E. cbn.
    destruct allowed; reflexivity.
  - unfold pause_then_resume, Sound.musicEffect. cbn [negb andb].
    rewrite playAudio_own, pauseAudio_at, String.eqb_refl, H. cbn.
    destruct allowed; reflexivity.
  - intros isMuted m. unfold Sound.toggleMute. cbn [negb].
    destruct m; reflexivity.
  - intros isPaused. unfold Sound.toggleMute. cbn [negb].
    destruct isPaused; reflexivity.
Qed.

Lemma music_round_trips_witness :
  snd (mute_then_unmute sample_config true music_playing) "background"%string
    = Some (Sound.mkAudio "/audio/background.mp3" true true 0) /\
  Sound.musicEffect sample_config true false false
    (snd (mute_then_unmute sample_config true music_playing))
    "background"%string
    = Some (Sound.mkAudio "/audio/background.mp3" true false 0) /\
  pause_then_resume sample_config true music_playing "background"%string
    = Some (Sound.mkAudio "/audio/background.mp3" true false (inject_Z 5)).
Proof.
  destruct (music_round_trips sample_config true music_playing
              (Sound.mkAudio "/audio/background.mp3" true false (inject_Z 5))
              eq_refl) as (_ & H1 & H2 & H3 & _).
  split; [exact H1 |]. split; [exact H2 | exact H3].
Defined.

(** ** The option buttons of the click version *)

(** X22. In every reachable state of the click version that accepts input, a
    click on one of the three option buttons starts exactly one kick: the
    landing is scheduled after 800 ms with the option on the button, the
    question and the index on display, and the ball is sent to x = 90 at the
    height of the button's row (25, 50 or 75).  There is no fourth button. *)
Theorem accepted_click_always_kicks (s : State) (idx : nat) :
  reachable s -> accepting s -> (idx < 3)%nat ->
  exists q opt,
    currentQuestion s = Some q /\ nth_error (options q) idx = Some opt /\
    pending (Click.clickOption idx s) =
      pending s ++ [Timeout ANIMATION_DURATION
                      (KickLanded opt (Some q) (questionIndex s))] /\
    isKicking (Click.clickOption idx s) = true /\
    ballPosition (Click.clickOption idx s) =
      mkPos (inject_Z 90) (inject_Z (25 + Z.of_nat idx * 25)) /\
    25 <= 25 + Z.of_nat idx * 25 <= 75 /\
    Click.clickOption (idx + 3) s = s.
Proof.
  intros H (Hk & Hp & Hg) Hidx. apply reachable_is_sound in H. open_sound H.
  destruct Hq as (q & Hq & Hinv).
  assert (Hlen : length (options q) = 3%nat)
    by (destruct Hinv as (_ & _ & _ & Hlen & _); exact Hlen).
  destruct (nth_error (options q) idx) as [opt |] eqn:Hopt;
    [| apply nth_error_None in Hopt; lia].
  exists q, opt. split; [exact Hq |]. split; [exact Hopt |].
  assert (E : Click.clickOption idx s =
              (s |> setIsKicking true
                 |> setBallPosition
                      (mkPos (inject_Z 90) (inject_Z (25 + Z.of_nat idx * 25)))
                 |> setTimeout ANIMATION_DURATION
                      (KickLanded opt (Some q) (questionIndex s)))).
  { unfold Click.clickOption. rewrite Hq, Hopt, Hk, Hp. cbn [orb].
    unfold Click.handleAnswer. rewrite Hk, Hp, Hg, Hq. reflexivity. }
  rewrite E. split; [reflexivity |]. split; [reflexivity |].
  split; [reflexivity |]. split; [lia |].
  unfold Click.clickOption. rewrite Hq.
  assert (Hnone : nth_error (options q) (idx + 3) = None)
    by (apply nth_error_None; lia).
  rewrite Hnone. reflexivity.
Qed.

Lemma accepted_click_always_kicks_witness :
  exists q opt,
    currentQuestion click_start_state = Some q /\
    nth_error (options q) 1 = Some opt /\
    pending (Click.clickOption 1 click_start_state) =
      pending click_start_state ++
      [Timeout ANIMATION_DURATION
         (KickLanded opt (Some q) (questionIndex click_start_state))] /\
    isKicking (Click.clickOption 1 click_start_state) = true /\
    ballPosition (Click.clickOption 1 click_start_state) =
      mkPos (inject_Z 90) (inject_Z (25 + Z.of_nat 1 * 25)) /\
    25 <= 25 + Z.of_nat 1 * 25 <= 75 /\
    Click.clickOption (1 + 3) click_start_state = click_start_state.
Proof.
  apply (accepted_click_always_kicks click_start_state 1).
  - right.
    exists (tape_for 14),
      (match Click.mount (tape_for 14) with
       | Some s => s
       | None => initialState Click.restPos []
       end), [Click.CloseHelp].
    split; vm_compute; reflexivity.
  - vm_compute. auto.
  - lia.
Defined.
